(** * The ciao controller datastore: a shallow embedding

    The Go type [Datastore] is an in-memory cache of tenants, instances,
    workloads, volumes, volume attachments, external IP pools and images in
    front of a [persistentStore].  This development embeds the cache tables
    and the facade operations as state-passing functions and proves
    properties of the tenant IP allocator, the external IP pool manager,
    the volume attachment engine, the workload catalog and the usage
    accounting.

    Conventions.
    - A Go [uint32] is an [N] with the wrap-around [u32] written out; a Go
      [int] is a [Z].
    - A Go map is a [gmap]; where the source ranges over a map and the
      result depends on the order, the order is a parameter.
    - The persistent store is an oracle answering each call with [None]
      (success) or [Some e]; every call is logged together with the cache
      as it is when the call is issued.
    - A facade operation is a function from the cache and the log to
      [option]: [None] stands for a run that does not return (a nil
      dereference, or a loop that does not end). *)

From stdpp Require Import gmap strings list fin_maps sorting.
From Stdlib Require Import ZArith NArith Lia Ascii String.

Set Default Proof Using "Type".

(** ** Errors *)

Inductive error : Type :=
| ErrNoTenant
| ErrNoBlockData
| ErrNoStorageAttachment
| ErrTenantNotFound
| ErrWorkloadNotFound
| ErrWorkloadInUse
| ErrInstanceNotFound
| ErrPoolNotFound
| ErrPoolNotEmpty
| ErrPoolEmpty
| ErrDuplicateSubnet
| ErrDuplicateIP
| ErrInvalidIP
| ErrSubnetTooSmall
| ErrInvalidPoolAddress
| ErrAddressNotFound
| ErrNoImage
| ErrAlreadyExists
| ErrParse (input : string)
| ErrNew (msg : string)
| ErrStore (code : string)
| Wrapped (msg : string) (cause : error).

(** [errors.Wrap]: nil stays nil. *)
Definition Wrap (err : option error) (msg : string) : option error :=
  match err with
  | None => None
  | Some e => Some (Wrapped msg e)
  end.

(** ** The pieces of Go's [net] package the datastore uses

    The datastore calls [net.ParseIP], [net.ParseCIDR], [net.CIDRMask],
    [IP.Mask], [IP.String] and [IPNet.Contains] of Go's standard library.
    They are modelled here for IPv4 addresses in dotted decimal, an address
    being the big-endian [uint32] of its four bytes. *)

Module Net.

Definition u32 (x : N) : N := (x mod 2 ^ 32)%N.

(** [net.CIDRMask(ones, 32)] read as a big-endian [uint32]. *)
Definition CIDRMask (ones : N) : N := (2 ^ 32 - 2 ^ (32 - ones))%N.

Record IPNet : Type := { IP : N; Ones : N }.

Definition Mask (n : IPNet) : N := CIDRMask (Ones n).

(** [ip.Mask(mask)] *)
Definition MaskIP (ip mask : N) : N := N.land ip mask.

(** The method [Contains] of [IPNet]. *)
Definition Contains (n : IPNet) (ip : N) : bool :=
  (N.land (IP n) (Mask n) =? N.land ip (Mask n))%N.

(** [incrementIP] of the datastore on a four-byte address: the carry runs
    through the bytes and the last address wraps to zero. *)
Definition incrementIP (ip : N) : N := u32 (ip + 1).

(** *** Printing: [IP.String] and [IPNet.String] *)

Definition digit (n : N) : ascii := ascii_of_N (48 + n).

Definition itoa (n : N) : string :=
  if (n <? 10)%N then String (digit n) ""
  else if (n <? 100)%N then String (digit (n / 10)) (String (digit (n mod 10)) "")
  else String (digit (n / 100))
         (String (digit (n / 10 mod 10)) (String (digit (n mod 10)) "")).

Definition IP_String (ip : N) : string :=
  itoa (ip / 2 ^ 24 mod 256) +:+ "." +:+ itoa (ip / 2 ^ 16 mod 256) +:+ "." +:+
  itoa (ip / 2 ^ 8 mod 256) +:+ "." +:+ itoa (ip mod 256).

Definition IPNet_String (n : IPNet) : string :=
  IP_String (IP n) +:+ "/" +:+ itoa (Ones n).

(** *** Parsing: [net.ParseIP] and [net.ParseCIDR], dotted decimal *)

Definition is_digit (c : ascii) : bool :=
  ((48 <=? N_of_ascii c) && (N_of_ascii c <=? 57))%N.

(** [dtoi]: the leading decimal digits of [s], how many there are, and the
    rest; it fails on no digit and on a value of [0xFFFFFF] or more. *)
Fixpoint dtoi_from (s : string) (n : N) (i : nat) : option (N * nat * string) :=
  match s with
  | String c rest =>
    if is_digit c then
      let n' := (n * 10 + (N_of_ascii c - 48))%N in
      if (16777215 <=? n')%N then None else dtoi_from rest n' (S i)
    else match i with O => None | _ => Some (n, i, s) end
  | EmptyString => match i with O => None | _ => Some (n, i, s) end
  end.

Definition dtoi (s : string) : option (N * nat * string) := dtoi_from s 0%N 0%nat.

Definition leading_zero (s : string) : bool :=
  match s with
  | String c _ => bool_decide (c = "0"%char)
  | EmptyString => false
  end.

(** One component of [parseIPv4]; a component of several digits that
    starts with a zero is refused, as Go does since its release 1.17. *)
Definition parse_octet (s : string) : option (N * string) :=
  match dtoi s with
  | Some (n, c, rest) =>
    if (255 <? n)%N then None
    else if (1 <? c)%nat && leading_zero s then None
    else Some (n, rest)
  | None => None
  end.

Definition skip_dot (s : string) : option string :=
  match s with
  | String c rest => if bool_decide (c = "."%char) then Some rest else None
  | EmptyString => None
  end.

Definition ParseIP (s : string) : option N :=
  match parse_octet s with
  | Some (a, s1) =>
    match skip_dot s1 with
    | Some s1' =>
      match parse_octet s1' with
      | Some (b, s2) =>
        match skip_dot s2 with
        | Some s2' =>
          match parse_octet s2' with
          | Some (c, s3) =>
            match skip_dot s3 with
            | Some s3' =>
              match parse_octet s3' with
              | Some (d, EmptyString) =>
                Some (a * 2 ^ 24 + b * 2 ^ 16 + c * 2 ^ 8 + d)%N
              | _ => None
              end
            | None => None
            end
          | None => None
          end
        | None => None
        end
      | None => None
      end
    | None => None
    end
  | None => None
  end.

(** The text before the first slash and the text after it. *)
Fixpoint split_slash (s : string) : option (string * string) :=
  match s with
  | String c rest =>
    if bool_decide (c = "/"%char) then Some (EmptyString, rest)
    else match split_slash rest with
         | Some (a, b) => Some (String c a, b)
         | None => None
         end
  | EmptyString => None
  end.

(** [net.ParseCIDR]: the address and the network it lies in. *)
Definition ParseCIDR (s : string) : option (N * IPNet) :=
  match split_slash s with
  | Some (addr, mask) =>
    match ParseIP addr, dtoi mask with
    | Some ip, Some (n, _, EmptyString) =>
      if (32 <? n)%N then None
      else Some (ip, {| IP := MaskIP ip (CIDRMask n); Ones := n |})
    | _, _ => None
    end
  | None => None
  end.

End Net.

Import Net.

(** ** Tenant private addresses *)

Record tenantIP : Type := { subnet : N; host : N }.

(** [tenant.network]: subnet base to (address to in-use). *)
Abbreviation network_t := (gmap N (gmap N bool)).

(** [netmap[addr]] for [netmap := subnets[subnetNum]]: a missing entry reads
    as [false]. *)
Definition netmap_get (net : network_t) (subnetNum addr : N) : bool :=
  match net !! subnetNum with
  | Some netmap => default false (netmap !! addr)
  | None => false
  end.

(** [if subnets[subnetNum] == nil { subnets[subnetNum] = make(...) }] *)
Definition ensure_subnet (net : network_t) (subnetNum : N) : network_t :=
  match net !! subnetNum with
  | Some _ => net
  | None => <[subnetNum := ∅]> net
  end.

(** [netmap[addr] = true], written through the map that
    [subnets[subnetNum]] refers to. *)
Definition netmap_set (net : network_t) (subnetNum addr : N) : network_t :=
  alter (<[addr := true]>) subnetNum net.

(** One round of the loop of [cleanTenantIPs]. *)
Definition cleanTenantIP (net : network_t) (ip : tenantIP) : network_t :=
  let net1 := alter (delete (host ip)) (subnet ip) net in
  if decide (size (default (∅ : gmap N bool) (net1 !! subnet ip)) = 0%nat)
  then delete (subnet ip) net1
  else net1.

Definition cleanTenantIPs (net : network_t) (IPs : list tenantIP) : network_t :=
  foldl cleanTenantIP net IPs.

(** The locals of [AllocateTenantIPPool] that the scan updates.  The count
    of hosts is an [int] of 64 bits that stays below the number of
    addresses of the tenant, 2^32 at most, so it is counted without
    wrap-around. *)
Record alloc_state : Type := {
  net : network_t;
  addrs : list N;
  tenantAddrs : list tenantIP;
  hostCount : Z
}.

Inductive hosts_result : Type :=
| Continue (st : alloc_state)
| Reached (st : alloc_state).

(** The inner loop [for host := 2; host < maxHosts-1; host++], over the
    hosts still to visit. *)
Fixpoint hostsLoop (num : Z) (start subnetNum : N) (hosts : list Z)
    (st : alloc_state) : hosts_result :=
  match hosts with
  | [] => Continue st
  | h :: rest =>
    let addr := u32 (start + u32 (Z.to_N h)) in
    if negb (netmap_get (net st) subnetNum addr) then
      let st' := {| net := netmap_set (net st) subnetNum addr;
                    addrs := addrs st ++ [addr];
                    tenantAddrs := tenantAddrs st ++ [{| subnet := subnetNum; host := addr |}];
                    hostCount := (hostCount st + 1)%Z |} in
      if (hostCount st' =? num)%Z then Reached st'
      else hostsLoop num start subnetNum rest st'
    else hostsLoop num start subnetNum rest st
  end.

Inductive scan_result : Type :=
| OutOfAddrs (st : alloc_state)
| Claim (st : alloc_state).

(** The outer [for] loop, one subnet a round. *)
Fixpoint scan (fuel : nat) (num maxHosts : Z) (mask end_ start : N)
    (st : alloc_state) : option scan_result :=
  match fuel with
  | O => None
  | S fuel' =>
    if (end_ <=? start)%N then Some (OutOfAddrs st)
    else
      let subnetNum := N.land start mask in
      let st1 := {| net := ensure_subnet (net st) subnetNum;
                    addrs := addrs st;
                    tenantAddrs := tenantAddrs st;
                    hostCount := hostCount st |} in
      match hostsLoop num start subnetNum (seqZ 2 (maxHosts - 3)) st1 with
      | Reached st2 => Some (Claim st2)
      | Continue st2 =>
        scan fuel' num maxHosts mask end_ (u32 (start + u32 (Z.to_N maxHosts))) st2
      end
  end.

(** [for k, v := range subnets { if len(v) < maxHosts { start = k; break } }] *)
Fixpoint firstFit (maxHosts : Z) (start : N) (entries : list (N * gmap N bool)) : N :=
  match entries with
  | [] => start
  | (k, v) :: rest =>
    if (Z.of_nat (size v) <? maxHosts)%Z then k else firstFit maxHosts start rest
  end.

(** ** The records of package [types]

    Modelled from the spec: package [types] and package [payloads] are not
    among the sources; each record carries the fields that the datastore
    reads or writes. *)

Inductive Visibility : Type := Public | Private | Internal.

Inductive BlockState : Type := Available | Attaching | InUse | Detaching.

#[global] Instance Visibility_eq_dec : EqDecision Visibility.
Proof. solve_decision. Defined.

#[global] Instance BlockState_eq_dec : EqDecision BlockState.
Proof. solve_decision. Defined.

(** The network controller handle of a tenant ([CNCIctrl]). *)
Module CNCIManager.
Record t : Type := {
  WaitForActive : string → option error;
  ScheduleRemoveSubnet : string → option error
}.
End CNCIManager.

(** [types.Instance]; the name [Instance] is taken in Rocq.  The pointers to
    instances that the source shares between [ds.instances] and the maps of
    tenants and nodes are records here: none of the operations below writes
    to an instance. *)
Module Instance_.
Record t : Type := {
  ID : string;
  TenantID : string;
  WorkloadID : string;
  IPAddress : string
}.
End Instance_.

Module Workload.
Record t : Type := {
  ID : string;
  TenantID : string;
  visibility : Visibility
}.
End Workload.

Module Volume.
Record t : Type := {
  ID : string;
  TenantID : string;
  State : BlockState
}.
Definition with_State (s : BlockState) (v : t) : t :=
  {| ID := ID v; TenantID := TenantID v; State := s |}.
End Volume.

Module StorageResource.
Record t : Type := {
  ID : string;
  Bootable : bool;
  Ephemeral : bool
}.
End StorageResource.

Module StorageAttachment.
Record t : Type := {
  ID : string;
  InstanceID : string;
  BlockID : string;
  Ephemeral : bool;
  Boot : bool
}.
End StorageAttachment.

Module ExternalSubnet.
Record t : Type := { ID : string; CIDR : string }.
End ExternalSubnet.

Module ExternalIP.
Record t : Type := { ID : string; Address : string }.
End ExternalIP.

Module Pool.
Record t : Type := {
  ID : string;
  Name : string;
  Free : Z;
  TotalIPs : Z;
  Subnets : list ExternalSubnet.t;
  IPs : list ExternalIP.t
}.
End Pool.

Module MappedIP.
Record t : Type := {
  ID : string;
  ExternalIP : string;
  InternalIP : string;
  InstanceID : string;
  TenantID : string;
  PoolID : string;
  PoolName : string
}.
Definition zero : t :=
  {| ID := ""; ExternalIP := ""; InternalIP := ""; InstanceID := "";
     TenantID := ""; PoolID := ""; PoolName := "" |}.
End MappedIP.

Module Image.
Record t : Type := {
  ID : string;
  Name : string;
  TenantID : string;
  visibility : Visibility
}.
End Image.

(** Times and durations are counted in nanoseconds. *)
Module CiaoUsage.
Record t : Type := {
  VCPU : Z;
  Memory : Z;
  Disk : Z;
  Timestamp : Z
}.
End CiaoUsage.

Module TenantConfig.
Record t : Type := { Name : string; SubnetBits : Z }.
End TenantConfig.

(** The struct [tenant]: the embedded [types.Tenant] and the owned relations. *)
Module tenant.
Record t : Type := {
  ID : string;
  Config : TenantConfig.t;
  CNCIctrl : option CNCIManager.t;
  network : network_t;
  instances : gmap string Instance_.t;
  devices : gmap string Volume.t;
  workloads : list string;
  images : list string
}.
Definition SubnetBits (tn : t) : Z := TenantConfig.SubnetBits (Config tn).
Definition with_network (f : network_t → network_t) (tn : t) : t :=
  {| ID := ID tn; Config := Config tn; CNCIctrl := CNCIctrl tn;
     network := f (network tn); instances := instances tn; devices := devices tn;
     workloads := workloads tn; images := images tn |}.
Definition with_devices (f : gmap string Volume.t → gmap string Volume.t) (tn : t) : t :=
  {| ID := ID tn; Config := Config tn; CNCIctrl := CNCIctrl tn;
     network := network tn; instances := instances tn; devices := f (devices tn);
     workloads := workloads tn; images := images tn |}.
Definition with_workloads (f : list string → list string) (tn : t) : t :=
  {| ID := ID tn; Config := Config tn; CNCIctrl := CNCIctrl tn;
     network := network tn; instances := instances tn; devices := devices tn;
     workloads := f (workloads tn); images := images tn |}.
Definition with_images (f : list string → list string) (tn : t) : t :=
  {| ID := ID tn; Config := Config tn; CNCIctrl := CNCIctrl tn;
     network := network tn; instances := instances tn; devices := devices tn;
     workloads := workloads tn; images := f (images tn) |}.
End tenant.

(** ** The cache tables of [Datastore] *)

Record Datastore : Type := {
  tenants : gmap string tenant.t;
  instances : gmap string Instance_.t;
  tenantUsage : gmap string (list CiaoUsage.t);
  blockDevices : gmap string Volume.t;
  attachments : gmap string StorageAttachment.t;
  instanceVolumes : gmap (string * string) string;
  pools : gmap string Pool.t;
  externalSubnets : gmap string bool;
  externalIPs : gmap string bool;
  mappedIPs : gmap string MappedIP.t;
  images : gmap string Image.t;
  publicImages : list string;
  internalImages : list string;
  workloads : gmap string Workload.t;
  publicWorkloads : list string
}.

Definition emptyDatastore : Datastore :=
  {| tenants := ∅; instances := ∅; tenantUsage := ∅; blockDevices := ∅;
     attachments := ∅; instanceVolumes := ∅; pools := ∅; externalSubnets := ∅;
     externalIPs := ∅; mappedIPs := ∅; images := ∅; publicImages := [];
     internalImages := []; workloads := ∅; publicWorkloads := [] |}.

(** Field updates. *)
Definition set_tenants (f : gmap string tenant.t → gmap string tenant.t) (ds : Datastore) : Datastore :=
  {| tenants := f (tenants ds); instances := instances ds;
     tenantUsage := tenantUsage ds; blockDevices := blockDevices ds;
     attachments := attachments ds; instanceVolumes := instanceVolumes ds;
     pools := pools ds; externalSubnets := externalSubnets ds;
     externalIPs := externalIPs ds; mappedIPs := mappedIPs ds; images := images ds;
     publicImages := publicImages ds; internalImages := internalImages ds;
     workloads := workloads ds; publicWorkloads := publicWorkloads ds |}.

Definition set_tenantUsage (f : gmap string (list CiaoUsage.t) → gmap string (list CiaoUsage.t)) (ds : Datastore) : Datastore :=
  {| tenants := tenants ds; instances := instances ds;
     tenantUsage := f (tenantUsage ds); blockDevices := blockDevices ds;
     attachments := attachments ds; instanceVolumes := instanceVolumes ds;
     pools := pools ds; externalSubnets := externalSubnets ds;
     externalIPs := externalIPs ds; mappedIPs := mappedIPs ds; images := images ds;
     publicImages := publicImages ds; internalImages := internalImages ds;
     workloads := workloads ds; publicWorkloads := publicWorkloads ds |}.

Definition set_blockDevices (f : gmap string Volume.t → gmap string Volume.t) (ds : Datastore) : Datastore :=
  {| tenants := tenants ds; instances := instances ds; tenantUsage := tenantUsage ds;
     blockDevices := f (blockDevices ds); attachments := attachments ds;
     instanceVolumes := instanceVolumes ds; pools := pools ds;
     externalSubnets := externalSubnets ds; externalIPs := externalIPs ds;
     mappedIPs := mappedIPs ds; images := images ds; publicImages := publicImages ds;
     internalImages := internalImages ds; workloads := workloads ds;
     publicWorkloads := publicWorkloads ds |}.

Definition set_attachments (f : gmap string StorageAttachment.t → gmap string StorageAttachment.t) (ds : Datastore) : Datastore :=
  {| tenants := tenants ds; instances := instances ds; tenantUsage := tenantUsage ds;
     blockDevices := blockDevices ds; attachments := f (attachments ds);
     instanceVolumes := instanceVolumes ds; pools := pools ds;
     externalSubnets := externalSubnets ds; externalIPs := externalIPs ds;
     mappedIPs := mappedIPs ds; images := images ds; publicImages := publicImages ds;
     internalImages := internalImages ds; workloads := workloads ds;
     publicWorkloads := publicWorkloads ds |}.

Definition set_instanceVolumes (f : gmap (string * string) string → gmap (string * string) string) (ds : Datastore) : Datastore :=
  {| tenants := tenants ds; instances := instances ds; tenantUsage := tenantUsage ds;
     blockDevices := blockDevices ds; attachments := attachments ds;
     instanceVolumes := f (instanceVolumes ds); pools := pools ds;
     externalSubnets := externalSubnets ds; externalIPs := externalIPs ds;
     mappedIPs := mappedIPs ds; images := images ds; publicImages := publicImages ds;
     internalImages := internalImages ds; workloads := workloads ds;
     publicWorkloads := publicWorkloads ds |}.

Definition set_pools (f : gmap string Pool.t → gmap string Pool.t) (ds : Datastore) : Datastore :=
  {| tenants := tenants ds; instances := instances ds; tenantUsage := tenantUsage ds;
     blockDevices := blockDevices ds; attachments := attachments ds;
     instanceVolumes := instanceVolumes ds; pools := f (pools ds);
     externalSubnets := externalSubnets ds; externalIPs := externalIPs ds;
     mappedIPs := mappedIPs ds; images := images ds; publicImages := publicImages ds;
     internalImages := internalImages ds; workloads := workloads ds;
     publicWorkloads := publicWorkloads ds |}.

Definition set_externalSubnets (f : gmap string bool → gmap string bool) (ds : Datastore) : Datastore :=
  {| tenants := tenants ds; instances := instances ds; tenantUsage := tenantUsage ds;
     blockDevices := blockDevices ds; attachments := attachments ds;
     instanceVolumes := instanceVolumes ds; pools := pools ds;
     externalSubnets := f (externalSubnets ds); externalIPs := externalIPs ds;
     mappedIPs := mappedIPs ds; images := images ds; publicImages := publicImages ds;
     internalImages := internalImages ds; workloads := workloads ds;
     publicWorkloads := publicWorkloads ds |}.

Definition set_externalIPs (f : gmap string bool → gmap string bool) (ds : Datastore) : Datastore :=
  {| tenants := tenants ds; instances := instances ds; tenantUsage := tenantUsage ds;
     blockDevices := blockDevices ds; attachments := attachments ds;
     instanceVolumes := instanceVolumes ds; pools := pools ds;
     externalSubnets := externalSubnets ds; externalIPs := f (externalIPs ds);
     mappedIPs := mappedIPs ds; images := images ds; publicImages := publicImages ds;
     internalImages := internalImages ds; workloads := workloads ds;
     publicWorkloads := publicWorkloads ds |}.

Definition set_mappedIPs (f : gmap string MappedIP.t → gmap string MappedIP.t) (ds : Datastore) : Datastore :=
  {| tenants := tenants ds; instances := instances ds; tenantUsage := tenantUsage ds;
     blockDevices := blockDevices ds; attachments := attachments ds;
     instanceVolumes := instanceVolumes ds; pools := pools ds;
     externalSubnets := externalSubnets ds; externalIPs := externalIPs ds;
     mappedIPs := f (mappedIPs ds); images := images ds;
     publicImages := publicImages ds; internalImages := internalImages ds;
     workloads := workloads ds; publicWorkloads := publicWorkloads ds |}.

Definition set_images (f : gmap string Image.t → gmap string Image.t) (ds : Datastore) : Datastore :=
  {| tenants := tenants ds; instances := instances ds; tenantUsage := tenantUsage ds;
     blockDevices := blockDevices ds; attachments := attachments ds;
     instanceVolumes := instanceVolumes ds; pools := pools ds;
     externalSubnets := externalSubnets ds; externalIPs := externalIPs ds;
     mappedIPs := mappedIPs ds; images := f (images ds);
     publicImages := publicImages ds; internalImages := internalImages ds;
     workloads := workloads ds; publicWorkloads := publicWorkloads ds |}.

Definition set_publicImages (f : list string → list string) (ds : Datastore) : Datastore :=
  {| tenants := tenants ds; instances := instances ds; tenantUsage := tenantUsage ds;
     blockDevices := blockDevices ds; attachments := attachments ds;
     instanceVolumes := instanceVolumes ds; pools := pools ds;
     externalSubnets := externalSubnets ds; externalIPs := externalIPs ds;
     mappedIPs := mappedIPs ds; images := images ds;
     publicImages := f (publicImages ds); internalImages := internalImages ds;
     workloads := workloads ds; publicWorkloads := publicWorkloads ds |}.

Definition set_internalImages (f : list string → list string) (ds : Datastore) : Datastore :=
  {| tenants := tenants ds; instances := instances ds; tenantUsage := tenantUsage ds;
     blockDevices := blockDevices ds; attachments := attachments ds;
     instanceVolumes := instanceVolumes ds; pools := pools ds;
     externalSubnets := externalSubnets ds; externalIPs := externalIPs ds;
     mappedIPs := mappedIPs ds; images := images ds; publicImages := publicImages ds;
     internalImages := f (internalImages ds); workloads := workloads ds;
     publicWorkloads := publicWorkloads ds |}.

Definition set_workloads (f : gmap string Workload.t → gmap string Workload.t) (ds : Datastore) : Datastore :=
  {| tenants := tenants ds; instances := instances ds; tenantUsage := tenantUsage ds;
     blockDevices := blockDevices ds; attachments := attachments ds;
     instanceVolumes := instanceVolumes ds; pools := pools ds;
     externalSubnets := externalSubnets ds; externalIPs := externalIPs ds;
     mappedIPs := mappedIPs ds; images := images ds; publicImages := publicImages ds;
     internalImages := internalImages ds; workloads := f (workloads ds);
     publicWorkloads := publicWorkloads ds |}.

Definition set_publicWorkloads (f : list string → list string) (ds : Datastore) : Datastore :=
  {| tenants := tenants ds; instances := instances ds; tenantUsage := tenantUsage ds;
     blockDevices := blockDevices ds; attachments := attachments ds;
     instanceVolumes := instanceVolumes ds; pools := pools ds;
     externalSubnets := externalSubnets ds; externalIPs := externalIPs ds;
     mappedIPs := mappedIPs ds; images := images ds; publicImages := publicImages ds;
     internalImages := internalImages ds; workloads := workloads ds;
     publicWorkloads := f (publicWorkloads ds) |}.

(** ** The persistent store and the log of its calls *)

(** The methods of [persistentStore] that write, with their arguments. *)
Inductive dbcall : Type :=
| addTenant (id : string) (config : TenantConfig.t)
| deleteTenant (tenantID : string)
| claimTenantIPs (tenantID : string) (IPs : list tenantIP)
| deleteWorkload (ID : string)
| addBlockData (data : Volume.t)
| updateBlockData (data : Volume.t)
| deleteBlockData (ID : string)
| addStorageAttachment (a : StorageAttachment.t)
| deleteStorageAttachment (ID : string)
| addPool (pool : Pool.t)
| updatePool (pool : Pool.t)
| deletePool (ID : string)
| addMappedIP (m : MappedIP.t)
| deleteMappedIP (ID : string)
| updateImage (i : Image.t)
| deleteImage (ID : string).

Record persistentStore : Type := {
  exec : dbcall → option error;
  db_getTenant : string → option tenant.t * option error
}.

(** A call of the persistent store with the cache as it is when the call is
    issued, or a call of a tenant's network controller. *)
Inductive event : Type :=
| Persist (call : dbcall) (seen : Datastore)
| WaitedForActive (tenantID subnet : string).

Record world : Type := { cache : Datastore; log : list event }.

(** ** Runs of the facade *)

Definition M (A : Type) : Type := world → option (A * world).

Definition ret {A} (a : A) : M A := λ w, Some (a, w).

Definition bind {A B} (m : M A) (k : A → M B) : M B :=
  λ w, match m w with
       | Some (a, w') => k a w'
       | None => None
       end.

(** A nil dereference. *)
Definition panic {A} : M A := λ _, None.

Definition get : M Datastore := λ w, Some (cache w, w).

Definition modify (f : Datastore → Datastore) : M unit :=
  λ w, Some (tt, {| cache := f (cache w); log := log w |}).

Definition tell (e : event) : M unit :=
  λ w, Some (tt, {| cache := cache w; log := log w ++ [e] |}).

Notation "'do' x <- m ; k" := (bind m (λ x, k))
  (at level 10, x name, m at level 100, k at level 200,
   format "'[v' 'do'  x  <-  m ; '/' k ']'").
Notation "m ;; k" := (bind m (λ _, k))
  (at level 100, k at level 200, right associativity).

(** [ds.db.<call>(...)] *)
Definition persist (db : persistentStore) (c : dbcall) : M (option error) :=
  do ds <- get;
  tell (Persist c ds);;
  ret (exec db c).

(** Running an operation on a cache, with an empty log. *)
Definition run {A} (m : M A) (ds : Datastore) : option (A * world) :=
  m {| cache := ds; log := [] |}.

(** ** Tenant IP allocation *)

(** 172.16.0.0 *)
Definition tenantNetwork : N := 2886729728%N.

Definition set_network (tenantID : string) (n : network_t) : Datastore → Datastore :=
  set_tenants (alter (tenant.with_network (λ _, n)) tenantID).

(** The locals [mask], [start], [end] and [maxHosts] of
    [AllocateTenantIPPool] for a tenant with [bits] subnet bits. *)
Definition alloc_mask (bits : Z) : N := CIDRMask (Z.to_N bits).

Definition alloc_start (bits : Z) : N := MaskIP tenantNetwork (alloc_mask bits).

Definition alloc_end (bits : Z) : N :=
  u32 (N.shiftl (u32 (N.shiftr (alloc_start bits) 20 + 1)) 20).

Definition alloc_maxHosts (bits : Z) : Z := (2 ^ (32 - bits))%Z.

(** The part of [AllocateTenantIPPool] that runs under the tenants lock, up
    to the point where the scan has run out of addresses or has gathered
    [num] of them.  [rangeOrder] is the order in which [range] visits the
    entries of the network map. *)
Definition scanNetwork (rangeOrder : network_t → list (N * gmap N bool))
    (bits num : Z) (subnets : network_t) : option scan_result :=
  let start := firstFit (alloc_maxHosts bits) (alloc_start bits) (rangeOrder subnets) in
  scan (S (N.to_nat (alloc_end bits - start))) num (alloc_maxHosts bits)
    (alloc_mask bits) (alloc_end bits) start
    {| net := subnets; addrs := []; tenantAddrs := []; hostCount := 0 |}.

(** ** External IP pools: the checks *)

(** Go's [int] on a 64-bit platform. *)
Definition int (x : Z) : Z := ((x + 2 ^ 63) mod 2 ^ 64 - 2 ^ 63)%Z.

(** [isDuplicateSubnet].  The source parses every key of
    [externalSubnets] again ("this will always succeed"); a key that did not
    parse would be a nil dereference, and counts as no match here. *)
Definition isDuplicateSubnet (ds : Datastore) (new : IPNet) : bool :=
  existsb (λ kv : string * bool,
             snd kv &&
             match ParseCIDR (fst kv) with
             | Some (_, subnet) => Contains subnet (IP new) || Contains new (IP subnet)
             | None => false
             end)
    (map_to_list (externalSubnets ds)).

(** [isDuplicateIP] *)
Definition isDuplicateIP (ds : Datastore) (new : N) : bool :=
  existsb (λ kv : string * bool,
             snd kv &&
             match ParseCIDR (fst kv) with
             | Some (_, subnet) => Contains subnet new
             | None => false
             end)
    (map_to_list (externalSubnets ds))
  || default false (externalIPs ds !! IP_String new).

(** The first loop over [pool.IPs] in [AddPool]: the parsed addresses, or
    the error of the first address that is refused. *)
Fixpoint checkPoolIPs (ds : Datastore) (IPs : list ExternalIP.t) (newIPs : list N)
    : error + list N :=
  match IPs with
  | [] => inr newIPs
  | newIP :: rest =>
    match ParseIP (ExternalIP.Address newIP) with
    | None => inl ErrInvalidIP
    | Some ip =>
      if isDuplicateIP ds ip then inl ErrDuplicateIP
      else checkPoolIPs ds rest (newIPs ++ [ip])
    end
  end.

(** [sort.Strings]: insertion into a list in increasing order. *)
Fixpoint insertString (x : string) (l : list string) : list string :=
  match l with
  | [] => [x]
  | y :: rest => if String.leb x y then x :: l else y :: insertString x rest
  end.

Definition sortStrings (l : list string) : list string :=
  foldr insertString [] l.

(** The loop of [AddExternalIPs] over the sorted addresses: the pool with
    the new addresses, or the error of the first address that is refused.
    [n] counts the identifiers drawn from [uuids]. *)
Fixpoint extendPoolIPs (ds : Datastore) (uuids : nat → string) (n : nat)
    (lastIP : string) (IPs : list string) (p : Pool.t) : error + Pool.t :=
  match IPs with
  | [] => inr p
  | newIP :: rest =>
    if decide (lastIP = newIP) then inl ErrDuplicateIP
    else
      match ParseIP newIP with
      | None => inl ErrInvalidIP
      | Some ip =>
        if isDuplicateIP ds ip then inl ErrDuplicateIP
        else
          extendPoolIPs ds uuids (S n) newIP rest
            {| Pool.ID := Pool.ID p; Pool.Name := Pool.Name p;
               Pool.Free := int (Pool.Free p + 1);
               Pool.TotalIPs := int (Pool.TotalIPs p + 1);
               Pool.Subnets := Pool.Subnets p;
               Pool.IPs := Pool.IPs p ++
                 [{| ExternalIP.ID := uuids n; ExternalIP.Address := IP_String ip |}] |}
      end
  end.

(** The inner loop of [MapExternalIP] over the addresses of a subnet:
    [Some (Some ip)] for the first address that is not mapped, [Some None]
    when the loop leaves the subnet, [None] when it does not end. *)
Fixpoint scanSubnet (fuel : nat) (mapped : gmap string MappedIP.t) (ipNet : IPNet)
    (ip : N) : option (option N) :=
  match fuel with
  | O => None
  | S fuel' =>
    if Contains ipNet ip then
      match mapped !! IP_String ip with
      | None => Some (Some ip)
      | Some _ => scanSubnet fuel' mapped ipNet (incrementIP ip)
      end
    else Some None
  end.

Inductive search_result : Type :=
| Found (address : string)
| NotFound
| BadCIDR (cidr : string)
| Endless.

(** The loop over [pool.Subnets] in [MapExternalIP]. *)
Fixpoint searchSubnets (mapped : gmap string MappedIP.t) (subs : list ExternalSubnet.t)
    : search_result :=
  match subs with
  | [] => NotFound
  | sub :: rest =>
    match ParseCIDR (ExternalSubnet.CIDR sub) with
    | None => BadCIDR (ExternalSubnet.CIDR sub)
    | Some (_, ipNet) =>
      match scanSubnet (S (N.to_nat (2 ^ (32 - Ones ipNet)))) mapped ipNet
              (incrementIP (IP ipNet)) with
      | None => Endless
      | Some (Some ip) => Found (IP_String ip)
      | Some None => searchSubnets mapped rest
      end
    end
  end.

(** The loop over [pool.IPs] in [MapExternalIP]. *)
Fixpoint searchIPs (mapped : gmap string MappedIP.t) (IPs : list ExternalIP.t)
    : search_result :=
  match IPs with
  | [] => NotFound
  | ip :: rest =>
    match mapped !! ExternalIP.Address ip with
    | None => Found (ExternalIP.Address ip)
    | Some _ => searchIPs mapped rest
    end
  end.

(** ** Usage accounting *)

(** Five minutes, [tenantUsagePeriodMinutes], in nanoseconds. *)
Definition tenantUsagePeriod : Z := (5 * 60 * 10 ^ 9)%Z.

(** [time.Since(t)] when the clock reads [now]: the difference, kept within
    the range of a [Duration]. *)
Definition Since (now t : Z) : Z :=
  Z.max (- 2 ^ 63) (Z.min (2 ^ 63 - 1) (now - t)).

(** [d.Minutes() < tenantUsagePeriodMinutes].  [Minutes] is the whole
    minutes of [d] plus the rest divided by a minute, as a float; the sum is
    below five exactly when [d] is below five minutes. *)
Definition underPeriod (d : Z) : bool := (d <? tenantUsagePeriod)%Z.

Definition updateTenantUsageNeeded (delta : CiaoUsage.t) : bool :=
  negb ((CiaoUsage.VCPU delta =? 0)%Z && (CiaoUsage.Memory delta =? 0)%Z &&
        (CiaoUsage.Disk delta =? 0)%Z).

(** [updateTenantUsage].  [sinceNow] is the reading of the clock in
    [time.Since] and [now] the later reading of [time.Now]. *)
Definition updateTenantUsage (sinceNow now : Z) (delta : CiaoUsage.t)
    (tenantID : string) (ds : Datastore) : Datastore :=
  if negb (updateTenantUsageNeeded delta) then ds
  else
    let usage := default [] (tenantUsage ds !! tenantID) in
    let lastUsage :=
      default {| CiaoUsage.VCPU := 0; CiaoUsage.Memory := 0; CiaoUsage.Disk := 0;
                 CiaoUsage.Timestamp := 0 |} (last usage) in
    let createNewUsage :=
      match last usage with
      | Some l => negb (underPeriod (Since sinceNow (CiaoUsage.Timestamp l)))
      | None => true
      end in
    let newUsage (ts : Z) :=
      {| CiaoUsage.VCPU := int (CiaoUsage.VCPU lastUsage + CiaoUsage.VCPU delta);
         CiaoUsage.Memory := int (CiaoUsage.Memory lastUsage + CiaoUsage.Memory delta);
         CiaoUsage.Disk := int (CiaoUsage.Disk lastUsage + CiaoUsage.Disk delta);
         CiaoUsage.Timestamp := ts |} in
    if createNewUsage then
      set_tenantUsage (<[tenantID := usage ++ [newUsage now]]>) ds
    else
      set_tenantUsage
        (<[tenantID := <[(List.length usage - 1)%nat := newUsage (CiaoUsage.Timestamp lastUsage)]> usage]>)
        ds.

Section Facade.

Context (db : persistentStore).

(** [ds.getTenant]: the cache first, then the persistent store. *)
Definition getTenant (id : string) : M (option tenant.t * option error) :=
  do ds <- get;
  match tenants ds !! id with
  | Some t => ret (Some t, None)
  | None =>
    ret (fst (db_getTenant db id),
         Wrap (snd (db_getTenant db id)) "error getting tenant from database")
  end.

Definition GetTenant (id : string) : M (option tenant.t * option error) :=
  do r <- getTenant id;
  match r with
  | (Some t, None) => ret (Some t, None)
  | (_, err) => ret (None, err)
  end.

(** The loop of [activateSubnets]. *)
Fixpoint waitForActive (tenantID : string) (mgr : CNCIManager.t) (ones : N)
    (IPs : list N) : M (option error) :=
  match IPs with
  | [] => ret None
  | ip :: rest =>
    let ipnet := {| IP := MaskIP ip (CIDRMask ones); Ones := ones |} in
    tell (WaitedForActive tenantID (IPNet_String ipnet));;
    match CNCIManager.WaitForActive mgr (IPNet_String ipnet) with
    | Some err => ret (Some err)
    | None => waitForActive tenantID mgr ones rest
    end
  end.

Definition activateSubnets (tenantID : string) (IPs : list N) : M (option error) :=
  do ds <- get;
  match tenants ds !! tenantID with
  | None => panic
  | Some tn =>
    match tenant.CNCIctrl tn with
    | None => ret None
    | Some mgr => waitForActive tenantID mgr (Z.to_N (tenant.SubnetBits tn)) IPs
    end
  end.

(** [AllocateTenantIPPool].  The result is the pair of the returned slice
    ([None] for nil) and the returned error.  The marks of the scan are in
    the tenant's map when the bulk claim is issued.

    The deferred function runs after the operands of the [return] statement
    have been evaluated: the results of the function are not named, so what
    it assigns to the local [retval] is no part of what is returned. *)
Definition AllocateTenantIPPool
    (rangeOrder : network_t → list (N * gmap N bool))
    (tenantID : string) (num : Z) : M (option (list N) * option error) :=
  do r <- GetTenant tenantID;
  match r with
  | (_, Some err) => ret (None, Some err)
  | (None, None) => panic
  | (Some tn, None) =>
    let bits := tenant.SubnetBits tn in
    if ((bits <? 0) || (32 <? bits))%Z then ret (None, Some (ErrParse "172.16.0.0/"))
    else
      do ds <- get;
      match tenants ds !! tenantID with
      | None => panic
      | Some t =>
        match scanNetwork rangeOrder bits num (tenant.network t) with
        | None => panic
        | Some (OutOfAddrs st) =>
          modify (set_network tenantID (cleanTenantIPs (net st) (tenantAddrs st)));;
          ret (None, Some (ErrNew "out of addrs"))
        | Some (Claim st) =>
          modify (set_network tenantID (net st));;
          do err <- persist db (claimTenantIPs tenantID (tenantAddrs st));
          match err with
          | Some e =>
            modify (set_network tenantID (cleanTenantIPs (net st) (tenantAddrs st)));;
            ret (None, Some e)
          | None =>
            let retval : option error := None in
            let results := (Some (addrs st), retval) in
            do retval <- activateSubnets tenantID (addrs st);
            ret results
          end
        end
      end
  end.


(** *** Workloads *)

(** [append(l[:i], l[i+1:]...)] at the first [i] with [l[i] == id]. *)
Fixpoint removeFirst (id : string) (l : list string) : list string :=
  match l with
  | [] => []
  | x :: rest => if decide (x = id) then rest else x :: removeFirst id rest
  end.

(** The loop over [ds.instances] in [DeleteWorkload]: is there an instance
    of this workload? *)
Definition workloadInUse (ds : Datastore) (workloadID : string) : bool :=
  existsb (λ kv, bool_decide (Instance_.WorkloadID (snd kv) = workloadID))
    (map_to_list (instances ds)).

Definition DeleteWorkload (workloadID : string) : M (option error) :=
  do ds <- get;
  if workloadInUse ds workloadID then ret (Some ErrWorkloadInUse)
  else
    match workloads ds !! workloadID with
    | None => ret (Some ErrWorkloadNotFound)
    | Some wl =>
      do err <- persist db (deleteWorkload workloadID);
      match err with
      | Some e => ret (Some (Wrapped "error deleting workload from database" e))
      | None =>
        if decide (Workload.visibility wl = Public) then
          modify (set_publicWorkloads (removeFirst workloadID));;
          modify (set_workloads (delete workloadID));;
          ret None
        else
          match tenants ds !! Workload.TenantID wl with
          | None => ret (Some ErrTenantNotFound)
          | Some _ =>
            modify (set_tenants
                      (alter (tenant.with_workloads (removeFirst workloadID))
                             (Workload.TenantID wl)));;
            modify (set_workloads (delete workloadID));;
            ret None
          end
      end
    end.

(** *** Volumes and attachments *)

Definition GetBlockDevice (ID : string) : M (option Volume.t * option error) :=
  do ds <- get;
  match blockDevices ds !! ID with
  | Some data => ret (Some data, None)
  | None => ret (None, Some ErrNoBlockData)
  end.

(** [AddBlockDevice]: the tenant of the device has to be in the cache, the
    source dereferences [ds.tenants[device.TenantID]]. *)
Definition AddBlockDevice (device : Volume.t) : M (option error) :=
  do ds <- get;
  do err <- match blockDevices ds !! Volume.ID device with
            | Some _ =>
              do e <- persist db (updateBlockData device);
              ret (Wrap e "Error updating block data in database")
            | None =>
              do e <- persist db (addBlockData device);
              ret (Wrap e "Error adding block data to database")
            end;
  match err with
  | Some e => ret (Some e)
  | None =>
    modify (set_blockDevices (<[Volume.ID device := device]>));;
    do ds' <- get;
    match tenants ds' !! Volume.TenantID device with
    | None => panic
    | Some _ =>
      modify (set_tenants
                (alter (tenant.with_devices (<[Volume.ID device := device]>))
                       (Volume.TenantID device)));;
      ret None
    end
  end.

Definition UpdateBlockDevice (data : Volume.t) : M (option error) :=
  do ds <- get;
  match blockDevices ds !! Volume.ID data with
  | None => ret (Some ErrNoBlockData)
  | Some _ =>
    do err <- AddBlockDevice data;
    ret (Wrap err "error updating block device")
  end.

(** [CreateStorageAttachment]; [uuid] is what [uuid.Generate] returns. *)
Definition CreateStorageAttachment (uuid : string) (instanceID : string)
    (volume : StorageResource.t) : M (option StorageAttachment.t * option error) :=
  let a := {| StorageAttachment.ID := uuid;
              StorageAttachment.InstanceID := instanceID;
              StorageAttachment.BlockID := StorageResource.ID volume;
              StorageAttachment.Ephemeral := StorageResource.Ephemeral volume;
              StorageAttachment.Boot := StorageResource.Bootable volume |} in
  do err <- persist db (addStorageAttachment a);
  match err with
  | Some e => ret (None, Some (Wrapped "error adding storage attachment to database" e))
  | None =>
    do r <- GetBlockDevice (StorageResource.ID volume);
    match r with
    | (Some bd, None) =>
      do err <- UpdateBlockDevice (Volume.with_State InUse bd);
      match err with
      | Some e =>
        persist db (deleteStorageAttachment uuid);;
        ret (None, Some (Wrapped "error updating block device" e))
      | None =>
        modify (set_attachments (<[uuid := a]>));;
        modify (set_instanceVolumes
                  (<[(instanceID, StorageResource.ID volume) := uuid]>));;
        ret (Some a, None)
      end
    | (_, err) =>
      persist db (deleteStorageAttachment uuid);;
      ret (None, Wrap err "error fetching block device")
    end
  end.

Definition DeleteStorageAttachment (ID : string) : M (option error) :=
  do err <- persist db (deleteStorageAttachment ID);
  match Wrap err "error deleting storage attachment from database" with
  | Some e => ret (Some e)
  | None =>
    do ds <- get;
    match attachments ds !! ID with
    | Some a =>
      modify (set_attachments (delete ID));;
      modify (set_instanceVolumes
                (delete (StorageAttachment.InstanceID a, StorageAttachment.BlockID a)));;
      ret None
    | None => ret (Some ErrNoStorageAttachment)
    end
  end.

(** *** Tenants and images *)

Definition DeleteTenant (ID : string) : M (option error) :=
  do ds <- get;
  match tenants ds !! ID with
  | None => ret (Some ErrNoTenant)
  | Some _ =>
    modify (set_tenants (delete ID));;
    persist db (deleteTenant ID)
  end.

(** [DeleteImage]: the source has no call of the persistent store. *)
Definition DeleteImage (ID : string) : M (option error) :=
  do ds <- get;
  match images ds !! ID with
  | None => ret (Some ErrNoImage)
  | Some image =>
    do r <- (if decide (Image.TenantID image = "") then ret None
             else match tenants ds !! Image.TenantID image with
                  | None => ret (Some ErrTenantNotFound)
                  | Some _ =>
                    modify (set_tenants
                              (alter (tenant.with_images (removeFirst ID))
                                     (Image.TenantID image)));;
                    ret None
                  end);
    match r with
    | Some e => ret (Some e)
    | None =>
      (if decide (Image.visibility image = Internal)
       then modify (set_internalImages (removeFirst ID)) else ret tt);;
      (if decide (Image.visibility image = Public)
       then modify (set_publicImages (removeFirst ID)) else ret tt);;
      modify (set_images (delete ID));;
      ret None
    end
  end.

(** *** External IP pools *)

Definition DeletePool (ID : string) : M (option error) :=
  do ds <- get;
  match pools ds !! ID with
  | None => ret (Some ErrPoolNotFound)
  | Some p =>
    if decide (Pool.Free p ≠ Pool.TotalIPs p) then ret (Some ErrPoolNotEmpty)
    else
      do err <- persist db (deletePool ID);
      modify (set_externalSubnets
                (λ m, foldl (λ m sub, delete (ExternalSubnet.CIDR sub) m) m (Pool.Subnets p)));;
      modify (set_externalIPs
                (λ m, foldl (λ m ip, delete (ExternalIP.Address ip) m) m (Pool.IPs p)));;
      modify (set_pools (delete ID));;
      ret (Wrap err "error deleting pool from database")
  end.

(** The loop over [pool.Subnets] in [AddPool]; a subnet that passes is
    entered in [externalSubnets] before the next one is looked at. *)
Fixpoint addPoolSubnets (subs : list ExternalSubnet.t) : M (option error) :=
  match subs with
  | [] => ret None
  | sub :: rest =>
    match ParseCIDR (ExternalSubnet.CIDR sub) with
    | None => ret (Some (Wrapped "unable to parse subnet CIDR"
                           (ErrParse (ExternalSubnet.CIDR sub))))
    | Some (_, newSubnet) =>
      do ds <- get;
      if isDuplicateSubnet ds newSubnet then ret (Some ErrDuplicateSubnet)
      else
        modify (set_externalSubnets (<[ExternalSubnet.CIDR sub := true]>));;
        addPoolSubnets rest
    end
  end.

(** The first part of [AddPool]: the subnets of the pool if it has any,
    else its addresses, are checked and entered in the tables of subnets and
    addresses in use. *)
Definition checkPool (pool : Pool.t) : M (option error) :=
  match Pool.Subnets pool, Pool.IPs pool with
  | _ :: _, _ => addPoolSubnets (Pool.Subnets pool)
  | [], _ :: _ =>
    do ds <- get;
    match checkPoolIPs ds (Pool.IPs pool) [] with
    | inl e => ret (Some e)
    | inr newIPs =>
      modify (set_externalIPs
                (λ m, foldl (λ m ip, <[IP_String ip := true]> m) m newIPs));;
      ret None
    end
  | [], [] => ret None
  end.

Definition AddPool (pool : Pool.t) : M (option error) :=
  do refused <- checkPool pool;
  match refused with
  | Some e => ret (Some e)
  | None =>
    modify (set_pools (<[Pool.ID pool := pool]>));;
    do err <- persist db (addPool pool);
    match err with
    | Some _ => DeletePool (Pool.ID pool);; ret (Wrap err "error adding pool to database")
    | None => ret None
    end
  end.

(** [AddExternalSubnet]; [uuid] is what [uuid.Generate] returns. *)
Definition AddExternalSubnet (uuid : string) (poolID : string) (subnet : string)
    : M (option error) :=
  let sub := {| ExternalSubnet.ID := uuid; ExternalSubnet.CIDR := subnet |} in
  match ParseCIDR subnet with
  | None => ret (Some (Wrapped "unable to parse subnet CIDR" (ErrParse subnet)))
  | Some (_, ipNet) =>
    do ds <- get;
    match pools ds !! poolID with
    | None => ret (Some ErrPoolNotFound)
    | Some p =>
      if isDuplicateSubnet ds ipNet then ret (Some ErrDuplicateSubnet)
      else
        let newIPs := (2 ^ (32 - Z.of_N (Ones ipNet)) - 2)%Z in
        if (newIPs <=? 0)%Z then ret (Some ErrSubnetTooSmall)
        else
          let p' := {| Pool.ID := Pool.ID p; Pool.Name := Pool.Name p;
                       Pool.Free := int (Pool.Free p + newIPs);
                       Pool.TotalIPs := int (Pool.TotalIPs p + newIPs);
                       Pool.Subnets := Pool.Subnets p ++ [sub];
                       Pool.IPs := Pool.IPs p |} in
          do err <- persist db (updatePool p');
          match err with
          | Some e => ret (Some (Wrapped "error updating pool in database" e))
          | None =>
            modify (set_pools (<[poolID := p']>));;
            modify (set_externalSubnets (<[subnet := true]>));;
            ret None
          end
    end
  end.

(** [AddExternalIPs]; [uuids] are the identifiers that [uuid.Generate]
    returns, in the order of the calls. *)
Definition AddExternalIPs (uuids : nat → string) (poolID : string) (IPs : list string)
    : M (option error) :=
  do ds <- get;
  match pools ds !! poolID with
  | None => ret (Some ErrPoolNotFound)
  | Some p =>
    match extendPoolIPs ds uuids 0 "" (sortStrings IPs) p with
    | inl e => ret (Some e)
    | inr p' =>
      do err <- persist db (updatePool p');
      match err with
      | Some e => ret (Some (Wrapped "error updating pool in database" e))
      | None =>
        modify (set_externalIPs
                  (λ m, foldl (λ m ip, <[ExternalIP.Address ip := true]> m) m (Pool.IPs p')));;
        modify (set_pools (<[poolID := p']>));;
        ret None
      end
    end
  end.

Definition GetInstance (id : string) : M (option Instance_.t * option error) :=
  do ds <- get;
  match instances ds !! id with
  | Some value => ret (Some value, None)
  | None => ret (None, Some ErrInstanceNotFound)
  end.

(** The two places of [MapExternalIP] that take a free address: the
    mapping is written to the store and then to [mappedIPs], the pool is
    written to the store and then to [pools]. *)
Definition mapAddress (uuid poolID instanceID : string) (instance : Instance_.t)
    (pool : Pool.t) (address : string) : M (MappedIP.t * option error) :=
  let m := {| MappedIP.ID := uuid;
              MappedIP.ExternalIP := address;
              MappedIP.InternalIP := Instance_.IPAddress instance;
              MappedIP.InstanceID := instanceID;
              MappedIP.TenantID := Instance_.TenantID instance;
              MappedIP.PoolID := Pool.ID pool;
              MappedIP.PoolName := Pool.Name pool |} in
  let pool' := {| Pool.ID := Pool.ID pool; Pool.Name := Pool.Name pool;
                  Pool.Free := int (Pool.Free pool - 1);
                  Pool.TotalIPs := Pool.TotalIPs pool;
                  Pool.Subnets := Pool.Subnets pool; Pool.IPs := Pool.IPs pool |} in
  do err <- persist db (addMappedIP m);
  match err with
  | Some e => ret (MappedIP.zero, Some (Wrapped "error adding IP mapping to database" e))
  | None =>
    modify (set_mappedIPs (<[address := m]>));;
    do err <- persist db (updatePool pool');
    match err with
    | Some e => ret (MappedIP.zero, Some (Wrapped "error updating pool in database" e))
    | None =>
      modify (set_pools (<[poolID := pool']>));;
      ret (m, None)
    end
  end.

(** [MapExternalIP]; [uuid] is what [uuid.Generate] returns. *)
Definition MapExternalIP (uuid : string) (poolID instanceID : string)
    : M (MappedIP.t * option error) :=
  do r <- GetInstance instanceID;
  match r with
  | (Some instance, None) =>
    do ds <- get;
    match pools ds !! poolID with
    | None => ret (MappedIP.zero, Some ErrPoolNotFound)
    | Some pool =>
      if (Pool.Free pool =? 0)%Z then ret (MappedIP.zero, Some ErrPoolEmpty)
      else
        match searchSubnets (mappedIPs ds) (Pool.Subnets pool) with
        | Found address => mapAddress uuid poolID instanceID instance pool address
        | BadCIDR cidr =>
          ret (MappedIP.zero, Some (Wrapped "error parsing subnet CIDR" (ErrParse cidr)))
        | Endless => panic
        | NotFound =>
          match searchIPs (mappedIPs ds) (Pool.IPs pool) with
          | Found address => mapAddress uuid poolID instanceID instance pool address
          | _ => ret (MappedIP.zero, Some ErrPoolEmpty)
          end
        end
    end
  | (_, err) => ret (MappedIP.zero, Wrap err "error getting instance")
  end.

End Facade.

(** * More of the facade *)

Section FacadeMore.

Context (db : persistentStore).

(** [AllocateTenantIP]: [ips[0]] of an empty slice is a run that does not
    return. *)
Definition AllocateTenantIP (rangeOrder : network_t → list (N * gmap N bool))
    (tenantID : string) : M (option N * option error) :=
  do r <- AllocateTenantIPPool db rangeOrder tenantID 1;
  match r with
  | (_, Some err) => ret (None, Some err)
  | (Some (ip :: _), None) => ret (Some ip, None)
  | (_, None) => panic
  end.

(** [ReleaseTenantIP] for an address in dotted decimal.  [released] is the
    answer of [ds.db.releaseTenantIP], the last statement of the function.
    With subnet bits outside 0..32 [net.CIDRMask] returns nil and reading
    the mask as a [uint32] does not return.  The call of
    [ScheduleRemoveSubnet] changes nothing in the datastore and its error is
    logged only. *)
Definition ReleaseTenantIP (released : string → N → N → option error)
    (tenantID ip : string) : M (option error) :=
  match ParseIP ip with
  | None => ret (Some (ErrNew "Invalid IPv4 Address"))
  | Some hostInt =>
    do r <- GetTenant db tenantID;
    match r with
    | (_, Some err) => ret (Some err)
    | (None, None) => panic
    | (Some tn, None) =>
      let bits := tenant.SubnetBits tn in
      if ((bits <? 0) || (32 <? bits))%Z then panic
      else
        let subnetInt := N.land hostInt (alloc_mask bits) in
        do ds <- get;
        match tenants ds !! tenantID with
        | Some t =>
          modify (set_network tenantID
                    (cleanTenantIP (tenant.network t)
                       {| subnet := subnetInt; host := hostInt |}))
        | None => ret tt
        end;;
        ret (released tenantID subnetInt hostInt)
    end
  end.

(** *** External IP pools: lookups, unmapping, removal of subnets and
    addresses *)

Definition GetPool (ID : string) : M (option Pool.t * option error) :=
  do ds <- get;
  match pools ds !! ID with
  | Some p => ret (Some p, None)
  | None => ret (None, Some ErrPoolNotFound)
  end.

Definition GetMappedIP (address : string) : M (MappedIP.t * option error) :=
  do ds <- get;
  match mappedIPs ds !! address with
  | Some m => ret (m, None)
  | None => ret (MappedIP.zero, Some ErrAddressNotFound)
  end.

Definition UnMapExternalIP (address : string) : M (option error) :=
  do ds <- get;
  match mappedIPs ds !! address with
  | None => ret (Some ErrAddressNotFound)
  | Some m =>
    match pools ds !! MappedIP.PoolID m with
    | None => ret (Some ErrPoolNotFound)
    | Some pool =>
      let pool' := {| Pool.ID := Pool.ID pool; Pool.Name := Pool.Name pool;
                      Pool.Free := int (Pool.Free pool + 1);
                      Pool.TotalIPs := Pool.TotalIPs pool;
                      Pool.Subnets := Pool.Subnets pool; Pool.IPs := Pool.IPs pool |} in
      do err <- persist db (deleteMappedIP (MappedIP.ID m));
      match err with
      | Some e => ret (Some (Wrapped "error deleting IP mapping from database" e))
      | None =>
        modify (set_mappedIPs (delete address));;
        do err <- persist db (updatePool pool');
        match err with
        | Some e => ret (Some (Wrapped "error updating pool in database" e))
        | None =>
          modify (set_pools (<[Pool.ID pool := pool']>));;
          ret None
        end
      end
    end
  end.

(** The loop of [DeleteSubnet] over the addresses of a subnet: [Some true]
    when one of them is mapped, [Some false] when the loop leaves the subnet,
    [None] when it does not end. *)
Fixpoint subnetMapped (fuel : nat) (mapped : gmap string MappedIP.t) (ipNet : IPNet)
    (ip : N) : option bool :=
  match fuel with
  | O => None
  | S fuel' =>
    if Contains ipNet ip then
      match mapped !! IP_String ip with
      | Some _ => Some true
      | None => subnetMapped fuel' mapped ipNet (incrementIP ip)
      end
    else Some false
  end.

(** [append(l[:i], l[i+1:]...)]: the slice that the call returns. *)
Definition removeAt {A} (i : nat) (l : list A) : list A :=
  take i l ++ drop (S i) l.

(** [append(l[:i], l[i+1:]...)] writes into the array of [l]: the elements
    after [i] move down by one place and the last place keeps its element.
    This is [l] afterwards, for whoever holds the slice with its old
    length. *)
Definition shiftedAt {A} (i : nat) (l : list A) : list A :=
  take i l ++ drop (S i) l ++ drop (List.length l - 1) l.

(** [DeleteSubnet].  The local [p] is a copy of the pool in the cache and
    its slice of subnets shares the array of the cached one, so the [append]
    that takes the subnet out is seen by the cache before the store is
    asked. *)
Definition DeleteSubnet (poolID subnetID : string) : M (option error) :=
  do ds <- get;
  match pools ds !! poolID with
  | None => ret (Some ErrPoolNotFound)
  | Some p =>
    match list_find (λ sub, ExternalSubnet.ID sub = subnetID) (Pool.Subnets p) with
    | None => ret (Some ErrInvalidPoolAddress)
    | Some (i, sub) =>
      match ParseCIDR (ExternalSubnet.CIDR sub) with
      | None => ret (Some (Wrapped "unable to parse subnet CIDR"
                             (ErrParse (ExternalSubnet.CIDR sub))))
      | Some (IP, ipNet) =>
        match subnetMapped (S (N.to_nat (2 ^ (32 - Ones ipNet)))) (mappedIPs ds) ipNet
                (MaskIP IP (Mask ipNet)) with
        | None => panic
        | Some true => ret (Some ErrPoolNotEmpty)
        | Some false =>
          let numIPs := (2 ^ (32 - Z.of_N (Ones ipNet)) - 2)%Z in
          let p' := {| Pool.ID := Pool.ID p; Pool.Name := Pool.Name p;
                       Pool.Free := int (Pool.Free p - numIPs);
                       Pool.TotalIPs := int (Pool.TotalIPs p - numIPs);
                       Pool.Subnets := removeAt i (Pool.Subnets p);
                       Pool.IPs := Pool.IPs p |} in
          modify (set_pools
                    (<[poolID := {| Pool.ID := Pool.ID p; Pool.Name := Pool.Name p;
                                    Pool.Free := Pool.Free p;
                                    Pool.TotalIPs := Pool.TotalIPs p;
                                    Pool.Subnets := shiftedAt i (Pool.Subnets p);
                                    Pool.IPs := Pool.IPs p |}]>));;
          do err <- persist db (updatePool p');
          match err with
          | Some e => ret (Some (Wrapped "error updating pool in database" e))
          | None =>
            modify (set_externalSubnets (delete (ExternalSubnet.CIDR sub)));;
            modify (set_pools (<[poolID := p']>));;
            ret None
          end
        end
      end
    end
  end.

(** [DeleteExternalIP]; the slice of addresses is shared as the slice of
    subnets is in [DeleteSubnet]. *)
Definition DeleteExternalIP (poolID addrID : string) : M (option error) :=
  do ds <- get;
  match pools ds !! poolID with
  | None => ret (Some ErrPoolNotFound)
  | Some p =>
    match list_find (λ extIP, ExternalIP.ID extIP = addrID) (Pool.IPs p) with
    | None => ret (Some ErrInvalidPoolAddress)
    | Some (i, extIP) =>
      match mappedIPs ds !! ExternalIP.Address extIP with
      | Some _ => ret (Some ErrPoolNotEmpty)
      | None =>
        let p' := {| Pool.ID := Pool.ID p; Pool.Name := Pool.Name p;
                     Pool.Free := int (Pool.Free p - 1);
                     Pool.TotalIPs := int (Pool.TotalIPs p - 1);
                     Pool.Subnets := Pool.Subnets p;
                     Pool.IPs := removeAt i (Pool.IPs p) |} in
        modify (set_pools
                  (<[poolID := {| Pool.ID := Pool.ID p; Pool.Name := Pool.Name p;
                                  Pool.Free := Pool.Free p;
                                  Pool.TotalIPs := Pool.TotalIPs p;
                                  Pool.Subnets := Pool.Subnets p;
                                  Pool.IPs := shiftedAt i (Pool.IPs p) |}]>));;
        do err <- persist db (updatePool p');
        match err with
        | Some e => ret (Some (Wrapped "error updating pool in database" e))
        | None =>
          modify (set_externalIPs (delete (ExternalIP.Address extIP)));;
          modify (set_pools (<[poolID := p']>));;
          ret None
        end
      end
    end
  end.

(** *** Usage history *)

(** [GetTenantUsage]: times are in nanoseconds, [t.After(u)] is [u < t].
    The two counters of the loop are the numbers of entries stamped before
    [start] and before [end]; the slice expression [tenantUsage[first:last]]
    does not return when [first] is above [last].  A nil slice and an empty
    one are both the empty list. *)
Definition GetTenantUsage (tenantID : string) (start end_ : Z)
    : M (list CiaoUsage.t * option error) :=
  do ds <- get;
  let tenantUsage := default [] (tenantUsage ds !! tenantID) in
  match tenantUsage, last tenantUsage with
  | u0 :: _, Some ul =>
    if bool_decide (end_ < CiaoUsage.Timestamp u0)%Z ||
       bool_decide (CiaoUsage.Timestamp ul < start)%Z
    then ret ([], None)
    else
      let first := List.length (filter (λ u, (CiaoUsage.Timestamp u < start)%Z) tenantUsage) in
      let last := List.length (filter (λ u, (CiaoUsage.Timestamp u < end_)%Z) tenantUsage) in
      if decide (first ≤ last)%nat
      then ret (take (last - first) (drop first tenantUsage), None)
      else panic
  | _, _ => ret ([], None)
  end.

(** *** Volumes and attachments: deletion and lookup *)

(** [DeleteBlockDevice]: the tenant of the device has to be in the cache,
    the source dereferences [ds.tenants[dev.TenantID]]. *)
Definition DeleteBlockDevice (ID : string) : M (option error) :=
  do ds <- get;
  match blockDevices ds !! ID with
  | None => ret (Some ErrNoBlockData)
  | Some dev =>
    do err <- persist db (deleteBlockData ID);
    match Wrap err "Error deleting block data from database" with
    | Some e => ret (Some e)
    | None =>
      modify (set_blockDevices (delete ID));;
      do ds' <- get;
      match tenants ds' !! Volume.TenantID dev with
      | None => panic
      | Some _ =>
        modify (set_tenants
                  (alter (tenant.with_devices (delete ID)) (Volume.TenantID dev)));;
        ret None
      end
    end
  end.

(** [types.StorageAttachment{}] *)
Definition zeroAttachment : StorageAttachment.t :=
  {| StorageAttachment.ID := ""; StorageAttachment.InstanceID := "";
     StorageAttachment.BlockID := ""; StorageAttachment.Ephemeral := false;
     StorageAttachment.Boot := false |}.

(** [getStorageAttachment]: the attachment of a volume to an instance; an
    id of [instanceVolumes] that [attachments] does not hold reads as the
    zero attachment. *)
Definition getStorageAttachment (instanceID volumeID : string)
    : M (StorageAttachment.t * option error) :=
  do ds <- get;
  match instanceVolumes ds !! (instanceID, volumeID) with
  | Some id => ret (default zeroAttachment (attachments ds !! id), None)
  | None => ret (zeroAttachment, Some ErrNoStorageAttachment)
  end.

(** *** Images *)

(** The name and the id of [ds.images[id]]; an id that [images] does not
    hold reads as the zero image. *)
Definition imageNameID (imgs : gmap string Image.t) (id : string) : string * string :=
  match imgs !! id with
  | Some i => (Image.Name i, Image.ID i)
  | None => ("", "")
  end.

(** One of the three loops of [ResolveImage]: the id of the first image of
    the list whose name or id is [name]. *)
Fixpoint findImage (imgs : gmap string Image.t) (name : string) (ids : list string)
    : option string :=
  match ids with
  | [] => None
  | id :: rest =>
    if decide ((imageNameID imgs id).1 = name ∨ (imageNameID imgs id).2 = name)
    then Some (imageNameID imgs id).2
    else findImage imgs name rest
  end.

(** What [ResolveImage] returns on a cache: the lists are searched in the
    order tenant, public, internal, and the tenant's list only for a tenant
    other than "admin". *)
Definition resolveImage (ds : Datastore) (tenantID name : string) : string * option error :=
  let shared :=
    match findImage (images ds) name (publicImages ds) with
    | Some id => (id, None)
    | None =>
      match findImage (images ds) name (internalImages ds) with
      | Some id => (id, None)
      | None => ("", Some ErrNoImage)
      end
    end in
  if decide (tenantID ≠ "" ∧ tenantID ≠ "admin") then
    match tenants ds !! tenantID with
    | None => ("", Some (ErrNew ("Tenant not found: " +:+ tenantID)))
    | Some t =>
      match findImage (images ds) name (tenant.images t) with
      | Some id => (id, None)
      | None => shared
      end
    end
  else shared.

Definition ResolveImage (tenantID name : string) : M (string * option error) :=
  do ds <- get;
  ret (resolveImage ds tenantID name).

Definition GetImage (ID : string) : M (option Image.t * option error) :=
  do ds <- get;
  match images ds !! ID with
  | Some image => ret (Some image, None)
  | None => ret (None, Some ErrNoImage)
  end.

(** The check of [AddImage] and [UpdateImage] that a name is free: [None]
    when [ResolveImage] answers [ErrNoImage], else the error to return. *)
Definition nameTaken (tenantID name : string) : M (option error) :=
  do r <- ResolveImage tenantID name;
  match snd r with
  | None => ret (Some ErrAlreadyExists)
  | Some ErrNoImage => ret None
  | Some e => ret (Some e)
  end.

Definition AddImage (i : Image.t) : M (option error) :=
  do ds <- get;
  match images ds !! Image.ID i with
  | Some _ => ret (Some ErrAlreadyExists)
  | None =>
    do taken <- nameTaken (Image.TenantID i) (Image.Name i);
    match taken with
    | Some e => ret (Some e)
    | None =>
      do taken <- nameTaken (Image.TenantID i) (Image.ID i);
      match taken with
      | Some e => ret (Some e)
      | None =>
        do err <- persist db (updateImage i);
        match err with
        | Some e => ret (Some (Wrapped "Unable to add image to database" e))
        | None =>
          do r <- (if decide (Image.TenantID i = "") then ret None
                   else
                     match tenants ds !! Image.TenantID i with
                     | None =>
                       persist db (deleteImage (Image.ID i));;
                       ret (Some ErrTenantNotFound)
                     | Some _ =>
                       modify (set_tenants
                                 (alter (tenant.with_images (λ l, l ++ [Image.ID i]))
                                        (Image.TenantID i)));;
                       ret None
                     end);
          match r with
          | Some e => ret (Some e)
          | None =>
            modify (set_images (<[Image.ID i := i]>));;
            (if decide (Image.visibility i = Public)
             then modify (set_publicImages (λ l, l ++ [Image.ID i])) else ret tt);;
            (if decide (Image.visibility i = Internal)
             then modify (set_internalImages (λ l, l ++ [Image.ID i])) else ret tt);;
            ret None
          end
        end
      end
    end
  end.

Definition UpdateImage (i : Image.t) : M (option error) :=
  do ds <- get;
  match images ds !! Image.ID i with
  | None => ret (Some ErrNoImage)
  | Some oldImage =>
    if decide (Image.TenantID oldImage ≠ Image.TenantID i ∨
               Image.visibility oldImage ≠ Image.visibility i)
    then ret (Some (ErrNew "Changing visibility or tenant for image not permitted"))
    else
      do taken <- (if decide (Image.Name oldImage ≠ Image.Name i)
                   then nameTaken (Image.TenantID i) (Image.Name i) else ret None);
      match taken with
      | Some e => ret (Some e)
      | None =>
        do err <- persist db (updateImage i);
        match err with
        | Some e => ret (Some (Wrapped "Error updating image in database" e))
        | None => modify (set_images (<[Image.ID i := i]>));; ret None
        end
      end
  end.

(** *** Tenants *)

(** [AddTenant]: the tenant that is cached is the one that the store gives
    back after the insertion. *)
Definition AddTenant (id : string) (config : TenantConfig.t)
    : M (option tenant.t * option error) :=
  do ds <- get;
  match tenants ds !! id with
  | Some _ => ret (None, Some (ErrNew "Duplicate Tenant ID"))
  | None =>
    do err <- persist db (addTenant id config);
    match err with
    | Some e => ret (None, Some (Wrapped "error adding tenant to database" e))
    | None =>
      match db_getTenant db id with
      | (_, Some e) => ret (None, Some e)
      | (None, None) => ret (None, None)
      | (Some t, None) =>
        modify (set_tenants (<[id := t]>));;
        ret (Some t, None)
      end
    end
  end.

(** [types.Link] and [types.TenantSummary] of the controller. *)
Record Link : Type := { Rel : string; Href : string }.

Record TenantSummary : Type := {
  Summary_ID : string;
  Summary_Name : string;
  Summary_Links : list Link
}.

Definition zeroSummary : TenantSummary :=
  {| Summary_ID := ""; Summary_Name := ""; Summary_Links := [] |}.

Definition zeroConfig : TenantConfig.t :=
  {| TenantConfig.Name := ""; TenantConfig.SubnetBits := 0%Z |}.

(** The configuration that [CreateTenant] hands to the datastore. *)
Definition defaultBits (config : TenantConfig.t) : TenantConfig.t :=
  if decide (TenantConfig.SubnetBits config = 0%Z)
  then {| TenantConfig.Name := TenantConfig.Name config; TenantConfig.SubnetBits := 24%Z |}
  else config.

(** [controller.CreateTenant]. [uuidParse] stands for [uuid.Parse] followed
    by [String]: the canonical text of the id, and the error of the parser.
    The tenant that [AddTenant] returns is dereferenced. *)
Definition CreateTenant (uuidParse : string → string * option error) (apiURL : string)
    (tenantID : string) (config : TenantConfig.t) : M (TenantSummary * option error) :=
  match uuidParse tenantID with
  | (_, Some err) => ret (zeroSummary, Some err)
  | (tuuid, None) =>
    if decide (TenantConfig.SubnetBits config ≠ 0 ∧
               (TenantConfig.SubnetBits config < 4 ∨ TenantConfig.SubnetBits config > 30))%Z
    then ret (zeroSummary, Some (ErrNew "subnet bits must be between 4 and 30"))
    else
      do r <- AddTenant tuuid (defaultBits config);
      match r with
      | (_, Some err) => ret (zeroSummary, Some err)
      | (None, None) => panic
      | (Some tenant, None) =>
        ret ({| Summary_ID := tenant.ID tenant;
                Summary_Name := TenantConfig.Name (tenant.Config tenant);
                Summary_Links :=
                  [ {| Rel := "self";
                       Href := apiURL +:+ "/tenants/" +:+ tenant.ID tenant |} ] |},
             None)
      end
  end.

(** [controller.ShowTenant]; the tenant that [GetTenant] returns is
    dereferenced. *)
Definition ShowTenant (tenantID : string) : M (TenantConfig.t * option error) :=
  do r <- GetTenant db tenantID;
  match r with
  | (_, Some err) => ret (zeroConfig, Some err)
  | (None, None) => panic
  | (Some tenant, None) =>
    ret ({| TenantConfig.Name := TenantConfig.Name (tenant.Config tenant);
            TenantConfig.SubnetBits := TenantConfig.SubnetBits (tenant.Config tenant) |},
         None)
  end.

(** *** The attachments of an instance *)

(** The loop of [updateStorageAttachments] over the entries of
    [instanceVolumes], in the order of the range. An entry that an earlier
    round has deleted is not produced; a failure of [UpdateBlockDevice] or
    of the store is logged and the round goes on. *)
Fixpoint detachAll (instanceID : string) (entries : list (string * string * string))
    : M unit :=
  match entries with
  | [] => ret tt
  | (key, ID) :: rest =>
    do ds <- get;
    match instanceVolumes ds !! key with
    | None => detachAll instanceID rest
    | Some _ =>
      let a := default zeroAttachment (attachments ds !! ID) in
      if decide (StorageAttachment.InstanceID a = instanceID) then
        do r <- GetBlockDevice (StorageAttachment.BlockID a);
        match r with
        | (Some bd, None) =>
          UpdateBlockDevice db (Volume.with_State Available bd);;
          modify (set_attachments (delete ID));;
          modify (set_instanceVolumes
                    (delete (StorageAttachment.InstanceID a, StorageAttachment.BlockID a)));;
          persist db (deleteStorageAttachment ID);;
          detachAll instanceID rest
        | _ => detachAll instanceID rest
        end
      else detachAll instanceID rest
    end
  end.

(** [updateStorageAttachments]; [rangeOrder] is the order in which the range
    visits the entries of the map. *)
Definition updateStorageAttachments
    (rangeOrder : gmap (string * string) string → list (string * string * string))
    (instanceID : string) : M unit :=
  do ds <- get;
  detachAll instanceID (rangeOrder (instanceVolumes ds)).

End FacadeMore.

(** * Specifications *)

(** ** The tenant network map and the scan *)

(** The address [ip] is marked in use. *)
Definition in_use (n : network_t) (ip : tenantIP) : Prop :=
  ∃ netmap, n !! subnet ip = Some netmap ∧ netmap !! host ip = Some true.

(** The shape of a network map that the datastore builds: no subnet with an
    empty host map, and no address marked [false]. *)
Definition network_wf (n : network_t) : Prop :=
  ∀ s netmap, n !! s = Some netmap →
    netmap ≠ ∅ ∧ ∀ a b, netmap !! a = Some b → b = true.

Definition hosts_state (r : hosts_result) : alloc_state :=
  match r with Continue st | Reached st => st end.

Definition scan_state (r : scan_result) : alloc_state :=
  match r with OutOfAddrs st | Claim st => st end.

(** [st'] comes from [st] by marking addresses that were free, each of them
    recorded at the end of the claim list. *)
Definition extends (st st' : alloc_state) : Prop :=
  ∃ new,
    tenantAddrs st' = tenantAddrs st ++ new ∧
    (∀ ip, ip ∈ new → ¬ in_use (net st) ip) ∧
    (∀ ip, in_use (net st') ip ↔ in_use (net st) ip ∨ ip ∈ new) ∧
    (hostCount st ≤ hostCount st')%Z.

(** Well-formed, except that the host map of [s] may still be empty. *)
Definition network_wf_but (s : N) (n : network_t) : Prop :=
  network_wf (delete s n) ∧
  ∀ m x b, n !! s = Some m → m !! x = Some b → b = true.

(** The state after an address has been marked. *)
Definition marked (subnetNum : N) (st : alloc_state) (addr : N) : alloc_state :=
  {| net := netmap_set (net st) subnetNum addr;
     addrs := addrs st ++ [addr];
     tenantAddrs := tenantAddrs st ++ [{| subnet := subnetNum; host := addr |}];
     hostCount := (hostCount st + 1)%Z |}.

(** The bounds that make the scan end, checked for each width from 4 to 30. *)
Definition alloc_bounded (bits : Z) : bool :=
  ((0 <? u32 (Z.to_N (alloc_maxHosts bits))) &&
   (alloc_end bits + u32 (Z.to_N (alloc_maxHosts bits)) <=? 2 ^ 32))%N.

(** When [range] visits the entries of a map in some order, a map with no
    entry or one entry leaves no choice. *)
Definition range_order (rangeOrder : network_t → list (N * gmap N bool)) : Prop :=
  ∀ n, rangeOrder n ≡ₚ map_to_list n.

(** The network map of a tenant in the cache. *)
Definition networkOf (ds : Datastore) (id : string) : network_t :=
  default ∅ (tenant.network <$> tenants ds !! id).

(** ** Workloads *)


(** ** Volumes *)

Definition volumeState (ds : Datastore) (ID : string) : option BlockState :=
  Volume.State <$> blockDevices ds !! ID.

(** Every volume of the cache is filed under its own id. *)
Definition blockDevices_keyed (ds : Datastore) : Prop :=
  ∀ k v, blockDevices ds !! k = Some v → Volume.ID v = k.

(** ** Usage history *)

Definition usageHistory (ds : Datastore) (tenantID : string) : list CiaoUsage.t :=
  default [] (tenantUsage ds !! tenantID).

(** Consecutive entries are at least five minutes apart. *)
Definition spaced (l : list CiaoUsage.t) : Prop :=
  ∀ i a b, l !! i = Some a → l !! S i = Some b →
    (CiaoUsage.Timestamp a + tenantUsagePeriod ≤ CiaoUsage.Timestamp b)%Z.

Definition nondecreasing (l : list CiaoUsage.t) : Prop :=
  ∀ i j a b, (i ≤ j)%nat → l !! i = Some a → l !! j = Some b →
    (CiaoUsage.Timestamp a ≤ CiaoUsage.Timestamp b)%Z.

Definition addUsage (l delta : CiaoUsage.t) (ts : Z) : CiaoUsage.t :=
  {| CiaoUsage.VCPU := int (CiaoUsage.VCPU l + CiaoUsage.VCPU delta);
     CiaoUsage.Memory := int (CiaoUsage.Memory l + CiaoUsage.Memory delta);
     CiaoUsage.Disk := int (CiaoUsage.Disk l + CiaoUsage.Disk delta);
     CiaoUsage.Timestamp := ts |}.

Definition zeroUsage : CiaoUsage.t :=
  {| CiaoUsage.VCPU := 0; CiaoUsage.Memory := 0; CiaoUsage.Disk := 0;
     CiaoUsage.Timestamp := 0 |}.

(** ** External IP pools *)

(** Two networks overlap when they share an address. *)
Definition overlaps (n1 n2 : IPNet) : Prop :=
  ∃ ip, Contains n1 ip = true ∧ Contains n2 ip = true.

Definition prefixLengths : list N := map N.of_nat (seq 0 33).

(** The mask of a longer prefix contains the mask of a shorter one. *)
Definition masks_nested (a b : N) : bool :=
  if (a <=? b)%N then (N.land (CIDRMask b) (CIDRMask a) =? CIDRMask a)%N else true.

(** [cidr] is a subnet of a pool of the cache. *)
Definition poolSubnet (ds : Datastore) (cidr : string) : Prop :=
  ∃ id p sub, pools ds !! id = Some p ∧ sub ∈ Pool.Subnets p ∧
              ExternalSubnet.CIDR sub = cidr.

(** [address] is an individual address of a pool of the cache. *)
Definition poolAddress (ds : Datastore) (address : string) : Prop :=
  ∃ id p ip, pools ds !! id = Some p ∧ ip ∈ Pool.IPs p ∧
             ExternalIP.Address ip = address.

(** The tables [externalSubnets] and [externalIPs] list what the pools
    hold, and every subnet listed parses. *)
Definition pools_indexed (ds : Datastore) : Prop :=
  (∀ cidr, poolSubnet ds cidr → externalSubnets ds !! cidr = Some true) ∧
  (∀ cidr, externalSubnets ds !! cidr = Some true → is_Some (ParseCIDR cidr)) ∧
  (∀ address, poolAddress ds address →
     ∃ ip, ParseIP address = Some ip ∧ externalIPs ds !! IP_String ip = Some true).

(** The network [new] overlaps a subnet of a pool. *)
Definition subnetTaken (ds : Datastore) (new : IPNet) : Prop :=
  ∃ cidr ip0 old, poolSubnet ds cidr ∧ ParseCIDR cidr = Some (ip0, old) ∧ overlaps old new.

(** The address [ip] is in a pool, or a subnet of a pool covers it. *)
Definition addressTaken (ds : Datastore) (ip : N) : Prop :=
  (∃ address, poolAddress ds address ∧ ParseIP address = Some ip) ∨
  (∃ cidr ip0 old, poolSubnet ds cidr ∧ ParseCIDR cidr = Some (ip0, old) ∧
                   Contains old ip = true).

(** The subnets listed in [m] catch [new]. *)
Definition listedSubnet (m : gmap string bool) (new : IPNet) : Prop :=
  ∃ k ip0 old, m !! k = Some true ∧ ParseCIDR k = Some (ip0, old) ∧
               Contains old (IP new) || Contains new (IP old) = true.

Definition parsesCIDR (sub : ExternalSubnet.t) : Prop :=
  is_Some (ParseCIDR (ExternalSubnet.CIDR sub)).

Definition parsesIP (s : string) : Prop := is_Some (ParseIP s).

(** ** Store and cache *)

(** The discipline "store first": every call of the store is issued on the
    cache as it was before the operation, an operation that fails leaves the
    cache as it was, and nothing is written to the cache without a call of
    the store. *)
Definition store_first {A} (failed : A → Prop) (m : M A) : Prop :=
  ∀ ds a w, run m ds = Some (a, w) →
    (∀ call seen, Persist call seen ∈ log w → seen = ds) ∧
    (failed a → cache w = ds) ∧
    (log w = [] → cache w = ds).

(** ** More specifications *)

Definition alloc_consistent (st : alloc_state) : Prop :=
  addrs st = host <$> tenantAddrs st ∧
  hostCount st = Z.of_nat (List.length (tenantAddrs st)).

Definition network_filed (bits : Z) (n : network_t) : Prop :=
  ∀ ip, in_use n ip → MaskIP (host ip) (alloc_mask bits) = subnet ip.

Definition unreserved (bits : Z) (a : N) : Prop :=
  let base := MaskIP a (alloc_mask bits) in
  a ≠ base ∧ a ≠ (base + 1)%N ∧ a ≠ (base + Z.to_N (alloc_maxHosts bits) - 1)%N.

(** The addresses gathered so far are in increasing order and below the
    next address to visit. *)
Definition addrs_below (bound : N) (st : alloc_state) : Prop :=
  StronglySorted N.lt (addrs st) ∧ Forall (λ a, (a < bound)%N) (addrs st).

(** An address that the scan marks: filed under the base of its subnet, and
    none of the reserved addresses of the subnet. *)
Definition claim_ok (bits : Z) (ip : tenantIP) : Prop :=
  MaskIP (host ip) (alloc_mask bits) = subnet ip ∧ unreserved bits (host ip).

(** A network as [net.ParseCIDR] returns it: the address is the base of the
    network. *)
Definition canonical (n : IPNet) : Prop :=
  (Ones n ≤ 32)%N ∧ MaskIP (IP n) (Mask n) = IP n.

(** Every pool of the cache is filed under its own id. *)
Definition pools_keyed (ds : Datastore) : Prop :=
  ∀ id p, pools ds !! id = Some p → Pool.ID p = id.

(** The value is one of a Go [int]. *)
Definition is_int (x : Z) : Prop := int x = x.

(** [address] is one that the pool hands out: an address of one of its
    subnets, or one of its individual addresses. *)
Definition poolOffers (pool : Pool.t) (address : string) : Prop :=
  (∃ sub ip0 ipNet a,
     sub ∈ Pool.Subnets pool ∧ ParseCIDR (ExternalSubnet.CIDR sub) = Some (ip0, ipNet) ∧
     Contains ipNet a = true ∧ (a < 2 ^ 32)%N ∧ (IP ipNet < a ∨ Ones ipNet = 0)%N ∧
     address = IP_String a) ∨
  (∃ extIP, extIP ∈ Pool.IPs pool ∧ ExternalIP.Address extIP = address).

(** The mapping that [MapExternalIP] makes. *)
Definition mappingOf (uuid instanceID : string) (instance : Instance_.t) (pool : Pool.t)
    (address : string) : MappedIP.t :=
  {| MappedIP.ID := uuid; MappedIP.ExternalIP := address;
     MappedIP.InternalIP := Instance_.IPAddress instance;
     MappedIP.InstanceID := instanceID;
     MappedIP.TenantID := Instance_.TenantID instance;
     MappedIP.PoolID := Pool.ID pool; MappedIP.PoolName := Pool.Name pool |}.

Definition with_Free (free : Z) (pool : Pool.t) : Pool.t :=
  {| Pool.ID := Pool.ID pool; Pool.Name := Pool.Name pool; Pool.Free := free;
     Pool.TotalIPs := Pool.TotalIPs pool; Pool.Subnets := Pool.Subnets pool;
     Pool.IPs := Pool.IPs pool |}.

(** [sub] is the subnet of the pool that carries the id. *)
Definition subnetWithID (p : Pool.t) (subnetID : string) (sub : ExternalSubnet.t) : Prop :=
  sub ∈ Pool.Subnets p ∧ ExternalSubnet.ID sub = subnetID ∧
  ∀ sub', sub' ∈ Pool.Subnets p → ExternalSubnet.ID sub' = subnetID → sub' = sub.

(** The device maps of the tenants mirror [blockDevices]: a volume of the
    cache is in the map of its tenant, and a tenant's map holds volumes of
    the cache that belong to the tenant. *)
Definition devices_agree (ds : Datastore) : Prop :=
  (∀ id v, blockDevices ds !! id = Some v →
     Volume.ID v = id ∧
     ∃ t, tenants ds !! Volume.TenantID v = Some t ∧ tenant.devices t !! id = Some v) ∧
  (∀ tid t id v, tenants ds !! tid = Some t → tenant.devices t !! id = Some v →
     blockDevices ds !! id = Some v ∧ Volume.TenantID v = tid).

(** The two writes of [AddBlockDevice] to the cache, and the two of
    [DeleteBlockDevice]. *)
Definition putDevice (device : Volume.t) (ds : Datastore) : Datastore :=
  set_tenants (alter (tenant.with_devices (<[Volume.ID device := device]>))
                 (Volume.TenantID device))
    (set_blockDevices (<[Volume.ID device := device]>) ds).

Definition removeDevice (dev : Volume.t) (ID : string) (ds : Datastore) : Datastore :=
  set_tenants (alter (tenant.with_devices (delete ID)) (Volume.TenantID dev))
    (set_blockDevices (delete ID) ds).

(** [name] is the name or the id of the image. *)
Definition imageCalled (i : Image.t) (name : string) : Prop :=
  Image.Name i = name ∨ Image.ID i = name.

(** The image is in one of the lists that [ResolveImage] searches for its
    tenant: the list of a tenant other than "admin", the public list or the
    internal list. *)
Definition imageListed (i : Image.t) : Prop :=
  (Image.TenantID i ≠ "" ∧ Image.TenantID i ≠ "admin") ∨
  Image.visibility i = Public ∨ Image.visibility i = Internal.

(** The writes of [AddImage] to the cache. *)
Definition addedImage (i : Image.t) (ds : Datastore) : Datastore :=
  let ds1 := if decide (Image.TenantID i = "") then ds
             else set_tenants (alter (tenant.with_images (λ l, l ++ [Image.ID i]))
                                 (Image.TenantID i)) ds in
  let ds2 := set_images (<[Image.ID i := i]>) ds1 in
  let ds3 := if decide (Image.visibility i = Public)
             then set_publicImages (λ l, l ++ [Image.ID i]) ds2 else ds2 in
  if decide (Image.visibility i = Internal)
  then set_internalImages (λ l, l ++ [Image.ID i]) ds3 else ds3.

(** No list of the cache holds the id of the image. *)
Definition imageNew (ds : Datastore) (i : Image.t) : Prop :=
  (Image.ID i ∉ publicImages ds) ∧ (Image.ID i ∉ internalImages ds) ∧
  ∀ t, tenants ds !! Image.TenantID i = Some t → Image.ID i ∉ tenant.images t.

(** A list that [ResolveImage] searches for the tenant of the image holds
    its id. *)
Definition imageSearched (ds : Datastore) (i : Image.t) : Prop :=
  (Image.TenantID i ≠ "" ∧ Image.TenantID i ≠ "admin" ∧
   ∃ t, tenants ds !! Image.TenantID i = Some t ∧ Image.ID i ∈ tenant.images t) ∨
  Image.ID i ∈ publicImages ds ∨ Image.ID i ∈ internalImages ds.

(** A range over a map visits its entries. *)
Definition visits_entries
    (rangeOrder : gmap (string * string) string → list (string * string * string)) : Prop :=
  ∀ m k id, (k, id) ∈ rangeOrder m ↔ m !! k = Some id.

(** The key of an attachment in [instanceVolumes]. *)
Definition attachmentKey (a : StorageAttachment.t) : string * string :=
  (StorageAttachment.InstanceID a, StorageAttachment.BlockID a).

(** [instanceVolumes] is the index of [attachments] by instance and volume. *)
Definition attachments_linked (ds : Datastore) : Prop :=
  ∀ k id, instanceVolumes ds !! k = Some id ↔
    ∃ a, attachments ds !! id = Some a ∧ attachmentKey a = k.

(** The volume of every attachment is in the cache. *)
Definition volumes_cached (ds : Datastore) : Prop :=
  ∀ id a, attachments ds !! id = Some a →
    is_Some (blockDevices ds !! StorageAttachment.BlockID a).

(** The volume as [updateStorageAttachments] leaves it: available, when the
    store takes the update. *)
Definition freed (db : persistentStore) (bd : Volume.t) : Volume.t :=
  if exec db (updateBlockData (Volume.with_State Available bd)) is None
  then Volume.with_State Available bd else bd.

(** The cache after a round of the loop that removes the attachment [id]. *)
Definition detached (db : persistentStore) (id : string) (a : StorageAttachment.t)
    (bd : Volume.t) (ds : Datastore) : Datastore :=
  set_instanceVolumes (delete (attachmentKey a))
    (set_attachments (delete id)
       (if exec db (updateBlockData (Volume.with_State Available bd)) is None
        then putDevice (Volume.with_State Available bd) ds else ds)).

(** * Tactics for runs of the facade *)

Arguments scanNetwork : simpl never.
Arguments alloc_mask : simpl never.
Arguments alloc_start : simpl never.
Arguments alloc_end : simpl never.
Arguments alloc_maxHosts : simpl never.
Arguments u32 : simpl never.
Arguments cleanTenantIPs : simpl never.
Arguments set_network : simpl never.

Ltac run_unfold :=
  repeat progress (unfold run, bind, ret, get, modify, tell, persist, panic in * );
  cbn [cache log fst snd] in *.

Ltac run_simpl := run_unfold; simpl in *.

Ltac run_step := cbn [cache log fst snd Wrap] in *.

(** Case analysis on every answer of the store and every lookup on the way
    of a run. *)
Ltac run_cases := repeat (run_step; simplify_eq; try case_match).

Ltac log_cases H :=
  cbn [app] in H;
  repeat (apply elem_of_cons in H as [H | H]);
  try (by apply elem_of_nil in H).

Ltac store_first_tac :=
  intros ds a w Hrun; run_unfold; run_cases;
  (split; [intros ? ? Hin; log_cases Hin; by simplify_eq |]);
  (split; [by intros [? ?] || done | by intros ?]).

(** * Scenarios *)

(** ** Tenant IP allocation *)

(** A store that accepts every call. *)
Definition okStore : persistentStore :=
  {| exec := λ _, None; db_getTenant := λ _, (None, None) |}.

(** A store that refuses every bulk claim of tenant addresses. *)
Definition noClaimStore : persistentStore :=
  {| exec := λ c, match c with
                  | claimTenantIPs _ _ => Some (ErrStore "claimTenantIPs")
                  | _ => None
                  end;
     db_getTenant := λ _, (None, None) |}.

(** A network controller whose subnets never become active. *)
Definition inactiveCNCI : CNCIManager.t :=
  {| CNCIManager.WaitForActive := λ _, Some (ErrNew "subnet not active");
     CNCIManager.ScheduleRemoveSubnet := λ _, None |}.

Definition newTenant (id : string) (bits : Z) (ctrl : option CNCIManager.t) : tenant.t :=
  {| tenant.ID := id;
     tenant.Config := {| TenantConfig.Name := ""; TenantConfig.SubnetBits := bits |};
     tenant.CNCIctrl := ctrl; tenant.network := ∅; tenant.instances := ∅;
     tenant.devices := ∅; tenant.workloads := []; tenant.images := [] |}.

(** A cache that holds one tenant, just created. *)
Definition oneTenant (id : string) (bits : Z) (ctrl : option CNCIManager.t) : Datastore :=
  set_tenants (λ _, {[ id := newTenant id bits ctrl ]}) emptyDatastore.

(** 172.16.0.0, 172.16.0.2 and 172.16.0.6 *)
Definition ip_172_16_0_0 : N := 2886729728%N.
Definition ip_172_16_0_2 : N := 2886729730%N.
Definition ip_172_16_0_4 : N := 2886729732%N.
Definition ip_172_16_0_6 : N := 2886729734%N.

Definition net30_first : network_t :=
  {[ ip_172_16_0_0 := {[ ip_172_16_0_2 := true ]} ]}.

Definition net30_second : network_t :=
  <[ ip_172_16_0_4 := {[ ip_172_16_0_6 := true ]} ]> net30_first.

(** The world after five addresses were asked of a new tenant with 24
    subnet bits and the store refused the bulk claim. *)
Definition refused_world : world :=
  Eval vm_compute in
    match run (AllocateTenantIPPool noClaimStore map_to_list "tenant" 5)
            (oneTenant "tenant" 24 None) with
    | Some (_, w) => w
    | None => {| cache := emptyDatastore; log := [] |}
    end.

(** ** A workload in use *)


Definition instanceOfW : Instance_.t :=
  {| Instance_.ID := "i"; Instance_.TenantID := "tenant"; Instance_.WorkloadID := "W";
     Instance_.IPAddress := "172.16.0.2" |}.


(** ** A volume and its attachment *)

(** A tenant with one volume that is [Available]. *)
Definition volumeV : Volume.t :=
  {| Volume.ID := "v"; Volume.TenantID := "tenant"; Volume.State := Available |}.

Definition dsVolume : Datastore :=
  {| tenants := {[ "tenant" := tenant.with_devices (λ _, {[ "v" := volumeV ]})
                                 (newTenant "tenant" 24 None) ]};
     instances := ∅; tenantUsage := ∅; blockDevices := {[ "v" := volumeV ]};
     attachments := ∅; instanceVolumes := ∅; pools := ∅; externalSubnets := ∅;
     externalIPs := ∅; mappedIPs := ∅; images := ∅; publicImages := [];
     internalImages := []; workloads := ∅; publicWorkloads := [] |}.

Definition resourceV : StorageResource.t :=
  {| StorageResource.ID := "v"; StorageResource.Bootable := false;
     StorageResource.Ephemeral := false |}.

Definition attachmentA : StorageAttachment.t :=
  {| StorageAttachment.ID := "a"; StorageAttachment.InstanceID := "i";
     StorageAttachment.BlockID := "v"; StorageAttachment.Ephemeral := false;
     StorageAttachment.Boot := false |}.

Definition attached_world : world :=
  Eval vm_compute in
    match run (CreateStorageAttachment okStore "a" "i" resourceV) dsVolume with
    | Some (_, w) => w
    | None => {| cache := emptyDatastore; log := [] |}
    end.

Definition detached_world : world :=
  Eval vm_compute in
    match run (DeleteStorageAttachment okStore "a") (cache attached_world) with
    | Some (_, w) => w
    | None => {| cache := emptyDatastore; log := [] |}
    end.

(** ** A usage history *)

Definition usageAt (vcpu ts : Z) : CiaoUsage.t :=
  {| CiaoUsage.VCPU := vcpu; CiaoUsage.Memory := 0; CiaoUsage.Disk := 0;
     CiaoUsage.Timestamp := ts |}.

(** One minute and six minutes, in nanoseconds. *)
Definition oneMinute : Z := 60000000000%Z.
Definition sixMinutes : Z := 360000000000%Z.

(** A tenant with one entry, stamped at time zero. *)
Definition dsUsage : Datastore :=
  set_tenantUsage (λ _, {[ "tenant" := [usageAt 10 0] ]}) emptyDatastore.

(** ** External IP pools *)

(** A pool with the subnet 10.0.0.0/30, an instance, and a store that takes
    mappings and refuses every update of a pool. *)
Definition poolP : Pool.t :=
  {| Pool.ID := "p"; Pool.Name := "pool"; Pool.Free := 2; Pool.TotalIPs := 2;
     Pool.Subnets := [{| ExternalSubnet.ID := "s"; ExternalSubnet.CIDR := "10.0.0.0/30" |}];
     Pool.IPs := [] |}.

Definition dsPool : Datastore :=
  {| tenants := ∅; instances := {[ "i" := instanceOfW ]}; tenantUsage := ∅;
     blockDevices := ∅; attachments := ∅; instanceVolumes := ∅;
     pools := {[ "p" := poolP ]}; externalSubnets := {[ "10.0.0.0/30" := true ]};
     externalIPs := ∅; mappedIPs := ∅; images := ∅; publicImages := [];
     internalImages := []; workloads := ∅; publicWorkloads := [] |}.

Definition noUpdatePoolStore : persistentStore :=
  {| exec := λ c, match c with
                  | updatePool _ => Some (ErrStore "updatePool")
                  | _ => None
                  end;
     db_getTenant := λ _, (None, None) |}.

Definition mapped_world : world :=
  Eval vm_compute in
    match run (MapExternalIP noUpdatePoolStore "m" "p" "i") dsPool with
    | Some (_, w) => w
    | None => {| cache := emptyDatastore; log := [] |}
    end.

(** The scenario of the specification: pool A holds 10.0.0.0/24. *)
Definition subnetA : ExternalSubnet.t :=
  {| ExternalSubnet.ID := "sA"; ExternalSubnet.CIDR := "10.0.0.0/24" |}.

Definition poolA : Pool.t :=
  {| Pool.ID := "A"; Pool.Name := "A"; Pool.Free := 254; Pool.TotalIPs := 254;
     Pool.Subnets := [subnetA]; Pool.IPs := [] |}.

Definition poolB : Pool.t :=
  {| Pool.ID := "B"; Pool.Name := "B"; Pool.Free := 126; Pool.TotalIPs := 126;
     Pool.Subnets := [{| ExternalSubnet.ID := "sB"; ExternalSubnet.CIDR := "10.0.0.128/25" |}];
     Pool.IPs := [] |}.

Definition poolC : Pool.t :=
  {| Pool.ID := "C"; Pool.Name := "C"; Pool.Free := 1; Pool.TotalIPs := 1;
     Pool.Subnets := [];
     Pool.IPs := [{| ExternalIP.ID := "c"; ExternalIP.Address := "10.0.0.5" |}] |}.

Definition dsA : Datastore :=
  {| tenants := ∅; instances := ∅; tenantUsage := ∅; blockDevices := ∅;
     attachments := ∅; instanceVolumes := ∅; pools := {[ "A" := poolA ]};
     externalSubnets := {[ "10.0.0.0/24" := true ]}; externalIPs := ∅; mappedIPs := ∅;
     images := ∅; publicImages := []; internalImages := []; workloads := ∅;
     publicWorkloads := [] |}.

Definition net_10_0_0_0_24 : IPNet := {| IP := 167772160; Ones := 24 |}.
Definition net_10_0_0_128_25 : IPNet := {| IP := 167772288; Ones := 25 |}.
Definition ip_10_0_0_5 : N := 167772165%N.

(** A store that refuses every new pool. *)
Definition noAddPoolStore : persistentStore :=
  {| exec := λ c, match c with
                  | addPool _ => Some (ErrStore "addPool")
                  | _ => None
                  end;
     db_getTenant := λ _, (None, None) |}.

(** ** More scenarios *)

(** A tenant with 30 subnet bits that holds 172.16.0.2. *)
Definition oneAddress : Datastore :=
  set_network "tenant" net30_first (oneTenant "tenant" 30 None).

(** A store whose [releaseTenantIP] succeeds. *)
Definition releaseOk : string → N → N → option error := λ _ _ _, None.

(** The first mapping out of the pool 10.0.0.0/30, and the world after the
    store has taken it. *)
Definition mapping_10_0_0_1 : MappedIP.t :=
  {| MappedIP.ID := "m"; MappedIP.ExternalIP := "10.0.0.1";
     MappedIP.InternalIP := "172.16.0.2"; MappedIP.InstanceID := "i";
     MappedIP.TenantID := "tenant"; MappedIP.PoolID := "p"; MappedIP.PoolName := "pool" |}.

Definition mappedOk_world : world :=
  Eval vm_compute in
    match run (MapExternalIP okStore "m" "p" "i") dsPool with
    | Some (_, w) => w
    | None => {| cache := emptyDatastore; log := [] |}
    end.

(** The world after 10.0.1.0/24 has been added to the pool. *)
Definition subnetAdded_world : world :=
  Eval vm_compute in
    match run (AddExternalSubnet okStore "s2" "p" "10.0.1.0/24") dsPool with
    | Some (_, w) => w
    | None => {| cache := emptyDatastore; log := [] |}
    end.

(** The pool with its two subnets. *)
Definition poolP2 : Pool.t :=
  {| Pool.ID := "p"; Pool.Name := "pool"; Pool.Free := 256; Pool.TotalIPs := 256;
     Pool.Subnets := [{| ExternalSubnet.ID := "s"; ExternalSubnet.CIDR := "10.0.0.0/30" |};
                      {| ExternalSubnet.ID := "s2"; ExternalSubnet.CIDR := "10.0.1.0/24" |}];
     Pool.IPs := [] |}.

(** The world after the volume has been added for a tenant without
    volumes. *)
Definition volumeAdded_world : world :=
  Eval vm_compute in
    match run (AddBlockDevice okStore volumeV) (oneTenant "tenant" 24 None) with
    | Some (_, w) => w
    | None => {| cache := emptyDatastore; log := [] |}
    end.

(** ** Images *)

(** A private image of the tenant, an image whose name is that image's id,
    and a private image of no tenant. *)
Definition imageI : Image.t :=
  {| Image.ID := "i1"; Image.Name := "ubuntu"; Image.TenantID := "tenant";
     Image.visibility := Private |}.

Definition imageJ : Image.t :=
  {| Image.ID := "i2"; Image.Name := "i1"; Image.TenantID := "tenant";
     Image.visibility := Public |}.

Definition imageHidden : Image.t :=
  {| Image.ID := "i3"; Image.Name := "hidden"; Image.TenantID := "";
     Image.visibility := Private |}.

Definition imageAdded_world : world :=
  Eval vm_compute in
    match run (AddImage okStore imageI) (oneTenant "tenant" 24 None) with
    | Some (_, w) => w
    | None => {| cache := emptyDatastore; log := [] |}
    end.

Definition hiddenAdded_world : world :=
  Eval vm_compute in
    match run (AddImage okStore imageHidden) emptyDatastore with
    | Some (_, w) => w
    | None => {| cache := emptyDatastore; log := [] |}
    end.

(** The image of the tenant under a new name. *)
Definition imageRenamed : Image.t :=
  {| Image.ID := "i1"; Image.Name := "debian"; Image.TenantID := "tenant";
     Image.visibility := Private |}.

Definition imageRenamed_world : world :=
  Eval vm_compute in
    match run (UpdateImage okStore imageRenamed) (cache imageAdded_world) with
    | Some (_, w) => w
    | None => {| cache := emptyDatastore; log := [] |}
    end.

(** ** Tenants *)

(** A parser that takes every text for a canonical id, a store that holds
    the tenant "tenant" with 24 subnet bits, and a configuration that leaves
    the subnet bits open. *)
Definition anyUUID : string → string * option error := λ s, (s, None).

Definition tenantStore : persistentStore :=
  {| exec := λ _, None;
     db_getTenant := λ id, (Some (newTenant id 24 None), None) |}.

Definition openConfig : TenantConfig.t :=
  {| TenantConfig.Name := "T"; TenantConfig.SubnetBits := 0%Z |}.

(** * Properties *)

(** ** The tenant network map *)

Lemma network_wf_empty : network_wf ∅.
Proof. intros s m H. by rewrite lookup_empty in H. Qed.

(** Two well-formed maps with the same addresses in use are the same map. *)
Lemma network_wf_ext (n1 n2 : network_t) :
  network_wf n1 → network_wf n2 →
  (∀ ip, in_use n1 ip ↔ in_use n2 ip) → n1 = n2.
Proof.
  intros W1 W2 E. apply map_eq. intros s.
  assert (sub : ∀ (a b : network_t), network_wf a → network_wf b →
            (∀ ip, in_use a ip → in_use b ip) →
            ∀ m, a !! s = Some m → ∃ m', b !! s = Some m' ∧ m ⊆ m').
  { intros a b Wa Wb Hab m Hm.
    destruct (Wa s m Hm) as [Hne Htrue].
    destruct (map_choose m Hne) as (x & v & Hx).
    pose proof (Htrue _ _ Hx) as ->.
    destruct (Hab {| subnet := s; host := x |}) as (m' & Hm' & _).
    { exists m; eauto. }
    simpl in Hm'. exists m'. split; [done |].
    apply map_subseteq_spec. intros y w Hy.
    pose proof (Htrue _ _ Hy) as ->.
    destruct (Hab {| subnet := s; host := y |}) as (m'' & Hm'' & Hy'').
    { exists m; eauto. }
    simpl in *. congruence. }
  destruct (n1 !! s) as [m1 |] eqn:H1, (n2 !! s) as [m2 |] eqn:H2; [| | | done].
  - destruct (sub n1 n2 W1 W2 (λ ip, proj1 (E ip)) m1 H1) as (m' & Hm' & S1).
    destruct (sub n2 n1 W2 W1 (λ ip, proj2 (E ip)) m2 H2) as (m'' & Hm'' & S2).
    simplify_eq. f_equal. by apply (anti_symm (⊆)).
  - destruct (sub n1 n2 W1 W2 (λ ip, proj1 (E ip)) m1 H1) as (m' & Hm' & _). congruence.
  - destruct (sub n2 n1 W2 W1 (λ ip, proj2 (E ip)) m2 H2) as (m' & Hm' & _). congruence.
Qed.

Lemma netmap_get_false (n : network_t) (s a : N) :
  netmap_get n s a = false → ¬ in_use n {| subnet := s; host := a |}.
Proof.
  unfold netmap_get. intros H (m & Hm & Ha). simpl in *.
  rewrite Hm, Ha in H. done.
Qed.

Lemma in_use_ensure_subnet (n : network_t) (s : N) (ip : tenantIP) :
  in_use (ensure_subnet n s) ip ↔ in_use n ip.
Proof.
  unfold ensure_subnet. destruct (n !! s) eqn:Hs; [done |].
  unfold in_use. split; intros (m & Hm & Ha).
  - destruct (decide (s = subnet ip)) as [-> | Hne].
    + rewrite lookup_insert_eq in Hm. by simplify_eq.
    + rewrite lookup_insert_ne in Hm by done. eauto.
  - exists m. split; [| done]. rewrite lookup_insert_ne; [done |]. congruence.
Qed.

Lemma in_use_netmap_set (n : network_t) (s a : N) (ip : tenantIP) :
  is_Some (n !! s) →
  in_use (netmap_set n s a) ip ↔ in_use n ip ∨ ip = {| subnet := s; host := a |}.
Proof.
  intros [m0 Hm0]. unfold in_use, netmap_set. destruct ip as [s' a']. simpl. split.
  - intros (m & Hm & Ha).
    destruct (decide (s = s')) as [-> | Hne].
    + rewrite lookup_alter_eq, Hm0 in Hm. simpl in Hm. simplify_eq.
      destruct (decide (a = a')) as [-> | Hne]; [by right |].
      rewrite lookup_insert_ne in Ha by done. left. eauto.
    + rewrite lookup_alter_ne in Hm by done. left. eauto.
  - intros [(m & Hm & Ha) | Heq].
    + destruct (decide (s = s')) as [-> | Hne].
      * exists (<[a := true]> m). rewrite lookup_alter_eq, Hm. split; [done |].
        destruct (decide (a = a')) as [-> | Hne]; [by rewrite lookup_insert_eq |].
        by rewrite lookup_insert_ne.
      * exists m. by rewrite lookup_alter_ne.
    + injection Heq as -> ->. exists (<[a := true]> m0).
      by rewrite lookup_alter_eq, Hm0, lookup_insert_eq.
Qed.

Lemma in_use_cleanTenantIP (n : network_t) (c ip : tenantIP) :
  in_use (cleanTenantIP n c) ip ↔ in_use n ip ∧ ip ≠ c.
Proof.
  destruct c as [s a], ip as [s' a']. unfold cleanTenantIP, in_use. simpl.
  rewrite lookup_alter_eq.
  assert (step : (∃ m, alter (delete a) s n !! s' = Some m ∧ m !! a' = Some true) ↔
                 (∃ m, n !! s' = Some m ∧ m !! a' = Some true) ∧
                 {| subnet := s'; host := a' |} ≠ {| subnet := s; host := a |}).
  { split.
    - intros (m & Hm & Ha). destruct (decide (s = s')) as [-> | Hne].
      + rewrite lookup_alter_eq in Hm. destruct (n !! s') as [m0 |] eqn:H0; [| done].
        simpl in Hm. simplify_eq. apply lookup_delete_Some in Ha as [? ?].
        split; [eauto | congruence].
      + rewrite lookup_alter_ne in Hm by done. split; [eauto | congruence].
    - intros [(m & Hm & Ha) Hne]. destruct (decide (s = s')) as [-> | Hs].
      + exists (delete a m). rewrite lookup_alter_eq, Hm. split; [done |].
        apply lookup_delete_Some. split; [congruence | done].
      + exists m. by rewrite lookup_alter_ne. }
  case_decide as Hsz; [| done].
  rewrite <- step. split.
  - intros (m & Hm & Ha). apply lookup_delete_Some in Hm as [? ?]. eauto.
  - intros (m & Hm & Ha). exists m. split; [| done].
    apply lookup_delete_Some. split; [| done]. intros ->.
    rewrite lookup_alter_eq in Hm. rewrite Hm in Hsz. simpl in Hsz.
    apply map_size_empty_inv in Hsz. subst. by rewrite lookup_empty in Ha.
Qed.

Lemma in_use_cleanTenantIPs (IPs : list tenantIP) (n : network_t) (ip : tenantIP) :
  in_use (cleanTenantIPs n IPs) ip ↔ in_use n ip ∧ ip ∉ IPs.
Proof.
  unfold cleanTenantIPs. revert n. induction IPs as [| c IPs IH]; intros n; simpl.
  - split; [intros H; split; [done | apply not_elem_of_nil] | tauto].
  - rewrite IH, in_use_cleanTenantIP, not_elem_of_cons. tauto.
Qed.

Lemma network_wf_netmap_set (n : network_t) (s a : N) :
  network_wf (delete s n) →
  (∀ m b x, n !! s = Some m → m !! x = Some b → b = true) →
  network_wf (netmap_set n s a).
Proof.
  intros W Hs s' m Hm. unfold netmap_set in Hm.
  destruct (decide (s = s')) as [-> | Hne].
  - rewrite lookup_alter_eq in Hm. destruct (n !! s') as [m0 |] eqn:H0; [| done].
    simpl in Hm. simplify_eq. split.
    + apply insert_non_empty.
    + intros x b Hx. destruct (decide (a = x)) as [-> | Hax].
      * rewrite lookup_insert_eq in Hx. congruence.
      * rewrite lookup_insert_ne in Hx by done. eauto.
  - rewrite lookup_alter_ne in Hm by done. apply (W s' m). by rewrite lookup_delete_ne.
Qed.

Lemma network_wf_delete (n : network_t) (s : N) :
  network_wf n → network_wf (delete s n).
Proof. intros W s' m Hm. apply lookup_delete_Some in Hm as [_ Hm]. eauto. Qed.

Lemma network_wf_cleanTenantIP (n : network_t) (c : tenantIP) :
  network_wf n → network_wf (cleanTenantIP n c).
Proof.
  intros W. destruct c as [s a]. unfold cleanTenantIP. simpl.
  case_decide as Hsz.
  - intros s' m Hm. apply lookup_delete_Some in Hm as [Hne Hm].
    rewrite lookup_alter_ne in Hm by done. eauto.
  - intros s' m Hm. destruct (decide (s = s')) as [-> | Hne].
    + rewrite lookup_alter_eq in Hsz, Hm.
      destruct (n !! s') as [m0 |] eqn:H0; [| done]. simpl in *. simplify_eq. split.
      * by apply map_size_non_empty_iff.
      * intros x b Hx. apply lookup_delete_Some in Hx as [_ Hx].
        destruct (W _ _ H0) as [_ Ht]. eauto.
    + rewrite lookup_alter_ne in Hm by done. eauto.
Qed.

Lemma network_wf_cleanTenantIPs (IPs : list tenantIP) (n : network_t) :
  network_wf n → network_wf (cleanTenantIPs n IPs).
Proof.
  unfold cleanTenantIPs. revert n. induction IPs as [| c IPs IH]; intros n W; simpl.
  - done.
  - apply IH. by apply network_wf_cleanTenantIP.
Qed.

(** Unmarking a list of addresses that were free before they were marked
    gives back the map from before the marks. *)
Lemma cleanTenantIPs_restores (n n' : network_t) (IPs : list tenantIP) :
  network_wf n → network_wf n' →
  (∀ ip, ip ∈ IPs → ¬ in_use n ip) →
  (∀ ip, in_use n' ip ↔ in_use n ip ∨ ip ∈ IPs) →
  cleanTenantIPs n' IPs = n.
Proof.
  intros W W' Hfree Hmarks. apply network_wf_ext; [by apply network_wf_cleanTenantIPs | done |].
  intros ip. rewrite in_use_cleanTenantIPs, Hmarks. split.
  - intros [[H | H] Hn]; [done | contradiction].
  - intros H. split; [by left |]. intros Hin. by apply (Hfree ip).
Qed.

(** ** The scan of [AllocateTenantIPPool] *)

Lemma extends_refl (st : alloc_state) : extends st st.
Proof.
  exists []. rewrite app_nil_r. repeat split; try done; try lia.
  - by intros ? ?%elem_of_nil.
  - by left.
  - by intros [? | ?%elem_of_nil].
Qed.

Lemma extends_trans (st1 st2 st3 : alloc_state) :
  extends st1 st2 → extends st2 st3 → extends st1 st3.
Proof.
  intros (n1 & T1 & F1 & U1 & C1) (n2 & T2 & F2 & U2 & C2).
  exists (n1 ++ n2). repeat split.
  - by rewrite T2, T1, app_assoc.
  - intros ip [H | H]%elem_of_app; [by apply F1 |].
    intros Hu. apply (F2 ip H). apply U1. by left.
  - intros H. apply U2 in H as [H | H]; [apply U1 in H as [H | H] |].
    + by left.
    + right. apply elem_of_app. by left.
    + right. apply elem_of_app. by right.
  - intros [H | [H | H]%elem_of_app]; apply U2.
    + left. apply U1. by left.
    + left. apply U1. by right.
    + by right.
  - lia.
Qed.

Lemma network_wf_wf_but (s : N) (n : network_t) :
  network_wf n → network_wf_but s n.
Proof.
  intros W. split; [by apply network_wf_delete |].
  intros m x b Hm Hx. destruct (W _ _ Hm) as [_ Ht]. eauto.
Qed.

Lemma network_wf_but_in_use (s : N) (n : network_t) (ip : tenantIP) :
  network_wf_but s n → subnet ip = s → in_use n ip → network_wf n.
Proof.
  intros [W Ht] <- (m & Hm & Ha) s' m' Hm'.
  destruct (decide (subnet ip = s')) as [<- | Hne].
  - simplify_eq. split; [| by eauto].
    intros ->. by rewrite lookup_empty in Ha.
  - apply (W s' m'). by rewrite lookup_delete_ne.
Qed.

Lemma network_wf_but_ensure_subnet (s : N) (n : network_t) :
  network_wf n → network_wf_but s (ensure_subnet n s).
Proof.
  intros W. unfold ensure_subnet. destruct (n !! s) eqn:Hs.
  - by apply network_wf_wf_but.
  - split.
    + rewrite delete_insert_eq. by apply network_wf_delete.
    + intros m x b. rewrite lookup_insert_eq. intros [= <-]. by rewrite lookup_empty.
Qed.

Lemma ensure_subnet_is_Some (s : N) (n : network_t) :
  is_Some (ensure_subnet n s !! s).
Proof.
  unfold ensure_subnet. destruct (n !! s) eqn:Hs; [by rewrite Hs |].
  by rewrite lookup_insert_eq.
Qed.

Section Scan.

Context (num : Z) (start subnetNum : N).

Lemma extends_marked (st : alloc_state) (addr : N) :
  is_Some (net st !! subnetNum) →
  netmap_get (net st) subnetNum addr = false →
  extends st (marked subnetNum st addr).
Proof.
  intros Hs Hfree. exists [{| subnet := subnetNum; host := addr |}]. simpl.
  repeat split; try done; try lia.
  - intros ip ->%list_elem_of_singleton. by apply netmap_get_false.
  - intros H. apply in_use_netmap_set in H as [H | ->]; [by left | right | done].
    by apply list_elem_of_singleton.
  - intros H. apply in_use_netmap_set; [done |].
    destruct H as [H | H%list_elem_of_singleton]; [by left | by right].
Qed.

Lemma marked_is_Some (st : alloc_state) (addr : N) :
  is_Some (net st !! subnetNum) → is_Some (net (marked subnetNum st addr) !! subnetNum).
Proof.
  intros [m Hm]. simpl. unfold netmap_set. rewrite lookup_alter_eq, Hm. by eexists.
Qed.

Lemma network_wf_marked (st : alloc_state) (addr : N) :
  network_wf_but subnetNum (net st) → network_wf (net (marked subnetNum st addr)).
Proof. intros [W Ht]. simpl. apply network_wf_netmap_set; eauto. Qed.

Lemma hostsLoop_extends (hosts : list Z) (st : alloc_state) :
  is_Some (net st !! subnetNum) →
  extends st (hosts_state (hostsLoop num start subnetNum hosts st)) ∧
  is_Some (net (hosts_state (hostsLoop num start subnetNum hosts st)) !! subnetNum).
Proof.
  revert st. induction hosts as [| h hosts IH]; intros st Hs; simpl.
  - split; [apply extends_refl | done].
  - destruct (netmap_get (net st) subnetNum _) eqn:Hg; simpl; [by apply IH |].
    fold (marked subnetNum st (u32 (start + u32 (Z.to_N h)))).
    set (st1 := marked subnetNum st _).
    assert (extends st st1) by by apply extends_marked.
    assert (is_Some (net st1 !! subnetNum)) by by apply marked_is_Some.
    destruct (hostCount st + 1 =? num)%Z; simpl; [done |].
    destruct (IH st1) as [E S1]; [done |]. split; [| done].
    by apply (extends_trans st st1).
Qed.

Lemma hostsLoop_wf_but (hosts : list Z) (st : alloc_state) :
  network_wf_but subnetNum (net st) →
  network_wf_but subnetNum (net (hosts_state (hostsLoop num start subnetNum hosts st))).
Proof.
  revert st. induction hosts as [| h hosts IH]; intros st W; simpl; [done |].
  destruct (netmap_get (net st) subnetNum _) eqn:Hg; simpl; [by apply IH |].
  fold (marked subnetNum st (u32 (start + u32 (Z.to_N h)))).
  assert (network_wf_but subnetNum (net (marked subnetNum st (u32 (start + u32 (Z.to_N h))))))
    by by apply network_wf_wf_but, network_wf_marked.
  destruct (hostCount st + 1 =? num)%Z; simpl; [done | by apply IH].
Qed.

(** With a host to visit, the subnet has an address in use afterwards. *)
Lemma hostsLoop_in_use (h : Z) (hosts : list Z) (st : alloc_state) :
  is_Some (net st !! subnetNum) →
  ∃ ip, subnet ip = subnetNum ∧
    in_use (net (hosts_state (hostsLoop num start subnetNum (h :: hosts) st))) ip.
Proof.
  intros Hs. exists {| subnet := subnetNum; host := u32 (start + u32 (Z.to_N h)) |}.
  split; [done |]. simpl.
  destruct (netmap_get (net st) subnetNum _) eqn:Hg; simpl.
  - destruct (hostsLoop_extends hosts st Hs) as [(new & _ & _ & U & _) _].
    apply U. left. unfold netmap_get in Hg. destruct Hs as [m Hm]. rewrite Hm in Hg.
    exists m. split; [done |]. simpl. by destruct (m !! _) as [[] |].
  - fold (marked subnetNum st (u32 (start + u32 (Z.to_N h)))).
    set (st1 := marked subnetNum st _).
    assert (H1 : in_use (net st1)
              {| subnet := subnetNum; host := u32 (start + u32 (Z.to_N h)) |}).
    { simpl. apply in_use_netmap_set; [done | by right]. }
    destruct (hostCount st + 1 =? num)%Z; simpl; [done |].
    destruct (hostsLoop_extends hosts st1) as [(new' & _ & _ & U' & _) _];
      [by apply marked_is_Some |].
    apply U'. by left.
Qed.

(** A count that has passed [num] is never equal to it again. *)
Lemma hostsLoop_no_reach (hosts : list Z) (st : alloc_state) :
  (num ≤ hostCount st)%Z →
  ∃ st', hostsLoop num start subnetNum hosts st = Continue st'.
Proof.
  revert st. induction hosts as [| h hosts IH]; intros st Hc; simpl; [by eexists |].
  destruct (netmap_get (net st) subnetNum _); simpl; [by apply IH |].
  destruct (Z.eqb_spec (hostCount st + 1) num) as [? | _]; [lia |].
  apply IH. simpl. lia.
Qed.

End Scan.

Section ScanNetwork.

Context (num maxHosts : Z) (mask end_ : N).

Lemma scan_extends (fuel : nat) (start : N) (st : alloc_state) (res : scan_result) :
  (4 ≤ maxHosts)%Z →
  scan fuel num maxHosts mask end_ start st = Some res →
  network_wf (net st) →
  extends st (scan_state res) ∧ network_wf (net (scan_state res)).
Proof.
  intros Hmax. revert start st. induction fuel as [| fuel IH]; intros start st; simpl; [done |].
  destruct (end_ <=? start)%N.
  { intros [= <-] W. split; [apply extends_refl | done]. }
  set (s := N.land start mask).
  set (st1 := {| net := ensure_subnet (net st) s; addrs := addrs st;
                 tenantAddrs := tenantAddrs st; hostCount := hostCount st |}).
  intros Hscan W.
  assert (S1 : is_Some (net st1 !! s)) by apply ensure_subnet_is_Some.
  assert (E1 : extends st st1).
  { exists []. simpl. rewrite app_nil_r. repeat split; try done; try lia.
    - by intros ? ?%elem_of_nil.
    - intros H. left. by apply in_use_ensure_subnet in H.
    - intros [H | H%elem_of_nil]; [| done]. by apply in_use_ensure_subnet. }
  rewrite seqZ_cons in Hscan by lia.
  set (hosts := seqZ (Z.succ 2) (Z.pred (maxHosts - 3))) in *.
  destruct (hostsLoop_extends num start s (2%Z :: hosts) st1 S1) as [E2 S2].
  pose proof (hostsLoop_wf_but num start s (2%Z :: hosts) st1
                (network_wf_but_ensure_subnet s (net st) W)) as W2.
  destruct (hostsLoop_in_use num start s 2%Z hosts st1 S1) as (ip & Hip & Huse).
  pose proof (network_wf_but_in_use _ _ _ W2 Hip Huse) as W3.
  destruct (hostsLoop num start s (2%Z :: hosts) st1) as [st2 | st2]; simpl in *.
  - destruct (IH _ _ Hscan W3) as [E3 W4]. split; [| done].
    eapply extends_trans; [| exact E3]. by eapply extends_trans.
  - injection Hscan as <-. simpl. split; [by eapply extends_trans | done].
Qed.

Lemma scan_no_claim (fuel : nat) (start : N) (st : alloc_state) (res : scan_result) :
  (num ≤ hostCount st)%Z →
  scan fuel num maxHosts mask end_ start st = Some res →
  ∃ st', res = OutOfAddrs st'.
Proof.
  revert start st. induction fuel as [| fuel IH]; intros start st Hc; simpl; [done |].
  destruct (end_ <=? start)%N; [intros [= <-]; by eexists |].
  set (s := N.land start mask).
  set (st1 := {| net := ensure_subnet (net st) s; addrs := addrs st;
                 tenantAddrs := tenantAddrs st; hostCount := hostCount st |}).
  destruct (hostsLoop_no_reach num start s (seqZ 2 (maxHosts - 3)) st1 Hc) as [st2 H2].
  destruct (hostsLoop_extends num start s (seqZ 2 (maxHosts - 3)) st1
              (ensure_subnet_is_Some s (net st))) as [(_ & _ & _ & _ & Hc2) _].
  rewrite H2 in *. simpl in Hc2. apply IH. lia.
Qed.

(** The scan ends: each round moves [start] up by [maxHosts]. *)
Lemma scan_total (fuel : nat) (start : N) (st : alloc_state) :
  (0 < u32 (Z.to_N maxHosts))%N →
  (end_ + u32 (Z.to_N maxHosts) ≤ 2 ^ 32)%N →
  (N.to_nat (end_ - start) < fuel)%nat →
  is_Some (scan fuel num maxHosts mask end_ start st).
Proof.
  intros Hpos Hend. revert start st.
  induction fuel as [| fuel IH]; intros start st Hfuel; simpl; [lia |].
  destruct (N.leb_spec end_ start) as [Hle | Hlt]; [by eexists |].
  destruct (hostsLoop _ _ _ _ _) as [st2 | st2]; [| by eexists].
  apply IH. unfold u32 at 1. rewrite N.mod_small by lia. lia.
Qed.

End ScanNetwork.

(** ** [AllocateTenantIPPool] *)

Lemma Datastore_eta (ds : Datastore) :
  {| tenants := tenants ds; instances := instances ds; tenantUsage := tenantUsage ds;
     blockDevices := blockDevices ds; attachments := attachments ds;
     instanceVolumes := instanceVolumes ds; pools := pools ds;
     externalSubnets := externalSubnets ds; externalIPs := externalIPs ds;
     mappedIPs := mappedIPs ds; images := images ds; publicImages := publicImages ds;
     internalImages := internalImages ds; workloads := workloads ds;
     publicWorkloads := publicWorkloads ds |} = ds.
Proof. by destruct ds. Qed.

Lemma set_network_same (id : string) (ds : Datastore) (t : tenant.t) :
  tenants ds !! id = Some t → set_network id (tenant.network t) ds = ds.
Proof.
  intros Ht. destruct ds. unfold set_network, set_tenants. simpl in *. f_equal.
  apply map_eq. intros j. destruct (decide (id = j)) as [<- | Hne].
  - rewrite lookup_alter_eq, Ht. simpl. by destruct t.
  - by rewrite lookup_alter_ne.
Qed.

Lemma set_network_twice (id : string) (n n' : network_t) (ds : Datastore) :
  set_network id n (set_network id n' ds) = set_network id n ds.
Proof.
  unfold set_network, set_tenants. simpl. f_equal.
  apply map_eq. intros j. destruct (decide (id = j)) as [<- | Hne].
  - rewrite !lookup_alter_eq. by destruct (tenants ds !! id).
  - by rewrite !lookup_alter_ne.
Qed.

Lemma set_network_lookup (id : string) (n : network_t) (ds : Datastore) (t : tenant.t) :
  tenants ds !! id = Some t →
  tenants (set_network id n ds) !! id = Some (tenant.with_network (λ _, n) t).
Proof. intros Ht. unfold set_network. simpl. by rewrite lookup_alter_eq, Ht. Qed.

(** [activateSubnets] returns, leaves the cache alone and calls the
    network controller only. *)
Lemma waitForActive_log (id : string) (mgr : CNCIManager.t) (ones : N)
    (IPs : list N) (w : world) :
  ∃ r evs, waitForActive id mgr ones IPs w =
             Some (r, {| cache := cache w; log := log w ++ evs |}) ∧
           ∀ call seen, Persist call seen ∉ evs.
Proof.
  revert w. induction IPs as [| ip IPs IH]; intros w; simpl.
  - exists None, []. rewrite app_nil_r. split; [by destruct w |].
    intros ? ?. apply not_elem_of_nil.
  - run_simpl.
    destruct (CNCIManager.WaitForActive mgr _) as [e |].
    + eexists _, [_]. split; [done |].
      intros ? ? H%list_elem_of_singleton. done.
    + edestruct IH as (r & evs & -> & Hev). simpl.
      eexists r, (_ :: evs). rewrite <- app_assoc. split; [done |].
      intros ? ? [H | H]%elem_of_cons; [done | by eapply Hev].
Qed.

Lemma activateSubnets_log (id : string) (IPs : list N) (w : world) (t : tenant.t) :
  tenants (cache w) !! id = Some t →
  ∃ r evs, activateSubnets id IPs w =
             Some (r, {| cache := cache w; log := log w ++ evs |}) ∧
           ∀ call seen, Persist call seen ∉ evs.
Proof.
  intros Ht. unfold activateSubnets. run_simpl. rewrite Ht.
  destruct (tenant.CNCIctrl t) as [mgr |].
  - apply waitForActive_log.
  - exists None, []. rewrite app_nil_r. split; [by destruct w |].
    intros ? ?. apply not_elem_of_nil.
Qed.

(** The run of [AllocateTenantIPPool] for a tenant in the cache. *)
Lemma AllocateTenantIPPool_cached (db : persistentStore)
    (rangeOrder : network_t → list (N * gmap N bool))
    (id : string) (num : Z) (ds : Datastore) (l : list event) (t : tenant.t) :
  tenants ds !! id = Some t →
  (0 ≤ tenant.SubnetBits t ≤ 32)%Z →
  AllocateTenantIPPool db rangeOrder id num {| cache := ds; log := l |} =
  match scanNetwork rangeOrder (tenant.SubnetBits t) num (tenant.network t) with
  | None => None
  | Some (OutOfAddrs st) =>
    Some ((None, Some (ErrNew "out of addrs")),
          {| cache := set_network id (cleanTenantIPs (net st) (tenantAddrs st)) ds;
             log := l |})
  | Some (Claim st) =>
    let ds1 := set_network id (net st) ds in
    let l1 := l ++ [Persist (claimTenantIPs id (tenantAddrs st)) ds1] in
    match exec db (claimTenantIPs id (tenantAddrs st)) with
    | Some e =>
      Some ((None, Some e),
            {| cache := set_network id (cleanTenantIPs (net st) (tenantAddrs st)) ds;
               log := l1 |})
    | None =>
      match activateSubnets id (addrs st) {| cache := ds1; log := l1 |} with
      | Some (_, w) => Some ((Some (addrs st), None), w)
      | None => None
      end
    end
  end.
Proof.
  intros Ht Hbits. unfold AllocateTenantIPPool, GetTenant, getTenant.
  run_unfold. rewrite Ht. cbn [cache log].
  destruct (Z.ltb_spec (tenant.SubnetBits t) 0) as [? | _]; [lia |].
  destruct (Z.ltb_spec 32 (tenant.SubnetBits t)) as [? | _]; [lia |].
  cbn [orb cache log]. rewrite Ht.
  destruct (scanNetwork _ _ _ _) as [[st | st] |]; try done.
  cbn [cache log].
  destruct (exec db _) as [e |]; cbn [cache log]; [| done].
  by rewrite set_network_twice.
Qed.

Lemma alloc_maxHosts_ge_4 (bits : Z) : (bits ≤ 30)%Z → (4 ≤ alloc_maxHosts bits)%Z.
Proof.
  intros H. unfold alloc_maxHosts. change 4%Z with (2 ^ 2)%Z.
  apply Z.pow_le_mono_r; lia.
Qed.

Lemma alloc_bounds (bits : Z) :
  (4 ≤ bits ≤ 30)%Z →
  (0 < u32 (Z.to_N (alloc_maxHosts bits)))%N ∧
  (alloc_end bits + u32 (Z.to_N (alloc_maxHosts bits)) ≤ 2 ^ 32)%N.
Proof.
  intros H.
  assert (Hall : forallb alloc_bounded (seqZ 4 27) = true) by (vm_compute; reflexivity).
  rewrite forallb_forall in Hall.
  assert (Hb : alloc_bounded bits = true).
  { apply Hall, list_elem_of_In, elem_of_seqZ. lia. }
  unfold alloc_bounded in Hb. apply andb_true_iff in Hb as [H1 H2].
  split; [by apply N.ltb_lt | by apply N.leb_le].
Qed.

(** Whatever the scan has marked, [cleanTenantIPs] takes out again. *)
Lemma scanNetwork_restores (rangeOrder : network_t → list (N * gmap N bool))
    (bits num : Z) (subnets : network_t) (res : scan_result) :
  (bits ≤ 30)%Z → network_wf subnets →
  scanNetwork rangeOrder bits num subnets = Some res →
  cleanTenantIPs (net (scan_state res)) (tenantAddrs (scan_state res)) = subnets.
Proof.
  intros Hbits W Hscan. unfold scanNetwork in Hscan.
  apply scan_extends in Hscan as [(new & T & F & U & _) W'];
    cbn [net tenantAddrs app] in *; [| by apply alloc_maxHosts_ge_4 | done].
  rewrite T. by apply cleanTenantIPs_restores.
Qed.

Lemma scanNetwork_total (rangeOrder : network_t → list (N * gmap N bool))
    (bits num : Z) (subnets : network_t) :
  (4 ≤ bits ≤ 30)%Z → is_Some (scanNetwork rangeOrder bits num subnets).
Proof.
  intros Hbits. destruct (alloc_bounds bits Hbits) as [H1 H2].
  unfold scanNetwork. apply scan_total; [done | done | lia].
Qed.

Lemma scanNetwork_nonpositive (rangeOrder : network_t → list (N * gmap N bool))
    (bits num : Z) (subnets : network_t) (res : scan_result) :
  (num ≤ 0)%Z →
  scanNetwork rangeOrder bits num subnets = Some res →
  ∃ st, res = OutOfAddrs st.
Proof. intros Hnum Hscan. unfold scanNetwork in Hscan. by eapply scan_no_claim in Hscan. Qed.

Lemma networkOf_set_network (id : string) (n : network_t) (ds : Datastore) (t : tenant.t) :
  tenants ds !! id = Some t → networkOf (set_network id n ds) id = n.
Proof.
  intros Ht. unfold networkOf. by rewrite (set_network_lookup id n ds t Ht).
Qed.

(** The shape [network_wf] is kept by every run of [AllocateTenantIPPool]. *)
Lemma AllocateTenantIPPool_network_wf (db : persistentStore)
    (rangeOrder : network_t → list (N * gmap N bool))
    (id : string) (num : Z) (ds : Datastore) (t : tenant.t)
    (res : option (list N) * option error) (w : world) :
  tenants ds !! id = Some t →
  (0 ≤ tenant.SubnetBits t ≤ 30)%Z →
  network_wf (tenant.network t) →
  run (AllocateTenantIPPool db rangeOrder id num) ds = Some (res, w) →
  network_wf (networkOf (cache w) id).
Proof.
  intros Ht Hbits W Hrun. unfold run in Hrun.
  rewrite (AllocateTenantIPPool_cached _ _ _ _ _ _ t) in Hrun by (done || lia).
  destruct (scanNetwork _ _ _ _) as [res' |] eqn:Hscan; [| done].
  pose proof (scanNetwork_restores _ _ _ _ _ (proj2 Hbits) W Hscan) as Hclean.
  assert (W' : network_wf (net (scan_state res'))).
  { unfold scanNetwork in Hscan.
    by apply scan_extends in Hscan as [_ ?]; [| apply alloc_maxHosts_ge_4; lia |]. }
  destruct res' as [st | st]; cbn [scan_state] in *.
  - injection Hrun as <- <-. cbn [cache]. rewrite Hclean.
    by rewrite (networkOf_set_network id _ ds t).
  - destruct (exec db _).
    + injection Hrun as <- <-. cbn [cache]. rewrite Hclean.
      by rewrite (networkOf_set_network id _ ds t).
    + cbn zeta in Hrun.
      edestruct (activateSubnets_log id (addrs st)) as (r & evs & Hact & _);
        [| rewrite Hact in Hrun].
      { cbn [cache]. by apply set_network_lookup. }
      injection Hrun as <- <-. cbn [cache].
      by rewrite (networkOf_set_network id _ ds t).
Qed.

(** C2.  When the scan has gathered the requested number of addresses and
    the bulk claim [claimTenantIPs] fails, [AllocateTenantIPPool] returns the
    error of the store and no addresses, and the cache is what it was before
    the call: every mark of the scan is taken back, and a host map that the
    rollback empties is removed.  The tenant's network map is one that the
    datastore builds (no empty host map, no address marked false) and the
    subnets have at least four addresses. *)
Theorem AllocateTenantIPPool_claim_failure (db : persistentStore)
    (rangeOrder : network_t → list (N * gmap N bool))
    (id : string) (num : Z) (ds : Datastore) (t : tenant.t)
    (res : option (list N) * option error) (w : world)
    (IPs : list tenantIP) (seen : Datastore) (e : error) :
  tenants ds !! id = Some t →
  (tenant.SubnetBits t ≤ 30)%Z →
  network_wf (tenant.network t) →
  run (AllocateTenantIPPool db rangeOrder id num) ds = Some (res, w) →
  Persist (claimTenantIPs id IPs) seen ∈ log w →
  exec db (claimTenantIPs id IPs) = Some e →
  res = (None, Some e) ∧ cache w = ds.
Proof.
  intros Ht Hbits W Hrun Hlog Hexec. unfold run in Hrun.
  destruct (decide (0 ≤ tenant.SubnetBits t)%Z) as [Hlo | Hlo].
  - rewrite (AllocateTenantIPPool_cached _ _ _ _ _ _ t) in Hrun by (done || lia).
    destruct (scanNetwork _ _ _ _) as [[st | st] |] eqn:Hscan; [| | done].
    + injection Hrun as <- <-. simpl in Hlog. by apply elem_of_nil in Hlog.
    + pose proof (scanNetwork_restores _ _ _ _ _ Hbits W Hscan) as Hclean.
      simpl in Hclean.
      destruct (exec db (claimTenantIPs id (tenantAddrs st))) as [e' |] eqn:He'.
      * injection Hrun as <- <-. simpl in *.
        apply list_elem_of_singleton in Hlog. injection Hlog as -> _.
        rewrite Hclean. split; [congruence | by apply set_network_same].
      * cbn zeta in Hrun.
        edestruct (activateSubnets_log id (addrs st)) as (r & evs & Hact & Hev);
          [| rewrite Hact in Hrun].
        { cbn [cache]. by apply set_network_lookup. }
        injection Hrun as <- <-. cbn [cache log] in Hlog.
        cbn [app] in Hlog.
        apply elem_of_cons in Hlog as [Hlog | Hlog].
        -- injection Hlog as -> _. congruence.
        -- by apply Hev in Hlog.
  - unfold AllocateTenantIPPool, GetTenant, getTenant in Hrun. run_unfold.
    rewrite Ht in Hrun. cbn [cache log] in Hrun.
    destruct (Z.ltb_spec (tenant.SubnetBits t) 0) as [_ | ?]; [| lia].
    cbn [orb] in Hrun. injection Hrun as <- <-. simpl in Hlog.
    by apply elem_of_nil in Hlog.
Qed.

(** C10.  With [num] zero or negative the count never equals [num]: the
    call issues no claim, returns no addresses and the error "out of addrs",
    and leaves the cache as it was. *)
Theorem AllocateTenantIPPool_nonpositive (db : persistentStore)
    (rangeOrder : network_t → list (N * gmap N bool))
    (id : string) (num : Z) (ds : Datastore) (t : tenant.t) :
  tenants ds !! id = Some t →
  (4 ≤ tenant.SubnetBits t ≤ 30)%Z →
  network_wf (tenant.network t) →
  (num ≤ 0)%Z →
  run (AllocateTenantIPPool db rangeOrder id num) ds =
    Some ((None, Some (ErrNew "out of addrs")), {| cache := ds; log := [] |}).
Proof.
  intros Ht Hbits W Hnum. unfold run.
  rewrite (AllocateTenantIPPool_cached _ _ _ _ _ _ t) by (done || lia).
  destruct (scanNetwork_total rangeOrder _ num (tenant.network t) Hbits) as [res Hscan].
  rewrite Hscan.
  destruct (scanNetwork_nonpositive _ _ _ _ _ Hnum Hscan) as [st ->].
  apply scanNetwork_restores in Hscan; [| lia | done]. simpl in Hscan.
  rewrite Hscan. by rewrite (set_network_same id ds t).
Qed.

(** An address comes back only with a nil error: the results of the
    [return] statement are fixed before the deferred call of
    [activateSubnets]. *)
Lemma AllocateTenantIPPool_addrs_nil_error (db : persistentStore)
    (rangeOrder : network_t → list (N * gmap N bool))
    (id : string) (num : Z) (w0 : world)
    (a : list N) (err : option error) (w : world) :
  AllocateTenantIPPool db rangeOrder id num w0 = Some ((Some a, err), w) → err = None.
Proof.
  unfold AllocateTenantIPPool, GetTenant, getTenant. run_unfold.
  destruct (tenants (cache w0) !! id) as [t |] eqn:Ht; cbn [cache log fst snd].
  - destruct ((tenant.SubnetBits t <? 0)%Z || (32 <? tenant.SubnetBits t)%Z);
      [intros H; congruence |].
    cbn [cache log]. rewrite Ht.
    destruct (scanNetwork _ _ _ _) as [[st | st] |]; [intros H; congruence | | intros H; congruence].
    cbn [cache log]. destruct (exec db _); [intros H; congruence |].
    destruct (activateSubnets _ _ _) as [[? ?] |]; intros H; congruence.
  - destruct (db_getTenant db id) as [[t |] [e |]]; cbn [fst snd Wrap cache log];
      try (intros H; congruence).
    destruct ((tenant.SubnetBits t <? 0)%Z || (32 <? tenant.SubnetBits t)%Z);
      [intros H; congruence |].
    cbn [cache log]. rewrite Ht. intros H; congruence.
Qed.

(** ** Scenarios of tenant IP allocation *)

Lemma scanNetwork_order (o1 o2 : network_t → list (N * gmap N bool))
    (bits num : Z) (subnets : network_t) :
  o1 subnets = o2 subnets →
  scanNetwork o1 bits num subnets = scanNetwork o2 bits num subnets.
Proof. unfold scanNetwork. by intros ->. Qed.

Lemma scanNetwork_30_first :
  scanNetwork map_to_list 30 1 ∅ =
  Some (Claim {| net := net30_first; addrs := [ip_172_16_0_2];
                 tenantAddrs := [{| subnet := ip_172_16_0_0; host := ip_172_16_0_2 |}];
                 hostCount := 1 |}).
Proof. vm_compute. reflexivity. Qed.

Lemma scanNetwork_30_second :
  scanNetwork map_to_list 30 1 net30_first =
  Some (Claim {| net := net30_second; addrs := [ip_172_16_0_6];
                 tenantAddrs := [{| subnet := ip_172_16_0_4; host := ip_172_16_0_6 |}];
                 hostCount := 1 |}).
Proof. vm_compute. reflexivity. Qed.

Lemma range_order_map_to_list : range_order map_to_list.
Proof. intros n. reflexivity. Qed.

Lemma range_order_empty rangeOrder : range_order rangeOrder → rangeOrder ∅ = map_to_list (∅ : network_t).
Proof.
  intros H. specialize (H ∅). rewrite map_to_list_empty in *.
  by apply Permutation_nil_r in H.
Qed.

Lemma range_order_singleton rangeOrder (k : N) (v : gmap N bool) :
  range_order rangeOrder →
  rangeOrder {[ k := v ]} = map_to_list ({[ k := v ]} : network_t).
Proof.
  intros H. specialize (H {[ k := v ]}). rewrite map_to_list_singleton in *.
  by apply Permutation_singleton_r in H.
Qed.

(** The run of [AllocateTenantIPPool] when the scan gathers [num] addresses
    and the store accepts the claim. *)
Lemma AllocateTenantIPPool_claimed (db : persistentStore)
    (rangeOrder : network_t → list (N * gmap N bool))
    (id : string) (num : Z) (ds : Datastore) (t : tenant.t) (st : alloc_state) :
  tenants ds !! id = Some t →
  (0 ≤ tenant.SubnetBits t ≤ 32)%Z →
  scanNetwork rangeOrder (tenant.SubnetBits t) num (tenant.network t) = Some (Claim st) →
  exec db (claimTenantIPs id (tenantAddrs st)) = None →
  ∃ w, run (AllocateTenantIPPool db rangeOrder id num) ds = Some ((Some (addrs st), None), w) ∧
       cache w = set_network id (net st) ds.
Proof.
  intros Ht Hbits Hscan Hexec. unfold run.
  rewrite (AllocateTenantIPPool_cached _ _ _ _ _ _ t) by done.
  rewrite Hscan, Hexec. cbn zeta.
  edestruct (activateSubnets_log id (addrs st)) as (r & evs & -> & _).
  { cbn [cache]. by apply set_network_lookup. }
  eexists. split; reflexivity.
Qed.

(** C3, as the code has it.  For a tenant created with [SubnetBits] 30 every
    subnet has four addresses and one usable host, the one of index 2.  When
    the store accepts the claims, the first call for one address returns
    172.16.0.2, and the second call goes on to the next subnet and returns
    172.16.0.6. *)
Theorem AllocateTenantIPPool_bits30 (db : persistentStore)
    (rangeOrder : network_t → list (N * gmap N bool))
    (id : string) (ds : Datastore) (t : tenant.t) :
  range_order rangeOrder →
  tenants ds !! id = Some t →
  tenant.SubnetBits t = 30%Z →
  tenant.network t = ∅ →
  (∀ IPs, exec db (claimTenantIPs id IPs) = None) →
  alloc_maxHosts 30 = 4%Z ∧
  ∃ w1 w2 a1 a2,
    run (AllocateTenantIPPool db rangeOrder id 1) ds = Some ((Some [a1], None), w1) ∧
    run (AllocateTenantIPPool db rangeOrder id 1) (cache w1) = Some ((Some [a2], None), w2) ∧
    IP_String a1 = "172.16.0.2" ∧ IP_String a2 = "172.16.0.6".
Proof.
  intros Horder Ht Hbits Hnet Hexec. split; [reflexivity |].
  destruct (AllocateTenantIPPool_claimed db rangeOrder id 1 ds t
              {| net := net30_first; addrs := [ip_172_16_0_2];
                 tenantAddrs := [{| subnet := ip_172_16_0_0; host := ip_172_16_0_2 |}];
                 hostCount := 1 |}) as (w1 & Hrun1 & Hc1); [done | lia | | done |].
  { rewrite Hbits, Hnet.
    rewrite (scanNetwork_order _ map_to_list) by by apply range_order_empty.
    apply scanNetwork_30_first. }
  cbn [net addrs] in *.
  destruct (AllocateTenantIPPool_claimed db rangeOrder id 1 (cache w1)
              (tenant.with_network (λ _, net30_first) t)
              {| net := net30_second; addrs := [ip_172_16_0_6];
                 tenantAddrs := [{| subnet := ip_172_16_0_4; host := ip_172_16_0_6 |}];
                 hostCount := 1 |}) as (w2 & Hrun2 & Hc2).
  { rewrite Hc1. by apply set_network_lookup. }
  { unfold tenant.SubnetBits in *. cbn [tenant.with_network tenant.Config]. lia. }
  { unfold tenant.SubnetBits in *. cbn [tenant.with_network tenant.Config tenant.network].
    rewrite Hbits.
    rewrite (scanNetwork_order _ map_to_list) by by apply range_order_singleton.
    apply scanNetwork_30_second. }
  { done. }
  exists w1, w2, ip_172_16_0_2, ip_172_16_0_6.
  split; [done |]. split; [done |]. split; by vm_compute.
Qed.

Lemma AllocateTenantIPPool_bits30_witness :
  ∃ w1 w2 a1 a2,
    run (AllocateTenantIPPool okStore map_to_list "tenant" 1) (oneTenant "tenant" 30 None)
      = Some ((Some [a1], None), w1) ∧
    run (AllocateTenantIPPool okStore map_to_list "tenant" 1) (cache w1)
      = Some ((Some [a2], None), w2) ∧
    IP_String a1 = "172.16.0.2" ∧ IP_String a2 = "172.16.0.6".
Proof.
  apply (AllocateTenantIPPool_bits30 okStore map_to_list "tenant"
           (oneTenant "tenant" 30 None) (newTenant "tenant" 30 None)).
  - apply range_order_map_to_list.
  - reflexivity.
  - reflexivity.
  - reflexivity.
  - reflexivity.
Defined.

(** C3 as the specification words it fails: after the first address of a
    tenant with [SubnetBits] 30 has been handed out, the second call does
    not end with the error "out of addrs". *)
Lemma AllocateTenantIPPool_bits30_not_exhausted :
  ¬ ∃ w1 w2,
    run (AllocateTenantIPPool okStore map_to_list "tenant" 1) (oneTenant "tenant" 30 None)
      = Some ((Some [ip_172_16_0_2], None), w1) ∧
    run (AllocateTenantIPPool okStore map_to_list "tenant" 1) (cache w1)
      = Some ((None, Some (ErrNew "out of addrs")), w2).
Proof.
  intros (w1 & w2 & H1 & H2).
  vm_compute in H1. injection H1 as <-.
  vm_compute in H2. discriminate H2.
Qed.

Lemma AllocateTenantIPPool_claim_failure_witness :
  run (AllocateTenantIPPool noClaimStore map_to_list "tenant" 5) (oneTenant "tenant" 24 None)
    = Some ((None, Some (ErrStore "claimTenantIPs")), refused_world) ∧
  cache refused_world = oneTenant "tenant" 24 None.
Proof.
  assert (Hrun : run (AllocateTenantIPPool noClaimStore map_to_list "tenant" 5)
                   (oneTenant "tenant" 24 None)
                 = Some ((None, Some (ErrStore "claimTenantIPs")), refused_world))
    by (vm_compute; reflexivity).
  split; [exact Hrun |].
  refine (proj2 (AllocateTenantIPPool_claim_failure noClaimStore map_to_list "tenant" 5
                   (oneTenant "tenant" 24 None) (newTenant "tenant" 24 None)
                   _ refused_world _ _ (ErrStore "claimTenantIPs") _ _ _ Hrun _ _)).
  - reflexivity.
  - vm_compute. discriminate.
  - apply network_wf_empty.
  - apply list_elem_of_here.
  - reflexivity.
Defined.

Lemma AllocateTenantIPPool_nonpositive_witness :
  run (AllocateTenantIPPool okStore map_to_list "tenant" 0) (oneTenant "tenant" 24 None)
    = Some ((None, Some (ErrNew "out of addrs")),
            {| cache := oneTenant "tenant" 24 None; log := [] |}).
Proof.
  apply (AllocateTenantIPPool_nonpositive okStore map_to_list "tenant" 0
           (oneTenant "tenant" 24 None) (newTenant "tenant" 24 None)).
  - reflexivity.
  - vm_compute. split; discriminate.
  - apply network_wf_empty.
  - vm_compute. discriminate.
Defined.

(** C4 fails on the code.  The network controller of the tenant refuses to
    activate the subnet: [AllocateTenantIPPool] asks it ([WaitForActive] is
    in the log and answers with an error), the address stays marked in the
    tenant's map, and the call returns the address with a nil error. *)
Theorem AllocateTenantIPPool_activation_error_lost :
  ∃ w,
    run (AllocateTenantIPPool okStore map_to_list "tenant" 1)
        (oneTenant "tenant" 30 (Some inactiveCNCI))
      = Some ((Some [ip_172_16_0_2], None), w) ∧
    WaitedForActive "tenant" "172.16.0.0/30" ∈ log w ∧
    CNCIManager.WaitForActive inactiveCNCI "172.16.0.0/30"
      = Some (ErrNew "subnet not active") ∧
    netmap_get (networkOf (cache w) "tenant") ip_172_16_0_0 ip_172_16_0_2 = true.
Proof.
  eexists. split; [vm_compute; reflexivity |].
  split; [| split; [reflexivity | vm_compute; reflexivity]].
  cbn [log]. apply list_elem_of_further, list_elem_of_here.
Qed.

(** ** Workloads *)





(** ** Volumes and attachments *)

(** What a [CreateStorageAttachment] that returns no error has done. *)
Lemma CreateStorageAttachment_done (db : persistentStore) (uuid instanceID : string)
    (volume : StorageResource.t) (ds : Datastore)
    (r : option StorageAttachment.t) (w : world) :
  blockDevices_keyed ds →
  run (CreateStorageAttachment db uuid instanceID volume) ds = Some ((r, None), w) →
  ∃ a bd,
    r = Some a ∧ StorageAttachment.ID a = uuid ∧
    StorageAttachment.InstanceID a = instanceID ∧
    StorageAttachment.BlockID a = StorageResource.ID volume ∧
    blockDevices ds !! StorageResource.ID volume = Some bd ∧
    blockDevices (cache w) !! StorageResource.ID volume = Some (Volume.with_State InUse bd) ∧
    attachments (cache w) !! uuid = Some a ∧
    instanceVolumes (cache w) !! (instanceID, StorageResource.ID volume) = Some uuid.
Proof.
  intros Hkey Hrun.
  unfold CreateStorageAttachment, GetBlockDevice, UpdateBlockDevice, AddBlockDevice in Hrun.
  run_unfold. run_cases.
  match goal with H : blockDevices ds !! StorageResource.ID volume = Some ?t |- _ =>
    pose proof (Hkey _ _ H) as Hid; eexists; exists t end.
  simpl. rewrite Hid, !lookup_insert_eq. done.
Qed.

Lemma DeleteStorageAttachment_done (db : persistentStore) (ID : string)
    (ds : Datastore) (w : world) :
  run (DeleteStorageAttachment db ID) ds = Some (None, w) →
  ∃ a, attachments ds !! ID = Some a ∧
       log w = [Persist (deleteStorageAttachment ID) ds] ∧
       cache w = set_instanceVolumes
                   (delete (StorageAttachment.InstanceID a, StorageAttachment.BlockID a))
                   (set_attachments (delete ID) ds).
Proof.
  intros Hrun. unfold DeleteStorageAttachment in Hrun. run_unfold. run_cases.
  eexists. done.
Qed.

(** C6, as the code has it.  A [CreateStorageAttachment] that succeeds marks
    the volume [InUse] and files the attachment; a [DeleteStorageAttachment]
    of that attachment that succeeds removes the attachment from both
    tables, writes no volume to the store and leaves the volume [InUse]. *)
Theorem attachment_created_then_deleted (db db' : persistentStore)
    (uuid instanceID : string) (volume : StorageResource.t) (ds : Datastore)
    (a : StorageAttachment.t) (w1 w2 : world) :
  blockDevices_keyed ds →
  run (CreateStorageAttachment db uuid instanceID volume) ds = Some ((Some a, None), w1) →
  run (DeleteStorageAttachment db' (StorageAttachment.ID a)) (cache w1) = Some (None, w2) →
  volumeState (cache w1) (StorageResource.ID volume) = Some InUse ∧
  volumeState (cache w2) (StorageResource.ID volume) = Some InUse ∧
  blockDevices (cache w2) = blockDevices (cache w1) ∧
  log w2 = [Persist (deleteStorageAttachment (StorageAttachment.ID a)) (cache w1)] ∧
  attachments (cache w2) !! StorageAttachment.ID a = None ∧
  instanceVolumes (cache w2) !! (instanceID, StorageResource.ID volume) = None.
Proof.
  intros Hkey Hc Hd.
  apply CreateStorageAttachment_done in Hc
    as (a' & bd & [= <-] & Hid & Hinst & Hblock & Hbd & Hbd1 & Hatt & Hiv); [| done].
  apply DeleteStorageAttachment_done in Hd as (a'' & Ha'' & Hlog & Hcache).
  rewrite Hid in *. rewrite Hatt in Ha''. injection Ha'' as <-.
  rewrite Hcache, Hinst, Hblock. unfold volumeState. simpl.
  rewrite Hbd1, !lookup_delete_eq. done.
Qed.

Lemma blockDevices_keyed_dsVolume : blockDevices_keyed dsVolume.
Proof.
  intros k v H. simpl in H. apply lookup_singleton_Some in H as [<- <-]. reflexivity.
Qed.

Lemma attachment_created_then_deleted_witness :
  run (CreateStorageAttachment okStore "a" "i" resourceV) dsVolume
    = Some ((Some attachmentA, None), attached_world) ∧
  run (DeleteStorageAttachment okStore "a") (cache attached_world)
    = Some (None, detached_world) ∧
  volumeState dsVolume "v" = Some Available ∧
  volumeState (cache attached_world) "v" = Some InUse ∧
  volumeState (cache detached_world) "v" = Some InUse.
Proof.
  assert (Hc : run (CreateStorageAttachment okStore "a" "i" resourceV) dsVolume
               = Some ((Some attachmentA, None), attached_world))
    by (vm_compute; reflexivity).
  assert (Hd : run (DeleteStorageAttachment okStore (StorageAttachment.ID attachmentA))
                 (cache attached_world) = Some (None, detached_world))
    by (vm_compute; reflexivity).
  destruct (attachment_created_then_deleted okStore okStore "a" "i" resourceV dsVolume
              attachmentA attached_world detached_world
              blockDevices_keyed_dsVolume Hc Hd) as (H1 & H2 & _).
  split; [exact Hc |]. split; [exact Hd |]. split; [reflexivity |].
  split; [exact H1 | exact H2].
Defined.

(** C6 as the specification words it fails: after the attachment of the
    volume has been created and deleted, both with success, the volume is
    not [Available]. *)
Lemma attachment_deleted_not_Available :
  ¬ (∀ a w1 w2,
       run (CreateStorageAttachment okStore "a" "i" resourceV) dsVolume
         = Some ((Some a, None), w1) →
       run (DeleteStorageAttachment okStore (StorageAttachment.ID a)) (cache w1)
         = Some (None, w2) →
       volumeState (cache w2) "v" = Some Available).
Proof.
  intros H.
  specialize (H attachmentA attached_world detached_world).
  assert (volumeState (cache detached_world) "v" = Some Available) as Hv.
  { apply H; vm_compute; reflexivity. }
  vm_compute in Hv. discriminate Hv.
Qed.

(** ** Usage accounting *)

Lemma spaced_nondecreasing (l : list CiaoUsage.t) : spaced l → nondecreasing l.
Proof.
  intros Hs i j a b Hij Ha Hb. revert b Hb.
  induction Hij as [| j Hij IH]; intros b Hb.
  - assert (a = b) as -> by congruence. lia.
  - destruct (l !! j) as [c |] eqn:Hc.
    + specialize (IH c eq_refl). specialize (Hs j c b Hc Hb).
      unfold tenantUsagePeriod in Hs. lia.
    + apply lookup_ge_None in Hc. apply lookup_lt_Some in Hb. lia.
Qed.

Lemma underPeriod_Since (now t : Z) :
  underPeriod (Since now t) = (now - t <? tenantUsagePeriod)%Z.
Proof.
  unfold underPeriod, Since, tenantUsagePeriod.
  change (2 ^ 63)%Z with 9223372036854775808%Z.
  change (5 * 60 * 10 ^ 9)%Z with 300000000000%Z.
  destruct (Z.ltb_spec (now - t) 300000000000), (Z.ltb_spec
    (Z.max (-9223372036854775808) (Z.min (9223372036854775808 - 1) (now - t)))
    300000000000); lia.
Qed.

(** The history of the tenant after [updateTenantUsage]. *)
Lemma updateTenantUsage_history (sinceNow now : Z) (delta : CiaoUsage.t)
    (tenantID : string) (ds : Datastore) :
  usageHistory (updateTenantUsage sinceNow now delta tenantID ds) tenantID =
  let l := usageHistory ds tenantID in
  if negb (updateTenantUsageNeeded delta) then l
  else match last l with
       | Some x =>
         if (sinceNow - CiaoUsage.Timestamp x <? tenantUsagePeriod)%Z
         then <[(List.length l - 1)%nat := addUsage x delta (CiaoUsage.Timestamp x)]> l
         else l ++ [addUsage x delta now]
       | None => l ++ [addUsage zeroUsage delta now]
       end.
Proof.
  unfold updateTenantUsage, usageHistory.
  destruct (negb (updateTenantUsageNeeded delta)); [done |].
  destruct (last (default [] (tenantUsage ds !! tenantID))) as [x |] eqn:Hl; simpl.
  - rewrite underPeriod_Since.
    destruct (sinceNow - CiaoUsage.Timestamp x <? tenantUsagePeriod)%Z; simpl;
      by rewrite lookup_insert_eq.
  - by rewrite lookup_insert_eq.
Qed.

Lemma spaced_app (l : list CiaoUsage.t) (u : CiaoUsage.t) :
  spaced l →
  (∀ x, last l = Some x →
     (CiaoUsage.Timestamp x + tenantUsagePeriod ≤ CiaoUsage.Timestamp u)%Z) →
  spaced (l ++ [u]).
Proof.
  intros Hs Hlast i a b Ha Hb.
  destruct (decide (S i < List.length l)%nat) as [Hlt | Hge].
  - rewrite lookup_app_l in Ha, Hb by lia. eauto.
  - assert (Hi : S i = List.length l).
    { apply lookup_lt_Some in Hb. rewrite length_app in Hb. simpl in Hb. lia. }
    rewrite lookup_app_l in Ha by lia.
    rewrite lookup_app_r in Hb by lia.
    replace (S i - List.length l)%nat with 0%nat in Hb by lia. injection Hb as <-.
    apply Hlast. rewrite last_lookup. by replace (pred (List.length l)) with i by lia.
Qed.

Lemma spaced_insert_last (l : list CiaoUsage.t) (x u : CiaoUsage.t) :
  spaced l → last l = Some x →
  CiaoUsage.Timestamp u = CiaoUsage.Timestamp x →
  spaced (<[(List.length l - 1)%nat := u]> l).
Proof.
  intros Hs Hlast Hts.
  assert (same : ∀ i a, <[(List.length l - 1)%nat := u]> l !! i = Some a →
            ∃ a0, l !! i = Some a0 ∧ CiaoUsage.Timestamp a0 = CiaoUsage.Timestamp a).
  { intros i a Ha. apply list_lookup_insert_Some in Ha as [(<- & <- & Hlt) | [Hne Ha]].
    - exists x. split; [| done]. rewrite last_lookup in Hlast.
      by replace (List.length l - 1)%nat with (pred (List.length l)) by lia.
    - eauto. }
  intros i a b Ha Hb.
  destruct (same _ _ Ha) as (a0 & Ha0 & <-).
  destruct (same _ _ Hb) as (b0 & Hb0 & <-). eauto.
Qed.

(** C8.  [updateTenantUsage] keeps the entries of a tenant's history at
    least five minutes apart, so their timestamps never decrease: a zero
    delta changes nothing, a delta less than five minutes after the last
    entry replaces that entry and keeps its timestamp and the length of the
    history, and a delta five minutes or more after the last entry, or with
    no entry yet, adds one entry stamped with the time of the addition.
    The clock does not run backwards between its two readings. *)
Theorem updateTenantUsage_spaced (sinceNow now : Z) (delta : CiaoUsage.t)
    (tenantID : string) (ds : Datastore) :
  (sinceNow ≤ now)%Z →
  spaced (usageHistory ds tenantID) →
  let l := usageHistory ds tenantID in
  let l' := usageHistory (updateTenantUsage sinceNow now delta tenantID ds) tenantID in
  spaced l' ∧ nondecreasing l' ∧
  (updateTenantUsageNeeded delta = false →
     updateTenantUsage sinceNow now delta tenantID ds = ds) ∧
  (updateTenantUsageNeeded delta = true →
     match last l with
     | Some x =>
       if (sinceNow - CiaoUsage.Timestamp x <? tenantUsagePeriod)%Z
       then l' = <[(List.length l - 1)%nat := addUsage x delta (CiaoUsage.Timestamp x)]> l ∧
            List.length l' = List.length l
       else l' = l ++ [addUsage x delta now]
     | None => l' = [addUsage zeroUsage delta now]
     end).
Proof.
  intros Hclock Hs l l'.
  assert (Hs' : spaced l').
  { subst l'. rewrite updateTenantUsage_history. cbn zeta. fold l.
    destruct (negb (updateTenantUsageNeeded delta)); [done |].
    destruct (last l) as [x |] eqn:Hl.
    - destruct (Z.ltb_spec (sinceNow - CiaoUsage.Timestamp x) tenantUsagePeriod).
      + by apply (spaced_insert_last l x).
      + apply spaced_app; [done |]. intros y Hy. rewrite Hl in Hy.
        injection Hy as <-. simpl. lia.
    - apply spaced_app; [done |]. congruence. }
  split; [done |]. split; [by apply spaced_nondecreasing |]. split.
  - intros Hn. unfold updateTenantUsage. by rewrite Hn.
  - intros Hn. subst l'. rewrite updateTenantUsage_history. cbn zeta. fold l.
    rewrite Hn. simpl.
    destruct (last l) as [x |] eqn:Hl.
    + destruct (sinceNow - CiaoUsage.Timestamp x <? tenantUsagePeriod)%Z; [| done].
      split; [done | by rewrite length_insert].
    + apply last_None in Hl. by rewrite Hl.
Qed.

Lemma spaced_singleton (u : CiaoUsage.t) : spaced [u].
Proof. intros [| i] a b Ha Hb; simpl in *; discriminate. Qed.

Lemma updateTenantUsage_spaced_witness :
  usageHistory (updateTenantUsage oneMinute oneMinute (usageAt 5 0) "tenant" dsUsage) "tenant"
    = [usageAt 15 0] ∧
  usageHistory (updateTenantUsage sixMinutes sixMinutes (usageAt 5 0) "tenant" dsUsage) "tenant"
    = [usageAt 10 0; usageAt 15 sixMinutes] ∧
  spaced (usageHistory
            (updateTenantUsage sixMinutes sixMinutes (usageAt 5 0) "tenant" dsUsage) "tenant").
Proof.
  split; [vm_compute; reflexivity |]. split; [vm_compute; reflexivity |].
  apply (updateTenantUsage_spaced sixMinutes sixMinutes (usageAt 5 0) "tenant" dsUsage).
  - vm_compute. discriminate.
  - apply spaced_singleton.
Defined.

(** ** Mapping an external address *)

Lemma scanSubnet_free (fuel : nat) (mapped : gmap string MappedIP.t) (ipNet : IPNet)
    (ip a : N) :
  scanSubnet fuel mapped ipNet ip = Some (Some a) → mapped !! IP_String a = None.
Proof.
  revert ip. induction fuel as [| fuel IH]; intros ip; simpl; [done |].
  destruct (Contains ipNet ip); [| done].
  destruct (mapped !! IP_String ip) eqn:Hm; [apply IH | congruence].
Qed.

Lemma searchSubnets_free (mapped : gmap string MappedIP.t) (subs : list ExternalSubnet.t)
    (address : string) :
  searchSubnets mapped subs = Found address → mapped !! address = None.
Proof.
  induction subs as [| sub subs IH]; cbn [searchSubnets]; [done |].
  destruct (ParseCIDR _) as [[? ipNet] |]; [| done].
  destruct (scanSubnet _ _ _ _) as [[a |] |] eqn:Hs; [| exact IH | done].
  intros [= <-]. by eapply scanSubnet_free.
Qed.

Lemma searchIPs_free (mapped : gmap string MappedIP.t) (IPs : list ExternalIP.t)
    (address : string) :
  searchIPs mapped IPs = Found address → mapped !! address = None.
Proof.
  induction IPs as [| ip IPs IH]; simpl; [done |].
  destruct (mapped !! ExternalIP.Address ip) eqn:Hm; [exact IH | congruence].
Qed.

(** C5, as the code has it.  In a run of [MapExternalIP] that returns: if
    [addMappedIP] fails, the call returns the wrapped error and the cache is
    what it was; if [updatePool] fails, which is after [addMappedIP] has
    succeeded, the call returns the wrapped error, [pools] is what it was,
    and the new mapping, written to the store, is in [mappedIPs]. *)
Theorem MapExternalIP_store_failure (db : persistentStore) (uuid poolID instanceID : string)
    (ds : Datastore) (r : MappedIP.t) (err : option error) (w : world) :
  run (MapExternalIP db uuid poolID instanceID) ds = Some ((r, err), w) →
  (∀ m seen e, Persist (addMappedIP m) seen ∈ log w →
     exec db (addMappedIP m) = Some e →
     err = Some (Wrapped "error adding IP mapping to database" e) ∧ cache w = ds) ∧
  (∀ p seen e, Persist (updatePool p) seen ∈ log w →
     exec db (updatePool p) = Some e →
     err = Some (Wrapped "error updating pool in database" e) ∧
     pools (cache w) = pools ds ∧
     ∃ m, exec db (addMappedIP m) = None ∧
          mappedIPs ds !! MappedIP.ExternalIP m = None ∧
          mappedIPs (cache w) = <[MappedIP.ExternalIP m := m]> (mappedIPs ds)).
Proof.
  intros Hrun. unfold MapExternalIP, GetInstance, mapAddress in Hrun.
  run_unfold. run_cases.
  all: split; intros ? ? ? Hin Hex; log_cases Hin; simplify_eq.
  all: try done.
  all: split; [done |]; split; [done |]; eexists; split; [eassumption |];
    split; [simpl | done].
  - by eapply searchSubnets_free.
  - by eapply searchIPs_free.
Qed.

Lemma mapped_world_run :
  run (MapExternalIP noUpdatePoolStore "m" "p" "i") dsPool
    = Some ((MappedIP.zero, Some (Wrapped "error updating pool in database"
                                    (ErrStore "updatePool"))), mapped_world).
Proof. vm_compute. reflexivity. Qed.

Lemma MapExternalIP_store_failure_witness :
  pools (cache mapped_world) = pools dsPool ∧
  ∃ m, mappedIPs (cache mapped_world) = <[MappedIP.ExternalIP m := m]> (mappedIPs dsPool) ∧
       MappedIP.ExternalIP m = "10.0.0.1".
Proof.
  destruct (MapExternalIP_store_failure _ _ _ _ _ _ _ _ mapped_world_run) as [_ Hup].
  edestruct Hup as (_ & Hpools & m & _ & _ & Hm).
  - cbn [log mapped_world]. apply list_elem_of_further, list_elem_of_here.
  - reflexivity.
  - split; [exact Hpools |]. exists m. split; [exact Hm |].
    assert (Hl : mappedIPs (cache mapped_world) !! MappedIP.ExternalIP m = Some m)
      by (rewrite Hm; apply lookup_insert_eq).
    destruct (decide (MappedIP.ExternalIP m = "10.0.0.1")) as [-> | Hne]; [done |].
    exfalso. revert Hl. 
    replace (mappedIPs (cache mapped_world))
      with (<["10.0.0.1" := {| MappedIP.ID := "m"; MappedIP.ExternalIP := "10.0.0.1";
                               MappedIP.InternalIP := "172.16.0.2";
                               MappedIP.InstanceID := "i"; MappedIP.TenantID := "tenant";
                               MappedIP.PoolID := "p"; MappedIP.PoolName := "pool" |}]>
              (∅ : gmap string MappedIP.t)) by (vm_compute; reflexivity).
    rewrite lookup_insert_ne by done. by rewrite lookup_empty.
Defined.

(** C5 as the specification words it fails: [updatePool] fails, the call
    returns an error, and the new mapping is in [mappedIPs]. *)
Lemma MapExternalIP_updatePool_failure_keeps_mapping :
  ¬ (∀ r err w,
       run (MapExternalIP noUpdatePoolStore "m" "p" "i") dsPool = Some ((r, err), w) →
       is_Some err ∧ mappedIPs (cache w) = mappedIPs dsPool).
Proof.
  intros H.
  destruct (H _ _ mapped_world mapped_world_run) as [_ Hm].
  vm_compute in Hm. discriminate Hm.
Qed.

(** ** External IP pools: overlap *)

Lemma prefixLengths_elem (a : N) : (a ≤ 32)%N → In a prefixLengths.
Proof.
  intros H. unfold prefixLengths. apply in_map_iff. exists (N.to_nat a).
  split; [lia |]. apply in_seq. lia.
Qed.

Lemma CIDRMask_nested (a b : N) :
  (a ≤ b)%N → (b ≤ 32)%N → N.land (CIDRMask b) (CIDRMask a) = CIDRMask a.
Proof.
  intros Hab Hb.
  assert (Hall : forallb (λ a, forallb (masks_nested a) prefixLengths) prefixLengths = true)
    by (vm_compute; reflexivity).
  rewrite forallb_forall in Hall.
  specialize (Hall a (prefixLengths_elem a ltac:(lia))).
  rewrite forallb_forall in Hall.
  specialize (Hall b (prefixLengths_elem b Hb)).
  unfold masks_nested in Hall.
  destruct (N.leb_spec a b); [| lia]. by apply N.eqb_eq.
Qed.

Lemma Contains_shorter (n1 n2 : IPNet) (ip : N) :
  (Ones n1 ≤ Ones n2)%N → (Ones n2 ≤ 32)%N →
  Contains n1 ip = true → Contains n2 ip = true → Contains n1 (IP n2) = true.
Proof.
  unfold Contains, Mask. intros H12 H2 C1%N.eqb_eq C2%N.eqb_eq. apply N.eqb_eq.
  rewrite C1.
  rewrite <- (CIDRMask_nested (Ones n1) (Ones n2)) by done.
  rewrite !N.land_assoc. by rewrite C2.
Qed.

(** Networks that overlap are caught by the two [Contains] of
    [isDuplicateSubnet]. *)
Lemma overlaps_Contains (old new : IPNet) :
  (Ones old ≤ 32)%N → (Ones new ≤ 32)%N → overlaps old new →
  Contains old (IP new) || Contains new (IP old) = true.
Proof.
  intros Ho Hn (ip & Co & Cn). apply orb_true_iff.
  destruct (N.le_ge_cases (Ones old) (Ones new)).
  - left. by apply (Contains_shorter old new ip).
  - right. by apply (Contains_shorter new old ip).
Qed.

Lemma ParseCIDR_Ones (s : string) (ip : N) (n : IPNet) :
  ParseCIDR s = Some (ip, n) → (Ones n ≤ 32)%N.
Proof.
  unfold ParseCIDR. destruct (split_slash s) as [[addr mask] |]; [| done].
  destruct (ParseIP addr); [| done].
  destruct (dtoi mask) as [[[k ?] [|]] |]; try done.
  destruct (N.ltb_spec 32 k); [done |]. intros [= <- <-]. simpl. lia.
Qed.

(** ** External IP pools: the index of subnets and addresses *)

Lemma isDuplicateSubnet_true (ds : Datastore) (new : IPNet) :
  isDuplicateSubnet ds new = true ↔ listedSubnet (externalSubnets ds) new.
Proof.
  unfold isDuplicateSubnet, listedSubnet. rewrite existsb_exists. split.
  - intros ([k b] & Hin & Hb). apply list_elem_of_In, elem_of_map_to_list in Hin.
    simpl in Hb. apply andb_true_iff in Hb as [-> Hc].
    destruct (ParseCIDR k) as [[ip0 old] |] eqn:Hp; [| done]. eauto 6.
  - intros (k & ip0 & old & Hk & Hp & Hc). exists (k, true). split.
    + by apply list_elem_of_In, elem_of_map_to_list.
    + simpl. by rewrite Hp.
Qed.

Lemma listedSubnet_insert (m : gmap string bool) (k : string) (new : IPNet) :
  listedSubnet m new → listedSubnet (<[k := true]> m) new.
Proof.
  intros (k' & ip0 & old & Hk & Hp & Hc). exists k', ip0, old. split; [| done].
  destruct (decide (k = k')) as [<- | Hne];
    [by rewrite lookup_insert_eq | by rewrite lookup_insert_ne].
Qed.

Lemma subnetTaken_listed (ds : Datastore) (ip : N) (s : string) (new : IPNet) :
  pools_indexed ds → ParseCIDR s = Some (ip, new) → subnetTaken ds new →
  listedSubnet (externalSubnets ds) new.
Proof.
  intros (Hsub & _ & _) Hnew (cidr & ip0 & old & Hpool & Hp & Hov).
  exists cidr, ip0, old. split; [by apply Hsub |]. split; [done |].
  apply overlaps_Contains; [by eapply ParseCIDR_Ones | by eapply ParseCIDR_Ones | done].
Qed.

Lemma isDuplicateIP_taken (ds : Datastore) (ip : N) :
  pools_indexed ds → addressTaken ds ip → isDuplicateIP ds ip = true.
Proof.
  intros (Hsub & _ & Hip) Htaken. unfold isDuplicateIP. apply orb_true_iff.
  destruct Htaken as [(address & Hpool & Hp) | (cidr & ip0 & old & Hpool & Hp & Hc)].
  - right. destruct (Hip _ Hpool) as (ip' & Hp' & Hidx).
    assert (ip' = ip) as -> by congruence. by rewrite Hidx.
  - left. apply existsb_exists. exists (cidr, true). split.
    + by apply list_elem_of_In, elem_of_map_to_list, Hsub.
    + simpl. by rewrite Hp.
Qed.

(** ** External IP pools: refusals *)

(** The loop of [AddPool] over subnets of which one is caught. *)
Lemma addPoolSubnets_refuses (subs : list ExternalSubnet.t) (ds : Datastore)
    (l : list event) :
  Forall parsesCIDR subs →
  Exists (λ sub, ∃ ip new, ParseCIDR (ExternalSubnet.CIDR sub) = Some (ip, new) ∧
                           listedSubnet (externalSubnets ds) new) subs →
  ∃ ds', addPoolSubnets subs {| cache := ds; log := l |}
           = Some (Some ErrDuplicateSubnet, {| cache := ds'; log := l |}) ∧
         pools ds' = pools ds.
Proof.
  revert ds. induction subs as [| sub subs IH]; intros ds Hparse Hex.
  - by apply Exists_nil in Hex.
  - apply Forall_cons in Hparse as [[[ip new] Hp] Hparse].
    cbn [addPoolSubnets]. rewrite Hp. run_unfold.
    destruct (isDuplicateSubnet ds new) eqn:Hdup; [by eexists |].
    apply Exists_cons in Hex as [(ip' & new' & Hp' & Hl) | Hex].
    { rewrite Hp in Hp'. injection Hp' as <- <-.
      apply isDuplicateSubnet_true in Hl. congruence. }
    run_step. destruct (IH (set_externalSubnets <[ExternalSubnet.CIDR sub := true]> ds))
      as (ds' & -> & Hpools); [done | |].
    { eapply Exists_impl; [exact Hex |]. intros s (ip' & new' & Hp' & Hl).
      exists ip', new'. split; [done |]. simpl. by apply listedSubnet_insert. }
    by exists ds'.
Qed.

Lemma addPoolSubnets_single (sub : ExternalSubnet.t) (ds : Datastore) (l : list event) :
  Exists (λ sub, ∃ ip new, ParseCIDR (ExternalSubnet.CIDR sub) = Some (ip, new) ∧
                           listedSubnet (externalSubnets ds) new) [sub] →
  addPoolSubnets [sub] {| cache := ds; log := l |}
    = Some (Some ErrDuplicateSubnet, {| cache := ds; log := l |}).
Proof.
  intros [(ip & new & Hp & Hl%isDuplicateSubnet_true) | Hex%Exists_nil]%Exists_cons;
    [| done].
  cbn [addPoolSubnets]. rewrite Hp. run_unfold. by rewrite Hl.
Qed.

Lemma checkPoolIPs_refuses (ds : Datastore) (IPs : list ExternalIP.t) (acc : list N) :
  Forall (λ ip, parsesIP (ExternalIP.Address ip)) IPs →
  Exists (λ ip, ∃ a, ParseIP (ExternalIP.Address ip) = Some a ∧
                     isDuplicateIP ds a = true) IPs →
  checkPoolIPs ds IPs acc = inl ErrDuplicateIP.
Proof.
  revert acc. induction IPs as [| ip IPs IH]; intros acc Hparse Hex.
  - by apply Exists_nil in Hex.
  - apply Forall_cons in Hparse as [[a Hp] Hparse]. simpl. rewrite Hp.
    destruct (isDuplicateIP ds a) eqn:Hdup; [done |].
    apply Exists_cons in Hex as [(a' & Hp' & Hd) | Hex]; [congruence |].
    by apply IH.
Qed.

Lemma extendPoolIPs_refuses (ds : Datastore) (uuids : nat → string) (IPs : list string)
    (n : nat) (lastIP : string) (p : Pool.t) :
  Forall parsesIP IPs →
  Exists (λ s, ∃ a, ParseIP s = Some a ∧ isDuplicateIP ds a = true) IPs →
  extendPoolIPs ds uuids n lastIP IPs p = inl ErrDuplicateIP.
Proof.
  revert n lastIP p. induction IPs as [| s IPs IH]; intros n lastIP p Hparse Hex.
  - by apply Exists_nil in Hex.
  - apply Forall_cons in Hparse as [[a Hp] Hparse]. simpl.
    destruct (decide (lastIP = s)); [done |]. rewrite Hp.
    destruct (isDuplicateIP ds a) eqn:Hdup; [done |].
    apply Exists_cons in Hex as [(a' & Hp' & Hd) | Hex]; [congruence |].
    by apply IH.
Qed.

Lemma insertString_perm (x : string) (l : list string) : insertString x l ≡ₚ x :: l.
Proof.
  induction l as [| y l IH]; simpl; [done |].
  destruct (String.leb x y); [done |]. rewrite IH. apply perm_swap.
Qed.

Lemma sortStrings_perm (l : list string) : sortStrings l ≡ₚ l.
Proof.
  induction l as [| x l IH]; simpl; [done |].
  rewrite insertString_perm. by rewrite IH.
Qed.

(** C7.  With the tables of subnets and addresses listing what the pools
    hold: [AddPool] with subnets that parse, one of which overlaps a subnet
    of a pool, returns [ErrDuplicateSubnet], calls no store and leaves
    [pools] as it is; [AddPool] with addresses that parse, one of which is in
    a pool or covered by a subnet of a pool, returns [ErrDuplicateIP] and
    leaves the cache as it is; [AddExternalSubnet] and [AddExternalIPs] on a
    pool of the cache do the same. *)
Theorem pool_duplicates_refused (db : persistentStore) (ds : Datastore) :
  pools_indexed ds →
  (∀ pool,
     Pool.Subnets pool ≠ [] → Forall parsesCIDR (Pool.Subnets pool) →
     Exists (λ sub, ∃ ip new, ParseCIDR (ExternalSubnet.CIDR sub) = Some (ip, new) ∧
                              subnetTaken ds new) (Pool.Subnets pool) →
     ∃ ds', run (AddPool db pool) ds
              = Some (Some ErrDuplicateSubnet, {| cache := ds'; log := [] |}) ∧
            pools ds' = pools ds ∧
            (List.length (Pool.Subnets pool) = 1%nat → ds' = ds)) ∧
  (∀ pool,
     Pool.Subnets pool = [] →
     Forall (λ ip, parsesIP (ExternalIP.Address ip)) (Pool.IPs pool) →
     Exists (λ ip, ∃ a, ParseIP (ExternalIP.Address ip) = Some a ∧ addressTaken ds a)
       (Pool.IPs pool) →
     run (AddPool db pool) ds = Some (Some ErrDuplicateIP, {| cache := ds; log := [] |})) ∧
  (∀ uuid poolID subnet ip new,
     is_Some (pools ds !! poolID) → ParseCIDR subnet = Some (ip, new) →
     subnetTaken ds new →
     run (AddExternalSubnet db uuid poolID subnet) ds
       = Some (Some ErrDuplicateSubnet, {| cache := ds; log := [] |})) ∧
  (∀ uuids poolID IPs,
     is_Some (pools ds !! poolID) → Forall parsesIP IPs →
     Exists (λ s, ∃ a, ParseIP s = Some a ∧ addressTaken ds a) IPs →
     run (AddExternalIPs db uuids poolID IPs) ds
       = Some (Some ErrDuplicateIP, {| cache := ds; log := [] |})).
Proof.
  intros Hidx. repeat apply conj.
  - intros pool Hne Hparse Hex. unfold run, AddPool, checkPool.
    destruct (Pool.Subnets pool) as [| sub subs] eqn:Hsubs; [done |].
    unfold bind at 1.
    assert (Hl : Exists (λ sub, ∃ ip new,
                   ParseCIDR (ExternalSubnet.CIDR sub) = Some (ip, new) ∧
                   listedSubnet (externalSubnets ds) new) (sub :: subs)).
    { eapply Exists_impl; [exact Hex |]. intros s (ip & new & Hp & Ht).
      exists ip, new. split; [done |]. by eapply subnetTaken_listed. }
    destruct subs as [| sub2 subs].
    + rewrite (addPoolSubnets_single sub ds []) by done. by exists ds.
    + edestruct (addPoolSubnets_refuses (sub :: sub2 :: subs) ds [])
        as (ds' & -> & Hpools); [done | done |].
      exists ds'. split; [done |]. split; [done |]. simpl. lia.
  - intros pool Hsubs Hparse Hex. unfold run, AddPool, checkPool. rewrite Hsubs.
    destruct (Pool.IPs pool) as [| ip0 ips] eqn:Hips; [by apply Exists_nil in Hex |].
    run_unfold. rewrite checkPoolIPs_refuses; [done | done |].
    eapply Exists_impl; [exact Hex |]. intros ip (a & Hp & Ht).
    exists a. split; [done |]. by apply isDuplicateIP_taken.
  - intros uuid poolID subnet ip new [p Hp] Hparse Ht. unfold run, AddExternalSubnet.
    rewrite Hparse. run_unfold. rewrite Hp.
    assert (isDuplicateSubnet ds new = true) as ->; [| done].
    apply isDuplicateSubnet_true. by eapply subnetTaken_listed.
  - intros uuids poolID IPs [p Hp] Hparse Hex. unfold run, AddExternalIPs.
    run_unfold. rewrite Hp. rewrite extendPoolIPs_refuses; [done | |].
    + by rewrite sortStrings_perm.
    + rewrite sortStrings_perm.
      eapply Exists_impl; [exact Hex |]. intros s (a & Hpa & Ht).
      exists a. split; [done |]. by apply isDuplicateIP_taken.
Qed.

Lemma AddPool_A :
  run (AddPool okStore poolA) emptyDatastore
    = Some (None, {| cache := dsA; log := [Persist (addPool poolA) dsA] |}).
Proof. vm_compute. reflexivity. Qed.

Lemma poolSubnet_dsA : poolSubnet dsA "10.0.0.0/24".
Proof.
  exists "A", poolA, subnetA. split; [reflexivity |].
  split; [apply list_elem_of_here | reflexivity].
Qed.

Lemma pools_indexed_dsA : pools_indexed dsA.
Proof.
  split; [| split].
  - intros cidr (id & p & sub & Hp & Hin & <-). simpl in Hp.
    apply lookup_singleton_Some in Hp as [<- <-]. simpl in Hin.
    apply list_elem_of_singleton in Hin as ->. reflexivity.
  - intros cidr H. simpl in H. apply lookup_singleton_Some in H as [<- _].
    vm_compute. by eexists.
  - intros address (id & p & ip & Hp & Hin & _). simpl in Hp.
    apply lookup_singleton_Some in Hp as [<- <-]. simpl in Hin.
    by apply elem_of_nil in Hin.
Qed.

Lemma subnetTaken_dsA : subnetTaken dsA net_10_0_0_128_25.
Proof.
  exists "10.0.0.0/24", 167772160%N, net_10_0_0_0_24.
  split; [apply poolSubnet_dsA |]. split; [vm_compute; reflexivity |].
  exists 167772288%N. split; vm_compute; reflexivity.
Qed.

Lemma addressTaken_dsA : addressTaken dsA ip_10_0_0_5.
Proof.
  right. exists "10.0.0.0/24", 167772160%N, net_10_0_0_0_24.
  split; [apply poolSubnet_dsA |]. split; vm_compute; reflexivity.
Qed.

Lemma pool_duplicates_refused_witness :
  run (AddPool okStore poolB) dsA
    = Some (Some ErrDuplicateSubnet, {| cache := dsA; log := [] |}) ∧
  run (AddPool okStore poolC) dsA
    = Some (Some ErrDuplicateIP, {| cache := dsA; log := [] |}) ∧
  run (AddExternalSubnet okStore "u" "A" "10.0.0.128/25") dsA
    = Some (Some ErrDuplicateSubnet, {| cache := dsA; log := [] |}) ∧
  run (AddExternalIPs okStore (λ _, "u") "A" ["10.0.0.5"]) dsA
    = Some (Some ErrDuplicateIP, {| cache := dsA; log := [] |}).
Proof.
  destruct (pool_duplicates_refused okStore dsA pools_indexed_dsA)
    as (Hsub & Hip & Hext & Hips).
  split; [| split; [| split]].
  - destruct (Hsub poolB) as (ds' & Hrun & _ & Hone).
    + discriminate.
    + constructor; [vm_compute; by eexists | constructor].
    + apply Exists_cons_hd. exists 167772288%N, net_10_0_0_128_25.
      split; [vm_compute; reflexivity | apply subnetTaken_dsA].
    + rewrite Hrun. by rewrite (Hone eq_refl).
  - apply Hip.
    + reflexivity.
    + constructor; [vm_compute; by eexists | constructor].
    + apply Exists_cons_hd. exists ip_10_0_0_5.
      split; [vm_compute; reflexivity | apply addressTaken_dsA].
  - apply (Hext "u" "A" "10.0.0.128/25" 167772288%N net_10_0_0_128_25).
    + by eexists.
    + vm_compute. reflexivity.
    + apply subnetTaken_dsA.
  - apply Hips.
    + by eexists.
    + constructor; [vm_compute; by eexists | constructor].
    + apply Exists_cons_hd. exists ip_10_0_0_5.
      split; [vm_compute; reflexivity | apply addressTaken_dsA].
Defined.

(** ** The order of store and cache in the write paths *)

Lemma store_first_DeleteWorkload (db : persistentStore) (id : string) :
  store_first is_Some (DeleteWorkload db id).
Proof. unfold DeleteWorkload. store_first_tac. Qed.

Lemma store_first_DeleteStorageAttachment (db : persistentStore) (id : string) :
  store_first is_Some (DeleteStorageAttachment db id).
Proof. unfold DeleteStorageAttachment. store_first_tac. Qed.

Lemma store_first_AddBlockDevice (db : persistentStore) (device : Volume.t) :
  store_first is_Some (AddBlockDevice db device).
Proof. unfold AddBlockDevice. store_first_tac. Qed.

Lemma store_first_UpdateBlockDevice (db : persistentStore) (data : Volume.t) :
  store_first is_Some (UpdateBlockDevice db data).
Proof. unfold UpdateBlockDevice, AddBlockDevice. store_first_tac. Qed.

Lemma store_first_CreateStorageAttachment (db : persistentStore)
    (uuid instanceID : string) (volume : StorageResource.t) :
  store_first (λ r, is_Some (snd r)) (CreateStorageAttachment db uuid instanceID volume).
Proof.
  unfold CreateStorageAttachment, GetBlockDevice, UpdateBlockDevice, AddBlockDevice.
  store_first_tac.
Qed.

Lemma store_first_AddExternalSubnet (db : persistentStore) (uuid poolID subnet : string) :
  store_first is_Some (AddExternalSubnet db uuid poolID subnet).
Proof. unfold AddExternalSubnet. store_first_tac. Qed.

Lemma store_first_AddExternalIPs (db : persistentStore) (uuids : nat → string)
    (poolID : string) (IPs : list string) :
  store_first is_Some (AddExternalIPs db uuids poolID IPs).
Proof. unfold AddExternalIPs. store_first_tac. Qed.

(** The loop of [AddPool] over subnets calls no store and leaves [pools]
    alone. *)
Lemma addPoolSubnets_frame (subs : list ExternalSubnet.t) (w : world)
    (r : option error) (w' : world) :
  addPoolSubnets subs w = Some (r, w') →
  log w' = log w ∧ pools (cache w') = pools (cache w).
Proof.
  revert w. induction subs as [| sub subs IH]; intros w; cbn [addPoolSubnets].
  - run_unfold. by intros [= <- <-].
  - destruct (ParseCIDR _) as [[ip new] |]; run_unfold; [| by intros [= <- <-]].
    destruct (isDuplicateSubnet _ _); [by intros [= <- <-] |].
    intros H%IH. by run_step.
Qed.

Lemma checkPool_frame (pool : Pool.t) (w : world) (r : option error) (w' : world) :
  checkPool pool w = Some (r, w') →
  log w' = log w ∧ pools (cache w') = pools (cache w).
Proof.
  unfold checkPool. destruct (Pool.Subnets pool); [destruct (Pool.IPs pool) |].
  - run_unfold. by intros [= <- <-].
  - run_unfold. destruct (checkPoolIPs _ _ _); by intros [= <- <-].
  - apply addPoolSubnets_frame.
Qed.

(** [AddPool]: the pool is in the cache when [addPool] is issued; when the
    store refuses it, the error comes back wrapped after [DeletePool] has
    run, and a pool with all its addresses free is out of the cache again. *)
Lemma AddPool_cache_first (db : persistentStore) (pool : Pool.t) (ds : Datastore)
    (err : option error) (w : world) (seen : Datastore) :
  run (AddPool db pool) ds = Some (err, w) →
  Persist (addPool pool) seen ∈ log w →
  pools seen !! Pool.ID pool = Some pool ∧
  ∀ e, exec db (addPool pool) = Some e →
     err = Some (Wrapped "error adding pool to database" e) ∧
     (Pool.Free pool = Pool.TotalIPs pool → pools (cache w) !! Pool.ID pool = None).
Proof.
  unfold run, AddPool, DeletePool. intros Hrun Hin.
  unfold bind at 1 in Hrun.
  destruct (checkPool pool _) as [[refused [ds0 l0]] |] eqn:Hcheck; [| done].
  apply checkPool_frame in Hcheck as [Hlog0 _]. simpl in Hlog0. subst l0.
  run_unfold. run_cases; log_cases Hin; simplify_eq; simpl in *.
  all: rewrite ?lookup_insert_eq in *; simplify_eq.
  all: (split; [done |]).
  all: intros e0 He0; simplify_eq.
  all: (split; [done |]); intros Hfree.
  all: done || by rewrite lookup_delete_eq.
Qed.

(** As the code has it, for C1.  The write paths [DeleteWorkload],
    [AddBlockDevice], [UpdateBlockDevice], [CreateStorageAttachment],
    [DeleteStorageAttachment], [AddExternalSubnet] and [AddExternalIPs] call
    the store on the cache as it was before the call, write to the cache
    only after that, and leave the cache as it was when they return an
    error.  [AddPool] has the pool in the cache when it calls [addPool], and
    makes up for a refusal of the store by [DeletePool]. *)
Theorem write_paths_store_and_cache (db : persistentStore) :
  (∀ id, store_first is_Some (DeleteWorkload db id)) ∧
  (∀ device, store_first is_Some (AddBlockDevice db device)) ∧
  (∀ data, store_first is_Some (UpdateBlockDevice db data)) ∧
  (∀ uuid instanceID volume,
     store_first (λ r, is_Some (snd r)) (CreateStorageAttachment db uuid instanceID volume)) ∧
  (∀ id, store_first is_Some (DeleteStorageAttachment db id)) ∧
  (∀ uuid poolID subnet, store_first is_Some (AddExternalSubnet db uuid poolID subnet)) ∧
  (∀ uuids poolID IPs, store_first is_Some (AddExternalIPs db uuids poolID IPs)) ∧
  (∀ pool ds err w seen,
     run (AddPool db pool) ds = Some (err, w) →
     Persist (addPool pool) seen ∈ log w →
     pools seen !! Pool.ID pool = Some pool ∧
     ∀ e, exec db (addPool pool) = Some e →
       err = Some (Wrapped "error adding pool to database" e) ∧
       (Pool.Free pool = Pool.TotalIPs pool → pools (cache w) !! Pool.ID pool = None)).
Proof.
  split; [intros; apply store_first_DeleteWorkload |].
  split; [intros; apply store_first_AddBlockDevice |].
  split; [intros; apply store_first_UpdateBlockDevice |].
  split; [intros; apply store_first_CreateStorageAttachment |].
  split; [intros; apply store_first_DeleteStorageAttachment |].
  split; [intros; apply store_first_AddExternalSubnet |].
  split; [intros; apply store_first_AddExternalIPs |].
  intros. by eapply AddPool_cache_first.
Qed.

(** C1 as the specification words it fails for [AddPool]: the store is
    called with the pool in the cache already. *)
Lemma AddPool_not_store_first :
  ¬ store_first is_Some (AddPool noAddPoolStore poolA).
Proof.
  intros H.
  destruct (H emptyDatastore (Some (Wrapped "error adding pool to database" (ErrStore "addPool")))
              {| cache := emptyDatastore;
                 log := [Persist (addPool poolA) dsA; Persist (deletePool "A") dsA] |})
    as [Hseen _]; [vm_compute; reflexivity |].
  specialize (Hseen (addPool poolA) dsA (list_elem_of_here _ _)).
  vm_compute in Hseen. discriminate Hseen.
Qed.

(** Two write paths that the theorem above leaves out.  [DeleteTenant] takes
    the tenant out of the cache and then calls the store; when the store
    refuses, the tenant is gone from the cache all the same.  [DeleteImage]
    calls no store at all. *)
Lemma DeleteTenant_store_failure (db : persistentStore) (ID : string) (ds : Datastore)
    (t : tenant.t) (e : error) :
  tenants ds !! ID = Some t →
  exec db (deleteTenant ID) = Some e →
  run (DeleteTenant db ID) ds
    = Some (Some e, {| cache := set_tenants (delete ID) ds;
                       log := [Persist (deleteTenant ID) (set_tenants (delete ID) ds)] |}).
Proof. intros Ht He. unfold DeleteTenant. run_unfold. by rewrite Ht, He. Qed.

Lemma DeleteImage_no_store_call (ID : string) (ds : Datastore)
    (r : option error) (w : world) :
  run (DeleteImage ID) ds = Some (r, w) → log w = [].
Proof.
  unfold DeleteImage. intros Hrun. run_unfold.
  repeat (run_step; simplify_eq; try case_match); done.
Qed.

(** * More properties *)

Lemma land_CIDRMask (x ones : N) :
  (x < 2 ^ 32)%N → (ones ≤ 32)%N →
  N.land x (CIDRMask ones) = (x - x mod 2 ^ (32 - ones))%N.
Proof.
  intros Hx Hones. unfold CIDRMask. set (k := (32 - ones)%N).
  assert (Hk : (k ≤ 32)%N) by lia.
  assert (HM : (2 ^ 32 - 2 ^ k = N.shiftl (N.ones (32 - k)) k)%N).
  { rewrite N.shiftl_mul_pow2, N.ones_equiv, N.pred_sub, N.mul_sub_distr_r, <- N.pow_add_r.
    replace (32 - k + k)%N with 32%N by lia. lia. }
  assert (HR : (x - x mod 2 ^ k = N.shiftl (N.shiftr x k) k)%N).
  { rewrite N.shiftl_mul_pow2, N.shiftr_div_pow2.
    pose proof (N.div_mod x (2 ^ k)) as Hd.
    rewrite (N.mul_comm (x / 2 ^ k)). set (q := (2 ^ k * (x / 2 ^ k))%N) in *. lia. }
  rewrite HM, HR. apply N.bits_inj. intros i. rewrite N.land_spec.
  destruct (N.lt_ge_cases i k).
  - rewrite !N.shiftl_spec_low by done. by rewrite andb_false_r.
  - rewrite !N.shiftl_spec_high' by done. rewrite N.shiftr_spec', N.sub_add by done.
    destruct (N.lt_ge_cases i 32).
    + rewrite N.ones_spec_low by lia. by rewrite andb_true_r.
    + rewrite N.ones_spec_high by lia. rewrite andb_false_r.
      rewrite <- (N.mod_small x (2 ^ 32)) by done.
      by rewrite N.mod_pow2_bits_high.
Qed.

Lemma CIDRMask_shiftl (ones : N) :
  (ones ≤ 32)%N → CIDRMask ones = N.shiftl (N.ones ones) (32 - ones).
Proof.
  intros H. unfold CIDRMask.
  rewrite N.shiftl_mul_pow2, N.ones_equiv, N.pred_sub, N.mul_sub_distr_r, <- N.pow_add_r.
  replace (ones + (32 - ones))%N with 32%N by lia. lia.
Qed.

Lemma land_CIDRMask_aligned (x ones : N) :
  (ones ≤ 32)%N → (N.land x (CIDRMask ones) mod 2 ^ (32 - ones) = 0)%N.
Proof.
  intros H. rewrite CIDRMask_shiftl by done. apply N.bits_inj. intros i.
  rewrite N.bits_0. destruct (N.lt_ge_cases i (32 - ones)).
  - rewrite N.mod_pow2_bits_low, N.land_spec, N.shiftl_spec_low by done.
    by rewrite andb_false_r.
  - by rewrite N.mod_pow2_bits_high.
Qed.

Lemma hostsLoop_consistent (num : Z) (start subnetNum : N) (hosts : list Z)
    (st : alloc_state) :
  alloc_consistent st →
  alloc_consistent (hosts_state (hostsLoop num start subnetNum hosts st)).
Proof.
  revert st. induction hosts as [| h hosts IH]; intros st C; simpl; [done |].
  destruct (netmap_get (net st) subnetNum _); simpl; [by apply IH |].
  fold (marked subnetNum st (u32 (start + u32 (Z.to_N h)))).
  set (st1 := marked subnetNum st _).
  assert (alloc_consistent st1).
  { destruct C as [C1 C2]. split; simpl.
    - by rewrite C1, fmap_app.
    - rewrite length_app. simpl. lia. }
  destruct (hostCount st + 1 =? num)%Z; simpl; [done | by apply IH].
Qed.

Lemma hostsLoop_Reached (num : Z) (start subnetNum : N) (hosts : list Z)
    (st st' : alloc_state) :
  hostsLoop num start subnetNum hosts st = Reached st' → hostCount st' = num.
Proof.
  revert st. induction hosts as [| h hosts IH]; intros st; simpl; [done |].
  destruct (netmap_get (net st) subnetNum _); simpl; [by apply IH |].
  destruct (Z.eqb_spec (hostCount st + 1) num) as [E | _]; [| by apply IH].
  by intros [= <-].
Qed.

Lemma hostsLoop_Forall (Q : tenantIP → Prop) (num : Z) (start subnetNum : N)
    (hosts : list Z) (st : alloc_state) :
  (∀ h, h ∈ hosts → Q {| subnet := subnetNum; host := u32 (start + u32 (Z.to_N h)) |}) →
  Forall Q (tenantAddrs st) →
  Forall Q (tenantAddrs (hosts_state (hostsLoop num start subnetNum hosts st))).
Proof.
  revert st. induction hosts as [| h hosts IH]; intros st HQ F; simpl; [done |].
  assert (HQ' : ∀ h', h' ∈ hosts →
            Q {| subnet := subnetNum; host := u32 (start + u32 (Z.to_N h')) |}).
  { intros h' Hh'. apply HQ. by apply list_elem_of_further. }
  destruct (netmap_get (net st) subnetNum _); simpl; [by apply IH |].
  fold (marked subnetNum st (u32 (start + u32 (Z.to_N h)))).
  set (st1 := marked subnetNum st _).
  assert (Forall Q (tenantAddrs st1)).
  { simpl. apply Forall_app. split; [done |]. apply Forall_singleton, HQ, list_elem_of_here. }
  destruct (hostCount st + 1 =? num)%Z; simpl; [done | by apply IH].
Qed.

Lemma addrs_below_mono (b b' : N) (st : alloc_state) :
  (b ≤ b')%N → addrs_below b st → addrs_below b' st.
Proof.
  intros Hb [S F]. split; [done |]. eapply Forall_impl; [exact F |]. simpl. lia.
Qed.

Lemma hostsLoop_sorted (num : Z) (start subnetNum : N) (n : nat) (lo : Z)
    (st : alloc_state) :
  (0 ≤ lo)%Z → (start + Z.to_N lo + N.of_nat n ≤ 2 ^ 32)%N →
  addrs_below (start + Z.to_N lo) st →
  addrs_below (start + Z.to_N lo + N.of_nat n)
    (hosts_state (hostsLoop num start subnetNum (seqZ lo (Z.of_nat n)) st)).
Proof.
  revert lo st. induction n as [| n IH]; intros lo st Hlo Hhi B.
  { simpl. eapply addrs_below_mono; [| exact B]. lia. }
  rewrite seqZ_cons by lia.
  replace (Z.pred (Z.of_nat (S n))) with (Z.of_nat n) by lia.
  assert (Hnext : (start + Z.to_N (Z.succ lo) + N.of_nat n
                   = start + Z.to_N lo + N.of_nat (S n))%N) by lia.
  simpl hostsLoop.
  destruct (netmap_get (net st) subnetNum _); cbn [negb].
  { rewrite <- Hnext. apply IH; [lia | lia |].
    eapply addrs_below_mono; [| exact B]. lia. }
  fold (marked subnetNum st (u32 (start + u32 (Z.to_N lo)))).
  set (st1 := marked subnetNum st _).
  assert (Ha : u32 (start + u32 (Z.to_N lo)) = (start + Z.to_N lo)%N).
  { unfold u32. rewrite (N.mod_small (Z.to_N lo)) by lia. apply N.mod_small. lia. }
  assert (B1 : addrs_below (start + Z.to_N (Z.succ lo)) st1).
  { destruct B as [S F]. unfold st1. split; simpl; rewrite Ha.
    - apply StronglySorted_app; repeat split; [| done | repeat constructor].
      intros x1 x2 H1 ->%list_elem_of_singleton.
      rewrite Forall_forall in F. by apply F.
    - apply Forall_app. split.
      + eapply Forall_impl; [exact F |]. simpl. lia.
      + apply Forall_singleton. lia. }
  destruct (hostCount st + 1 =? num)%Z; cbn [hosts_state].
  - eapply addrs_below_mono; [| exact B1]. lia.
  - rewrite <- Hnext. apply IH; [lia | lia | done].
Qed.

Section ScanMore.

Context (num maxHosts : Z) (mask end_ : N).

Lemma scan_consistent (fuel : nat) (start : N) (st : alloc_state) (res : scan_result) :
  scan fuel num maxHosts mask end_ start st = Some res →
  alloc_consistent st → alloc_consistent (scan_state res).
Proof.
  revert start st. induction fuel as [| fuel IH]; intros start st; simpl; [done |].
  destruct (end_ <=? start)%N; [by intros [= <-] |].
  set (st1 := {| net := ensure_subnet (net st) (N.land start mask); addrs := addrs st;
                 tenantAddrs := tenantAddrs st; hostCount := hostCount st |}).
  intros Hscan C.
  pose proof (hostsLoop_consistent num start (N.land start mask)
                (seqZ 2 (maxHosts - 3)) st1 C) as C2.
  destruct (hostsLoop _ _ _ _ _) as [st2 | st2]; cbn [hosts_state] in C2.
  - by eapply IH.
  - by injection Hscan as <-.
Qed.

Lemma scan_Claim (fuel : nat) (start : N) (st st' : alloc_state) :
  scan fuel num maxHosts mask end_ start st = Some (Claim st') → hostCount st' = num.
Proof.
  revert start st. induction fuel as [| fuel IH]; intros start st; simpl; [done |].
  destruct (end_ <=? start)%N; [done |].
  destruct (hostsLoop _ _ _ _ _) as [st2 | st2] eqn:Hh.
  - apply IH.
  - intros [= <-]. by eapply hostsLoop_Reached.
Qed.

Lemma scan_Forall (Q : tenantIP → Prop) (R : N → Prop)
    (fuel : nat) (start : N) (st : alloc_state) (res : scan_result) :
  (∀ s, R s → (s < end_)%N →
     R (u32 (s + u32 (Z.to_N maxHosts))) ∧
     ∀ h, h ∈ seqZ 2 (maxHosts - 3) →
       Q {| subnet := N.land s mask; host := u32 (s + u32 (Z.to_N h)) |}) →
  R start →
  scan fuel num maxHosts mask end_ start st = Some res →
  Forall Q (tenantAddrs st) → Forall Q (tenantAddrs (scan_state res)).
Proof.
  intros Hstep. revert start st.
  induction fuel as [| fuel IH]; intros start st HR; simpl; [done |].
  destruct (N.leb_spec end_ start) as [_ | Hlt]; [by intros [= <-] |].
  set (st1 := {| net := ensure_subnet (net st) (N.land start mask); addrs := addrs st;
                 tenantAddrs := tenantAddrs st; hostCount := hostCount st |}).
  intros Hscan F. destruct (Hstep start HR Hlt) as [HR' HQ].
  pose proof (hostsLoop_Forall Q num start (N.land start mask)
                (seqZ 2 (maxHosts - 3)) st1 HQ F) as F2.
  destruct (hostsLoop _ _ _ _ _) as [st2 | st2]; cbn [hosts_state] in F2.
  - by eapply IH.
  - by injection Hscan as <-.
Qed.

Lemma scan_sorted (fuel : nat) (start : N) (st : alloc_state) (res : scan_result) :
  (3 ≤ maxHosts)%Z → (end_ + Z.to_N maxHosts ≤ 2 ^ 32)%N →
  scan fuel num maxHosts mask end_ start st = Some res →
  addrs_below (start + 2) st → StronglySorted N.lt (addrs (scan_state res)).
Proof.
  intros Hmax Hend. revert start st.
  induction fuel as [| fuel IH]; intros start st; simpl; [done |].
  destruct (N.leb_spec end_ start) as [_ | Hlt]; [by intros [= <-] [? _] |].
  set (st1 := {| net := ensure_subnet (net st) (N.land start mask); addrs := addrs st;
                 tenantAddrs := tenantAddrs st; hostCount := hostCount st |}).
  intros Hscan B.
  assert (B1 : addrs_below (start + Z.to_N 2) st1) by done.
  apply (hostsLoop_sorted num start (N.land start mask) (Z.to_nat (maxHosts - 3)))
    in B1; [| lia | lia].
  rewrite Z2Nat.id in B1 by lia.
  destruct (hostsLoop _ _ _ _ _) as [st2 | st2]; cbn [hosts_state] in B1.
  - eapply IH; [exact Hscan |]. eapply addrs_below_mono; [| exact B1].
    unfold u32. rewrite (N.mod_small (Z.to_N maxHosts)) by lia.
    rewrite N.mod_small by lia. lia.
  - injection Hscan as <-. by destruct B1.
Qed.

End ScanMore.

Lemma alloc_maxHosts_N (bits : Z) :
  (0 ≤ bits ≤ 32)%Z → Z.to_N (alloc_maxHosts bits) = (2 ^ (32 - Z.to_N bits))%N.
Proof.
  intros H. unfold alloc_maxHosts. rewrite Z2N.inj_pow by lia.
  f_equal. lia.
Qed.

Lemma alloc_maxHosts_lt (bits : Z) :
  (4 ≤ bits ≤ 30)%Z → (alloc_maxHosts bits < 2 ^ 32)%Z.
Proof.
  intros H. unfold alloc_maxHosts. apply Z.pow_lt_mono_r; lia.
Qed.

(** What a scan that has gathered [num] addresses has done. *)
Lemma scanNetwork_Claim (rangeOrder : network_t → list (N * gmap N bool))
    (bits num : Z) (subnets : network_t) (st : alloc_state) :
  (4 ≤ bits ≤ 30)%Z → network_wf subnets →
  scanNetwork rangeOrder bits num subnets = Some (Claim st) →
  Z.of_nat (List.length (addrs st)) = num ∧
  addrs st = host <$> tenantAddrs st ∧
  StronglySorted N.lt (addrs st) ∧
  (∀ ip, ip ∈ tenantAddrs st → ¬ in_use subnets ip) ∧
  (∀ ip, in_use (net st) ip ↔ in_use subnets ip ∨ ip ∈ tenantAddrs st).
Proof.
  intros Hbits W Hscan. unfold scanNetwork in Hscan.
  pose proof (alloc_maxHosts_ge_4 bits (proj2 Hbits)) as H4.
  pose proof (alloc_maxHosts_lt bits Hbits) as Hlt.
  destruct (alloc_bounds bits Hbits) as [_ Hend].
  unfold u32 in Hend.
  rewrite N.mod_small in Hend by lia.
  assert (H3 : (3 ≤ alloc_maxHosts bits)%Z) by lia.
  pose proof (scan_Claim _ _ _ _ _ _ _ _ Hscan) as Hcount.
  pose proof (scan_consistent _ _ _ _ _ _ _ _ Hscan) as [C1 C2]; [by split |].
  pose proof (scan_sorted _ _ _ _ _ _ _ _ H3 Hend Hscan) as S.
  apply scan_extends in Hscan as [(new & T & F & U & _) _]; [| done | done].
  cbn [scan_state net tenantAddrs addrs app] in *. subst new.
  split; [| split; [done | split; [| done]]].
  - rewrite C1, length_fmap. lia.
  - apply S. split; [constructor | constructor].
Qed.

(** X1.  [AllocateTenantIPPool] for a tenant of the cache with 4 to 30
    subnet bits and a network map that the datastore built always returns,
    and it is all or nothing.  Either it returns no addresses and an error,
    and the cache is what it was; or it returns exactly [num] addresses with
    a nil error, in increasing order, each of them free before the call and
    in use after it, no other address changes, nothing but the tenant's
    network map changes in the cache, and the first thing logged is the bulk
    claim of these addresses, issued on the cache that holds the marks. *)
Theorem AllocateTenantIPPool_all_or_nothing (db : persistentStore)
    (rangeOrder : network_t → list (N * gmap N bool))
    (id : string) (num : Z) (ds : Datastore) (t : tenant.t) :
  tenants ds !! id = Some t →
  (4 ≤ tenant.SubnetBits t ≤ 30)%Z →
  network_wf (tenant.network t) →
  ∃ res w,
    run (AllocateTenantIPPool db rangeOrder id num) ds = Some (res, w) ∧
    match res with
    | (Some a, err) =>
      err = None ∧ Z.of_nat (List.length a) = num ∧ StronglySorted N.lt a ∧
      ∃ claims,
        a = host <$> claims ∧
        (∀ ip, ip ∈ claims → ¬ in_use (tenant.network t) ip) ∧
        (∀ ip, in_use (networkOf (cache w) id) ip ↔
               in_use (tenant.network t) ip ∨ ip ∈ claims) ∧
        cache w = set_network id (networkOf (cache w) id) ds ∧
        head (log w) = Some (Persist (claimTenantIPs id claims) (cache w))
    | (None, err) => is_Some err ∧ cache w = ds
    end.
Proof.
  intros Ht Hbits W. unfold run.
  rewrite (AllocateTenantIPPool_cached _ _ _ _ _ _ t) by (done || lia).
  destruct (scanNetwork_total rangeOrder _ num (tenant.network t) Hbits) as [res Hscan].
  rewrite Hscan.
  pose proof (scanNetwork_restores _ _ _ _ _ (proj2 Hbits) W Hscan) as Hclean.
  destruct res as [st | st]; cbn [scan_state] in Hclean.
  { eexists _, _. split; [done |]. cbn [cache]. split; [by eexists |].
    rewrite Hclean. by apply set_network_same. }
  cbn zeta. destruct (exec db _) as [e |].
  { eexists _, _. split; [done |]. cbn [cache]. split; [by eexists |].
    rewrite Hclean. by apply set_network_same. }
  edestruct (activateSubnets_log id (addrs st)) as (r & evs & Hact & _);
    [| rewrite Hact].
  { cbn [cache]. by apply set_network_lookup. }
  eexists _, _. split; [done |]. cbn [cache log].
  destruct (scanNetwork_Claim _ _ _ _ _ Hbits W Hscan) as (Hlen & Haddrs & Hsort & Hfree & Huse).
  rewrite (networkOf_set_network id _ ds t Ht).
  split; [done |]. split; [done |]. split; [done |].
  exists (tenantAddrs st). by repeat split; try apply Huse.
Qed.

Lemma AllocateTenantIPPool_all_or_nothing_witness :
  ∃ res w,
    run (AllocateTenantIPPool okStore map_to_list "tenant" 3) (oneTenant "tenant" 24 None)
      = Some (res, w) ∧
    match res with
    | (Some a, err) =>
      err = None ∧ Z.of_nat (List.length a) = 3%Z ∧ StronglySorted N.lt a ∧
      ∃ claims,
        a = host <$> claims ∧
        (∀ ip, ip ∈ claims → ¬ in_use (tenant.network (newTenant "tenant" 24 None)) ip) ∧
        (∀ ip, in_use (networkOf (cache w) "tenant") ip ↔
               in_use (tenant.network (newTenant "tenant" 24 None)) ip ∨ ip ∈ claims) ∧
        cache w = set_network "tenant" (networkOf (cache w) "tenant")
                    (oneTenant "tenant" 24 None) ∧
        head (log w) = Some (Persist (claimTenantIPs "tenant" claims) (cache w))
    | (None, err) => is_Some err ∧ cache w = oneTenant "tenant" 24 None
    end.
Proof.
  apply (AllocateTenantIPPool_all_or_nothing okStore map_to_list "tenant" 3
           (oneTenant "tenant" 24 None) (newTenant "tenant" 24 None)).
  - reflexivity.
  - vm_compute. split; discriminate.
  - apply network_wf_empty.
Defined.

Lemma firstFit_start (maxHosts : Z) (start : N) (entries : list (N * gmap N bool)) :
  firstFit maxHosts start entries = start ∨
  ∃ v, (firstFit maxHosts start entries, v) ∈ entries.
Proof.
  induction entries as [| [k v] rest IH]; simpl; [by left |].
  destruct (Z.of_nat (size v) <? maxHosts)%Z.
  - right. exists v. apply list_elem_of_here.
  - destruct IH as [-> | [v' Hv']]; [by left |].
    right. exists v'. by apply list_elem_of_further.
Qed.

(** In a map that the datastore builds every subnet is filed under a
    multiple of the subnet size. *)
Lemma network_filed_key (bits : Z) (n : network_t) (s : N) (m : gmap N bool) :
  (0 ≤ bits ≤ 32)%Z → network_wf n → network_filed bits n →
  n !! s = Some m → (s mod 2 ^ (32 - Z.to_N bits) = 0)%N.
Proof.
  intros Hbits W F Hs. destruct (W s m Hs) as [Hne Htrue].
  apply map_choose in Hne as (a & b & Hab).
  pose proof (Htrue a b Hab) as ->.
  specialize (F {| subnet := s; host := a |}). cbn [subnet host] in F.
  rewrite <- F by by exists m.
  unfold MaskIP, alloc_mask. apply land_CIDRMask_aligned. lia.
Qed.

(** The first subnet that the scan looks at starts at a multiple of the
    subnet size. *)
Lemma firstFit_aligned (rangeOrder : network_t → list (N * gmap N bool))
    (bits : Z) (n : network_t) :
  (0 ≤ bits ≤ 32)%Z → range_order rangeOrder → network_wf n → network_filed bits n →
  (firstFit (alloc_maxHosts bits) (alloc_start bits) (rangeOrder n)
     mod 2 ^ (32 - Z.to_N bits) = 0)%N.
Proof.
  intros Hbits Hro W F.
  destruct (firstFit_start (alloc_maxHosts bits) (alloc_start bits) (rangeOrder n))
    as [-> | [v Hv]].
  - unfold alloc_start, MaskIP, alloc_mask. apply land_CIDRMask_aligned. lia.
  - revert Hv. generalize (firstFit (alloc_maxHosts bits) (alloc_start bits) (rangeOrder n)).
    intros s Hv. rewrite (Hro n) in Hv. apply elem_of_map_to_list in Hv.
    by eapply network_filed_key.
Qed.

Lemma claim_ok_host (bits : Z) (s : N) (h : Z) :
  (4 ≤ bits ≤ 30)%Z →
  (s mod 2 ^ (32 - Z.to_N bits) = 0)%N → (s < alloc_end bits)%N →
  h ∈ seqZ 2 (alloc_maxHosts bits - 3) →
  claim_ok bits {| subnet := N.land s (alloc_mask bits);
                   host := u32 (s + u32 (Z.to_N h)) |}.
Proof.
  intros Hbits Hs Hlt Hh. apply elem_of_seqZ in Hh.
  destruct (alloc_bounds bits Hbits) as [_ Hend].
  pose proof (alloc_maxHosts_lt bits Hbits) as HM.
  pose proof (alloc_maxHosts_N bits ltac:(lia)) as HN.
  unfold u32 in Hend. rewrite N.mod_small in Hend by lia.
  set (k := (32 - Z.to_N bits)%N) in *.
  assert (Hhn : (2 ≤ Z.to_N h ∧ Z.to_N h + 2 ≤ 2 ^ k)%N) by lia.
  assert (Ha : u32 (s + u32 (Z.to_N h)) = (s + Z.to_N h)%N).
  { unfold u32. rewrite (N.mod_small (Z.to_N h)) by lia. apply N.mod_small. lia. }
  assert (Hk : (2 ^ k ≠ 0)%N) by (apply N.pow_nonzero; lia).
  assert (Hmod : ((s + Z.to_N h) mod 2 ^ k = Z.to_N h)%N).
  { pose proof (N.div_mod s (2 ^ k) Hk) as Hd. rewrite Hs, N.add_0_r in Hd.
    rewrite Hd at 1. rewrite N.add_comm, N.mul_comm, N.Div0.mod_add.
    apply N.mod_small. lia. }
  assert (Hbase : N.land (s + Z.to_N h) (alloc_mask bits) = s).
  { unfold alloc_mask. rewrite land_CIDRMask by lia. fold k. rewrite Hmod. lia. }
  assert (Hsub : N.land s (alloc_mask bits) = s).
  { unfold alloc_mask. rewrite land_CIDRMask by lia. fold k. rewrite Hs. lia. }
  unfold claim_ok, unreserved, MaskIP. cbn [subnet host].
  rewrite Ha, Hbase, Hsub, HN. split; [done |]. lia.
Qed.

Lemma scanNetwork_claim_ok (rangeOrder : network_t → list (N * gmap N bool))
    (bits num : Z) (subnets : network_t) (res : scan_result) :
  (4 ≤ bits ≤ 30)%Z → range_order rangeOrder →
  network_wf subnets → network_filed bits subnets →
  scanNetwork rangeOrder bits num subnets = Some res →
  Forall (claim_ok bits) (tenantAddrs (scan_state res)).
Proof.
  intros Hbits Hro W F Hscan. unfold scanNetwork in Hscan.
  eapply (scan_Forall _ _ _ _ (claim_ok bits)
            (λ s, (s mod 2 ^ (32 - Z.to_N bits) = 0)%N)) in Hscan; [done | | | done].
  - intros s Hs Hlt. split; [| intros h Hh; by apply claim_ok_host].
    destruct (alloc_bounds bits Hbits) as [_ Hend].
    pose proof (alloc_maxHosts_lt bits Hbits) as HM.
    pose proof (alloc_maxHosts_N bits ltac:(lia)) as HN.
    unfold u32 in *. rewrite (N.mod_small (Z.to_N _)) in * by lia.
    rewrite (N.mod_small (s + _)) by lia. rewrite HN.
    rewrite <- (N.mul_1_l (2 ^ _)) at 1. by rewrite N.Div0.mod_add.
  - apply firstFit_aligned; [lia | done | done | done].
Qed.

(** X2.  [AllocateTenantIPPool] never hands out a reserved address.  For a
    tenant with 4 to 30 subnet bits whose network map files every address
    under the base of its subnet, every address returned differs from the
    network address of its subnet, from the one after it (the gateway) and
    from the last one (the broadcast address); and the network map after the
    call has the same shape: no empty host map, no address marked false,
    every address filed under the base of its subnet. *)
Theorem AllocateTenantIPPool_reserved (db : persistentStore)
    (rangeOrder : network_t → list (N * gmap N bool))
    (id : string) (num : Z) (ds : Datastore) (t : tenant.t) :
  range_order rangeOrder →
  tenants ds !! id = Some t →
  (4 ≤ tenant.SubnetBits t ≤ 30)%Z →
  network_wf (tenant.network t) →
  network_filed (tenant.SubnetBits t) (tenant.network t) →
  ∃ res w,
    run (AllocateTenantIPPool db rangeOrder id num) ds = Some (res, w) ∧
    network_wf (networkOf (cache w) id) ∧
    network_filed (tenant.SubnetBits t) (networkOf (cache w) id) ∧
    ∀ l, fst res = Some l → Forall (unreserved (tenant.SubnetBits t)) l.
Proof.
  intros Hro Ht Hbits W F.
  destruct (scanNetwork_total rangeOrder _ num (tenant.network t) Hbits) as [res Hscan].
  pose proof (scanNetwork_restores _ _ _ _ _ (proj2 Hbits) W Hscan) as Hclean.
  pose proof (scanNetwork_claim_ok _ _ _ _ _ Hbits Hro W F Hscan) as Hok.
  assert (Hrest : ∀ (r : option (list N) * option error) w, r.1 = None →
            cache w = set_network id
                        (cleanTenantIPs (net (scan_state res)) (tenantAddrs (scan_state res))) ds →
            network_wf (networkOf (cache w) id) ∧
            network_filed (tenant.SubnetBits t) (networkOf (cache w) id) ∧
            ∀ l, r.1 = Some l → Forall (unreserved (tenant.SubnetBits t)) l).
  { intros r w Hr ->. rewrite Hclean, (networkOf_set_network id _ ds t Ht).
    split; [done |]. split; [done |]. intros l. by rewrite Hr. }
  unfold run. rewrite (AllocateTenantIPPool_cached _ _ _ _ _ _ t) by (done || lia).
  rewrite Hscan. destruct res as [st | st]; cbn [scan_state] in *.
  { eexists _, _. split; [done |]. by apply Hrest. }
  cbn zeta. destruct (exec db _) as [e |].
  { eexists _, _. split; [done |]. by apply Hrest. }
  edestruct (activateSubnets_log id (addrs st)) as (r & evs & Hact & _);
    [| rewrite Hact].
  { cbn [cache]. by apply set_network_lookup. }
  eexists _, _. split; [done |]. cbn [cache fst].
  destruct (scanNetwork_Claim _ _ _ _ _ Hbits W Hscan) as (_ & Haddrs & _ & _ & Huse).
  rewrite (networkOf_set_network id _ ds t Ht).
  split; [| split].
  - unfold scanNetwork in Hscan.
    by apply scan_extends in Hscan as [_ ?]; [| apply alloc_maxHosts_ge_4; lia |].
  - intros ip [Hip | Hip]%Huse; [by apply F |].
    rewrite Forall_forall in Hok. by apply Hok.
  - intros l [= <-]. rewrite Haddrs. apply Forall_fmap.
    eapply Forall_impl; [exact Hok |]. by intros ip [_ ?].
Qed.

Lemma network_filed_empty (bits : Z) : network_filed bits ∅.
Proof. intros ip (m & H & _). by rewrite lookup_empty in H. Qed.

Lemma AllocateTenantIPPool_reserved_witness :
  ∃ res w,
    run (AllocateTenantIPPool okStore map_to_list "tenant" 3) (oneTenant "tenant" 24 None)
      = Some (res, w) ∧
    network_wf (networkOf (cache w) "tenant") ∧
    network_filed 24 (networkOf (cache w) "tenant") ∧
    ∀ l, fst res = Some l → Forall (unreserved 24) l.
Proof.
  apply (AllocateTenantIPPool_reserved okStore map_to_list "tenant" 3
           (oneTenant "tenant" 24 None) (newTenant "tenant" 24 None)).
  - apply range_order_map_to_list.
  - reflexivity.
  - vm_compute. split; discriminate.
  - apply network_wf_empty.
  - apply network_filed_empty.
Defined.

Lemma ReleaseTenantIP_cached (db : persistentStore)
    (released : string → N → N → option error) (id ip : string) (a : N)
    (ds : Datastore) (t : tenant.t) :
  ParseIP ip = Some a →
  tenants ds !! id = Some t →
  (0 ≤ tenant.SubnetBits t ≤ 32)%Z →
  run (ReleaseTenantIP db released id ip) ds =
  let c := {| subnet := MaskIP a (alloc_mask (tenant.SubnetBits t)); host := a |} in
  Some (released id (subnet c) a,
        {| cache := set_network id (cleanTenantIP (tenant.network t) c) ds; log := [] |}).
Proof.
  intros Hip Ht Hbits. unfold ReleaseTenantIP, GetTenant, getTenant. rewrite Hip.
  run_unfold. rewrite Ht. cbn [cache log].
  destruct (Z.ltb_spec (tenant.SubnetBits t) 0) as [? | _]; [lia |].
  destruct (Z.ltb_spec 32 (tenant.SubnetBits t)) as [? | _]; [lia |].
  cbn [orb cache log]. by rewrite Ht.
Qed.

(** X3.  [ReleaseTenantIP] with an address in dotted decimal, for a tenant
    of the cache: the address is free afterwards, every other address is in
    use exactly when it was before, a host map that becomes empty is taken
    out of the network map, nothing else changes in the cache, and the call
    returns what [releaseTenantIP] of the store answers.  The cache is
    written before the store is asked, so the address is free in the cache
    also when the store fails. *)
Theorem ReleaseTenantIP_frees (db : persistentStore)
    (released : string → N → N → option error) (id ip : string) (a : N)
    (ds : Datastore) (t : tenant.t) :
  ParseIP ip = Some a →
  tenants ds !! id = Some t →
  (0 ≤ tenant.SubnetBits t ≤ 32)%Z →
  network_wf (tenant.network t) →
  let c := {| subnet := MaskIP a (alloc_mask (tenant.SubnetBits t)); host := a |} in
  ∃ w,
    run (ReleaseTenantIP db released id ip) ds = Some (released id (subnet c) a, w) ∧
    log w = [] ∧
    cache w = set_network id (networkOf (cache w) id) ds ∧
    network_wf (networkOf (cache w) id) ∧
    ∀ ip', in_use (networkOf (cache w) id) ip' ↔ in_use (tenant.network t) ip' ∧ ip' ≠ c.
Proof.
  intros Hip Ht Hbits W c.
  rewrite (ReleaseTenantIP_cached db released id ip a ds t) by done.
  eexists. split; [done |]. cbn [cache log].
  rewrite (networkOf_set_network id _ ds t Ht).
  split; [done |]. split; [done |]. split.
  - by apply network_wf_cleanTenantIP.
  - intros ip'. apply in_use_cleanTenantIP.
Qed.

(** X4.  An address that [AllocateTenantIP] hands out and [ReleaseTenantIP]
    takes back leaves the cache as it was before the two calls.
    [AllocateTenantIP] always returns for a tenant of the cache with 4 to 30
    subnet bits: one address that was free and is now in use, with a nil
    error, or no address and an error with the cache untouched. *)
Theorem tenant_IP_allocated_then_released (db : persistentStore)
    (rangeOrder : network_t → list (N * gmap N bool))
    (released : string → N → N → option error)
    (id : string) (ds : Datastore) (t : tenant.t) :
  range_order rangeOrder →
  tenants ds !! id = Some t →
  (4 ≤ tenant.SubnetBits t ≤ 30)%Z →
  network_wf (tenant.network t) →
  network_filed (tenant.SubnetBits t) (tenant.network t) →
  ∃ r w1,
    run (AllocateTenantIP db rangeOrder id) ds = Some (r, w1) ∧
    match r with
    | (Some a, err) =>
      let c := {| subnet := MaskIP a (alloc_mask (tenant.SubnetBits t)); host := a |} in
      err = None ∧
      ¬ in_use (tenant.network t) c ∧
      in_use (networkOf (cache w1) id) c ∧
      ∀ ip, ParseIP ip = Some a →
        run (ReleaseTenantIP db released id ip) (cache w1) =
        Some (released id (subnet c) a, {| cache := ds; log := [] |})
    | (None, err) => is_Some err ∧ cache w1 = ds
    end.
Proof.
  intros Hro Ht Hbits W F.
  destruct (scanNetwork_total rangeOrder _ 1 (tenant.network t) Hbits) as [res Hscan].
  pose proof (scanNetwork_restores _ _ _ _ _ (proj2 Hbits) W Hscan) as Hclean.
  pose proof (scanNetwork_claim_ok _ _ _ _ _ Hbits Hro W F Hscan) as Hok.
  unfold run at 1. unfold AllocateTenantIP. unfold bind at 1.
  rewrite (AllocateTenantIPPool_cached _ _ _ _ _ _ t) by (done || lia).
  rewrite Hscan. destruct res as [st | st]; cbn [scan_state] in *.
  { eexists _, _. split; [done |]. cbn [cache]. split; [by eexists |].
    rewrite Hclean. by apply set_network_same. }
  cbn zeta. destruct (exec db _) as [e |].
  { eexists _, _. split; [done |]. cbn [cache]. split; [by eexists |].
    rewrite Hclean. by apply set_network_same. }
  edestruct (activateSubnets_log id (addrs st)) as (r & evs & Hact & _);
    [| rewrite Hact].
  { cbn [cache]. by apply set_network_lookup. }
  destruct (scanNetwork_Claim _ _ _ _ _ Hbits W Hscan) as (Hlen & Haddrs & _ & Hfree & Huse).
  destruct (tenantAddrs st) as [| c [| c' rest]] eqn:Hclaims;
    rewrite Haddrs in *; cbn [fmap list_fmap List.length] in *; try lia.
  apply Forall_singleton in Hok as [Hsub _].
  destruct c as [s a]. cbn [subnet host] in *. subst s.
  eexists _, _. split; [done |]. cbn [cache log].
  rewrite (networkOf_set_network id _ ds t Ht).
  split; [done |]. split; [apply Hfree, list_elem_of_here |].
  split; [apply Huse; right; apply list_elem_of_here |].
  intros ip Hip.
  rewrite (ReleaseTenantIP_cached db released id ip a _
             (tenant.with_network (λ _, net st) t));
    [| done | by apply set_network_lookup
     | unfold tenant.SubnetBits in *; cbn [tenant.with_network tenant.Config]; lia].
  cbn zeta. cbn [tenant.network tenant.with_network subnet].
  change (tenant.SubnetBits (tenant.with_network (λ _, net st) t))
    with (tenant.SubnetBits t).
  change (cleanTenantIP (net st) ?c) with (cleanTenantIPs (net st) [c]).
  rewrite Hclean, set_network_twice. by rewrite (set_network_same id ds t Ht).
Qed.

Lemma network_wf_net30_first : network_wf net30_first.
Proof.
  unfold net30_first. intros s m [<- <-]%lookup_singleton_Some.
  split; [apply insert_non_empty |].
  by intros a b [_ <-]%lookup_singleton_Some.
Qed.

Lemma ReleaseTenantIP_frees_witness :
  ∃ w,
    run (ReleaseTenantIP okStore releaseOk "tenant" "172.16.0.2") oneAddress
      = Some (None, w) ∧
    log w = [] ∧
    cache w = set_network "tenant" (networkOf (cache w) "tenant") oneAddress ∧
    network_wf (networkOf (cache w) "tenant") ∧
    ∀ ip', in_use (networkOf (cache w) "tenant") ip' ↔
           in_use net30_first ip' ∧
           ip' ≠ {| subnet := ip_172_16_0_0; host := ip_172_16_0_2 |}.
Proof.
  apply (ReleaseTenantIP_frees okStore releaseOk "tenant" "172.16.0.2" ip_172_16_0_2
           oneAddress (tenant.with_network (λ _, net30_first) (newTenant "tenant" 30 None))).
  - reflexivity.
  - reflexivity.
  - vm_compute. split; discriminate.
  - apply network_wf_net30_first.
Defined.

Lemma tenant_IP_allocated_then_released_witness :
  ∃ r w1,
    run (AllocateTenantIP okStore map_to_list "tenant") (oneTenant "tenant" 24 None)
      = Some (r, w1) ∧
    match r with
    | (Some a, err) =>
      let c := {| subnet := MaskIP a (alloc_mask 24); host := a |} in
      err = None ∧
      ¬ in_use ∅ c ∧
      in_use (networkOf (cache w1) "tenant") c ∧
      ∀ ip, ParseIP ip = Some a →
        run (ReleaseTenantIP okStore releaseOk "tenant" ip) (cache w1) =
        Some (None, {| cache := oneTenant "tenant" 24 None; log := [] |})
    | (None, err) => is_Some err ∧ cache w1 = oneTenant "tenant" 24 None
    end.
Proof.
  apply (tenant_IP_allocated_then_released okStore map_to_list releaseOk "tenant"
           (oneTenant "tenant" 24 None) (newTenant "tenant" 24 None)).
  - apply range_order_map_to_list.
  - reflexivity.
  - vm_compute. split; discriminate.
  - apply network_wf_empty.
  - apply network_filed_empty.
Defined.

(** ** Networks as ranges of addresses *)

Lemma canonical_bounds (n : IPNet) :
  canonical n →
  (IP n mod 2 ^ (32 - Ones n) = 0)%N ∧ (IP n + 2 ^ (32 - Ones n) ≤ 2 ^ 32)%N.
Proof.
  intros [Hones Hbase]. unfold MaskIP, Mask in Hbase.
  assert (Hal : (IP n mod 2 ^ (32 - Ones n) = 0)%N).
  { rewrite <- Hbase. by apply land_CIDRMask_aligned. }
  split; [done |].
  assert (Hlt : (IP n < 2 ^ 32)%N).
  { rewrite <- Hbase, CIDRMask_shiftl by done.
    apply N.mod_small_iff; [lia |]. apply N.bits_inj. intros i.
    destruct (N.lt_ge_cases i 32).
    - by rewrite N.mod_pow2_bits_low.
    - rewrite N.mod_pow2_bits_high by done. rewrite N.land_spec.
      rewrite N.shiftl_spec_high' by lia.
      rewrite N.ones_spec_high by lia. by rewrite andb_false_r. }
  set (k := (32 - Ones n)%N) in *.
  assert (Hk : (2 ^ k ≠ 0)%N) by (apply N.pow_nonzero; lia).
  pose proof (N.div_mod (IP n) (2 ^ k) Hk) as Hd. rewrite Hal, N.add_0_r in Hd.
  assert (H32 : (2 ^ 32 = 2 ^ k * 2 ^ Ones n)%N).
  { rewrite <- N.pow_add_r. f_equal. lia. }
  rewrite H32 in *. set (q := (IP n / 2 ^ k)%N) in *.
  assert (q < 2 ^ Ones n)%N.
  { apply N.mul_lt_mono_pos_l with (p := (2 ^ k)%N); lia. }
  nia.
Qed.

Lemma Contains_range (n : IPNet) (x : N) :
  canonical n → (x < 2 ^ 32)%N →
  Contains n x = true ↔ (IP n ≤ x < IP n + 2 ^ (32 - Ones n))%N.
Proof.
  intros Hc Hx. destruct (canonical_bounds n Hc) as [Hal Hend].
  destruct Hc as [Hones Hbase]. unfold MaskIP in Hbase.
  unfold Contains. rewrite Hbase, N.eqb_eq. unfold Mask.
  rewrite land_CIDRMask by done.
  set (k := (32 - Ones n)%N) in *.
  assert (Hk : (2 ^ k ≠ 0)%N) by (apply N.pow_nonzero; lia).
  pose proof (N.mod_upper_bound x (2 ^ k) Hk) as Hr.
  pose proof (N.Div0.mod_le x (2 ^ k)) as Hle.
  split.
  - intros Heq. revert Hr Hle Heq. generalize (2 ^ k)%N. intros p.
    generalize (x mod p)%N. lia.
  - intros [H1 H2].
    pose proof (N.div_mod (IP n) (2 ^ k) Hk) as Hd. rewrite Hal, N.add_0_r in Hd.
    assert (Hm : (x mod 2 ^ k = x - IP n)%N).
    { replace x with (x - IP n + IP n)%N at 1 by lia.
      rewrite Hd at 2. rewrite N.mul_comm, N.Div0.mod_add. apply N.mod_small. lia. }
    revert Hm. generalize (x mod 2 ^ k)%N. lia.
Qed.

(** ** [MapExternalIP] and [UnMapExternalIP] *)

Lemma int_int (x : Z) : int (int x) = int x.
Proof.
  unfold int. replace (((x + 2 ^ 63) mod 2 ^ 64 - 2 ^ 63 + 2 ^ 63))%Z
    with ((x + 2 ^ 63) mod 2 ^ 64)%Z by lia.
  by rewrite Z.mod_mod by lia.
Qed.

Lemma int_add_sub (x n : Z) : is_int x → int (int (x + n) - n) = x.
Proof.
  unfold is_int, int. intros Hx.
  assert (- 2 ^ 63 ≤ x < 2 ^ 63)%Z as Hr.
  { rewrite <- Hx. pose proof (Z.mod_pos_bound (x + 2 ^ 63) (2 ^ 64)). lia. }
  replace ((x + n + 2 ^ 63) mod 2 ^ 64 - 2 ^ 63 - n + 2 ^ 63)%Z
    with ((x + n + 2 ^ 63) mod 2 ^ 64 - n)%Z by lia.
  rewrite Zminus_mod_idemp_l.
  replace (x + n + 2 ^ 63 - n)%Z with (x + 2 ^ 63)%Z by lia.
  rewrite Z.mod_small by lia. lia.
Qed.

Lemma int_sub_add (x n : Z) : is_int x → int (int (x - n) + n) = x.
Proof.
  intros Hx. replace (x - n)%Z with (x + - n)%Z by lia.
  replace (int (x + - n) + n)%Z with (int (x + - n) - - n)%Z by lia.
  by apply int_add_sub.
Qed.

Lemma ParseCIDR_canonical (s : string) (ip : N) (n : IPNet) :
  ParseCIDR s = Some (ip, n) → canonical n.
Proof.
  unfold ParseCIDR. destruct (split_slash s) as [[addr mask] |]; [| done].
  destruct (ParseIP addr); [| done].
  destruct (dtoi mask) as [[[k ?] [|]] |]; try done.
  destruct (N.ltb_spec 32 k); [done |]. intros [= <- <-].
  split; [simpl; lia |]. unfold MaskIP, Mask. simpl.
  by rewrite <- N.land_assoc, N.land_diag.
Qed.

Lemma incrementIP_lt (ip : N) : (incrementIP ip < 2 ^ 32)%N.
Proof. unfold incrementIP, u32. apply N.mod_upper_bound. lia. Qed.

Lemma incrementIP_small (ip : N) : (ip + 1 < 2 ^ 32)%N → incrementIP ip = (ip + 1)%N.
Proof. intros H. unfold incrementIP, u32. by apply N.mod_small. Qed.

(** Past the last address of a network that is not the whole address space
    the loop over its addresses stops. *)
Lemma Contains_past_end (n : IPNet) :
  canonical n → (1 ≤ Ones n)%N →
  Contains n (u32 (IP n + 2 ^ (32 - Ones n))) = false.
Proof.
  intros Hc Hones. destruct (canonical_bounds n Hc) as [_ Hend].
  assert (Hlt : (u32 (IP n + 2 ^ (32 - Ones n)) < 2 ^ 32)%N).
  { unfold u32. apply N.mod_upper_bound. lia. }
  apply not_true_is_false. intros [H1 H2]%Contains_range; [| done | done].
  assert (Hk : (0 < 2 ^ (32 - Ones n) < 2 ^ 32)%N).
  { split; [apply N.neq_0_lt_0, N.pow_nonzero; lia |].
    apply N.pow_lt_mono_r; lia. }
  unfold u32 in *.
  destruct (N.eq_dec (IP n + 2 ^ (32 - Ones n)) (2 ^ 32)) as [E | E].
  - rewrite E, N.Div0.mod_same in H1. lia.
  - rewrite N.mod_small in H2 by lia. lia.
Qed.

Lemma scanSubnet_Found (fuel : nat) (mapped : gmap string MappedIP.t) (ipNet : IPNet)
    (ip a : N) :
  canonical ipNet →
  (IP ipNet < ip ∨ Ones ipNet = 0)%N → (ip < 2 ^ 32)%N →
  scanSubnet fuel mapped ipNet ip = Some (Some a) →
  Contains ipNet a = true ∧ (a < 2 ^ 32)%N ∧ (IP ipNet < a ∨ Ones ipNet = 0)%N.
Proof.
  intros Hc. revert ip. induction fuel as [| fuel IH]; intros ip Hbase Hip; simpl; [done |].
  destruct (Contains ipNet ip) eqn:Hin; [| done].
  destruct (mapped !! IP_String ip); [| by intros [= <-]].
  destruct Hbase as [Hbase | H0]; [| apply IH; [by right | apply incrementIP_lt]].
  destruct (N.eq_dec (Ones ipNet) 0) as [H0 | H0];
    [apply IH; [by right | apply incrementIP_lt] |].
  apply Contains_range in Hin as [_ Hhi]; [| done | done].
  destruct (canonical_bounds ipNet Hc) as [_ Hend].
  destruct (N.eq_dec (ip + 1) (IP ipNet + 2 ^ (32 - Ones ipNet))) as [E | E].
  - unfold incrementIP. rewrite E. destruct fuel as [| fuel']; simpl; [done |].
    rewrite Contains_past_end by (done || lia). done.
  - apply IH; [| apply incrementIP_lt]. left. rewrite incrementIP_small by lia. lia.
Qed.

Lemma searchSubnets_Found (mapped : gmap string MappedIP.t) (subs : list ExternalSubnet.t)
    (address : string) :
  searchSubnets mapped subs = Found address →
  ∃ sub ip0 ipNet a,
    sub ∈ subs ∧ ParseCIDR (ExternalSubnet.CIDR sub) = Some (ip0, ipNet) ∧
    Contains ipNet a = true ∧ (a < 2 ^ 32)%N ∧ (IP ipNet < a ∨ Ones ipNet = 0)%N ∧
    address = IP_String a.
Proof.
  induction subs as [| sub rest IH]; cbn [searchSubnets]; [done |].
  destruct (ParseCIDR (ExternalSubnet.CIDR sub)) as [[ip0 ipNet] |] eqn:Hp; [| done].
  pose proof (ParseCIDR_canonical _ _ _ Hp) as Hc.
  destruct (scanSubnet _ _ _ _) as [[a |] |] eqn:Hs; [| | done].
  - intros [= <-].
    destruct (canonical_bounds ipNet Hc) as [_ Hend].
    assert (Hk : (0 < 2 ^ (32 - Ones ipNet))%N)
      by (apply N.neq_0_lt_0, N.pow_nonzero; lia).
    assert (Hstart : (IP ipNet < incrementIP (IP ipNet) ∨ Ones ipNet = 0)%N).
    { destruct (N.eq_dec (IP ipNet + 1) (2 ^ 32)) as [E | E].
      - exfalso. revert Hs. unfold incrementIP, u32. rewrite E, N.Div0.mod_same.
        cbn [scanSubnet]. destruct (Contains ipNet 0) eqn:H0; [| done].
        apply Contains_range in H0; [lia | done | lia].
      - left. rewrite incrementIP_small by lia. lia. }
    apply scanSubnet_Found in Hs as (Hin & Ha & Hb); [| done | done | apply incrementIP_lt].
    exists sub, ip0, ipNet, a. split; [apply list_elem_of_here | done].
  - intros (sub' & ip0' & n' & a & Hin & ?)%IH.
    exists sub', ip0', n', a. split; [by apply list_elem_of_further | done].
Qed.

Lemma searchIPs_Found (mapped : gmap string MappedIP.t) (IPs : list ExternalIP.t)
    (address : string) :
  searchIPs mapped IPs = Found address →
  ∃ extIP, extIP ∈ IPs ∧ ExternalIP.Address extIP = address.
Proof.
  induction IPs as [| ip rest IH]; simpl; [done |].
  destruct (mapped !! ExternalIP.Address ip).
  - intros (x & Hin & ?)%IH. exists x. split; [by apply list_elem_of_further | done].
  - intros [= <-]. exists ip. split; [apply list_elem_of_here | done].
Qed.

(** What a run of [MapExternalIP] that returns no error has done. *)
Lemma MapExternalIP_done (db : persistentStore) (uuid poolID instanceID : string)
    (ds : Datastore) (m : MappedIP.t) (w : world) :
  run (MapExternalIP db uuid poolID instanceID) ds = Some ((m, None), w) →
  ∃ instance pool,
    instances ds !! instanceID = Some instance ∧
    pools ds !! poolID = Some pool ∧
    Pool.Free pool ≠ 0%Z ∧
    m = mappingOf uuid instanceID instance pool (MappedIP.ExternalIP m) ∧
    mappedIPs ds !! MappedIP.ExternalIP m = None ∧
    poolOffers pool (MappedIP.ExternalIP m) ∧
    cache w = set_pools (<[poolID := with_Free (int (Pool.Free pool - 1)) pool]>)
                (set_mappedIPs (<[MappedIP.ExternalIP m := m]>) ds) ∧
    log w = [Persist (addMappedIP m) ds;
             Persist (updatePool (with_Free (int (Pool.Free pool - 1)) pool))
               (set_mappedIPs (<[MappedIP.ExternalIP m := m]>) ds)].
Proof.
  intros Hrun. unfold MapExternalIP, GetInstance, mapAddress in Hrun.
  run_unfold. run_cases.
  all: eexists _, _; split; [done |]; split; [done |].
  all: split; [by intros ?%Z.eqb_eq; congruence || (intros ?; lia) |].
  all: split; [done |]; cbn [MappedIP.ExternalIP].
  - split; [by eapply searchSubnets_free |]. split; [| done].
    left. by eapply searchSubnets_Found.
  - split; [by eapply searchIPs_free |]. split; [| done].
    right. by eapply searchIPs_Found.
Qed.

Lemma with_Free_same (pool : Pool.t) : with_Free (Pool.Free pool) pool = pool.
Proof. by destruct pool. Qed.

(** X5.  A call of [MapExternalIP] that returns no error has found the
    instance and the pool in the cache, the pool having a non-zero [Free].
    The mapping returned carries the given instance, the pool's id and name
    and an address that was not mapped before and that the pool offers: an
    address inside one of its subnets, above the network address, or one of
    its individual addresses.  Afterwards [GetMappedIP] of the address
    returns the mapping and [GetPool] returns the pool with [Free] one less;
    no other mapping, no other pool and no table of subnets or addresses has
    changed; the store was asked to add the mapping and then to update the
    pool. *)
Theorem MapExternalIP_maps (db : persistentStore) (uuid poolID instanceID : string)
    (ds : Datastore) (m : MappedIP.t) (w : world) :
  run (MapExternalIP db uuid poolID instanceID) ds = Some ((m, None), w) →
  ∃ instance pool,
    instances ds !! instanceID = Some instance ∧
    pools ds !! poolID = Some pool ∧
    Pool.Free pool ≠ 0%Z ∧
    m = mappingOf uuid instanceID instance pool (MappedIP.ExternalIP m) ∧
    mappedIPs ds !! MappedIP.ExternalIP m = None ∧
    poolOffers pool (MappedIP.ExternalIP m) ∧
    run (GetMappedIP (MappedIP.ExternalIP m)) (cache w)
      = Some ((m, None), {| cache := cache w; log := [] |}) ∧
    run (GetPool poolID) (cache w)
      = Some ((Some (with_Free (int (Pool.Free pool - 1)) pool), None),
              {| cache := cache w; log := [] |}) ∧
    (∀ address, address ≠ MappedIP.ExternalIP m →
       mappedIPs (cache w) !! address = mappedIPs ds !! address) ∧
    (∀ id, id ≠ poolID → pools (cache w) !! id = pools ds !! id) ∧
    externalSubnets (cache w) = externalSubnets ds ∧
    externalIPs (cache w) = externalIPs ds ∧
    ∃ seen seen',
      log w = [Persist (addMappedIP m) seen;
               Persist (updatePool (with_Free (int (Pool.Free pool - 1)) pool)) seen'].
Proof.
  intros (instance & pool & Hi & Hp & Hfree & Hm & Hnew & Hoff & Hc & Hl)%MapExternalIP_done.
  exists instance, pool. repeat (split; [done |]).
  rewrite Hc, Hl. unfold GetMappedIP, GetPool. run_unfold. simpl.
  rewrite !lookup_insert_eq.
  repeat (split; [done |]).
  split; [intros a Ha; by rewrite lookup_insert_ne |].
  split; [intros a Ha; by rewrite lookup_insert_ne |].
  split; [done |]. split; [done |]. by eexists _, _.
Qed.

(** X6.  [UnMapExternalIP] undoes [MapExternalIP]: when every pool is filed
    under its own id and the store takes the deletion of the mapping and the
    update of the pool, unmapping the address that [MapExternalIP] returned
    succeeds and the cache is what it was before the mapping, [Free]
    included. *)
Theorem external_IP_mapped_then_unmapped (db db' : persistentStore)
    (uuid poolID instanceID : string) (ds : Datastore) (m : MappedIP.t) (w1 : world) :
  pools_keyed ds →
  (∀ p, pools ds !! poolID = Some p → is_int (Pool.Free p)) →
  run (MapExternalIP db uuid poolID instanceID) ds = Some ((m, None), w1) →
  exec db' (deleteMappedIP (MappedIP.ID m)) = None →
  (∀ p, exec db' (updatePool p) = None) →
  ∃ w2,
    run (UnMapExternalIP db' (MappedIP.ExternalIP m)) (cache w1) = Some (None, w2) ∧
    cache w2 = ds.
Proof.
  intros Hkey Hint (instance & pool & Hi & Hp & Hfree & Hm & Hnew & Hoff & Hc & Hl)%MapExternalIP_done
    Hdel Hupd.
  pose proof (Hkey _ _ Hp) as Hid. pose proof (Hint _ Hp) as Hf.
  assert (HpoolID : MappedIP.PoolID m = poolID) by (rewrite Hm; simpl; done).
  unfold UnMapExternalIP. run_unfold. rewrite Hc. cbn [mappedIPs set_pools set_mappedIPs pools].
  rewrite lookup_insert_eq, HpoolID, lookup_insert_eq.
  cbn [cache log Pool.ID Pool.Free with_Free]. rewrite Hdel, Hupd. cbn [cache log].
  eexists. split; [done |]. cbn [cache]. rewrite Hid.
  unfold set_pools, set_mappedIPs. cbn.
  rewrite insert_insert_eq, delete_insert_id by done.
  rewrite int_sub_add by done.
  assert (Hrec : {| Pool.ID := poolID; Pool.Name := Pool.Name pool;
                    Pool.Free := Pool.Free pool; Pool.TotalIPs := Pool.TotalIPs pool;
                    Pool.Subnets := Pool.Subnets pool; Pool.IPs := Pool.IPs pool |} = pool)
    by (rewrite <- Hid; by destruct pool).
  rewrite Hrec, insert_id by done. by destruct ds.
Qed.

Lemma mappedOk_world_run :
  run (MapExternalIP okStore "m" "p" "i") dsPool
    = Some ((mapping_10_0_0_1, None), mappedOk_world).
Proof. vm_compute. reflexivity. Qed.

Lemma pools_keyed_dsPool : pools_keyed dsPool.
Proof.
  intros id p H. cbn [pools dsPool] in H. by apply lookup_singleton_Some in H as [<- <-].
Qed.

Lemma MapExternalIP_maps_witness :
  ∃ pool,
    pools dsPool !! "p" = Some pool ∧
    mappedIPs dsPool !! "10.0.0.1" = None ∧
    poolOffers pool "10.0.0.1" ∧
    run (GetMappedIP "10.0.0.1") (cache mappedOk_world)
      = Some ((mapping_10_0_0_1, None), {| cache := cache mappedOk_world; log := [] |}) ∧
    run (GetPool "p") (cache mappedOk_world)
      = Some ((Some (with_Free (int (Pool.Free pool - 1)) pool), None),
              {| cache := cache mappedOk_world; log := [] |}).
Proof.
  destruct (MapExternalIP_maps okStore "m" "p" "i" dsPool mapping_10_0_0_1 mappedOk_world
              mappedOk_world_run)
    as (instance & pool & _ & Hp & _ & _ & Hnew & Hoff & Hget & Hpool & _).
  exists pool. repeat split; assumption.
Defined.

Lemma external_IP_mapped_then_unmapped_witness :
  ∃ w2,
    run (UnMapExternalIP okStore "10.0.0.1") (cache mappedOk_world) = Some (None, w2) ∧
    cache w2 = dsPool.
Proof.
  apply (external_IP_mapped_then_unmapped okStore okStore "m" "p" "i" dsPool
           mapping_10_0_0_1 mappedOk_world).
  - apply pools_keyed_dsPool.
  - intros p [= <-]. reflexivity.
  - apply mappedOk_world_run.
  - reflexivity.
  - reflexivity.
Defined.

(** ** [DeleteSubnet] and [DeleteExternalIP] *)

Lemma subnetMapped_true (mapped : gmap string MappedIP.t) (ipNet : IPNet) (a : N)
    (fuel : nat) (x : N) :
  canonical ipNet → (a < 2 ^ 32)%N → Contains ipNet a = true →
  is_Some (mapped !! IP_String a) →
  (IP ipNet ≤ x ≤ a)%N → (N.to_nat (a - x) < fuel)%nat →
  subnetMapped fuel mapped ipNet x = Some true.
Proof.
  intros Hc Ha Hin Hm. apply Contains_range in Hin as [_ Hhi]; [| done | done].
  revert x. induction fuel as [| fuel IH]; intros x Hx Hfuel; [lia |].
  cbn [subnetMapped].
  assert (Hcx : Contains ipNet x = true) by (apply Contains_range; [done | lia | lia]).
  rewrite Hcx. destruct (mapped !! IP_String x) eqn:Hmx; [done |].
  assert (x ≠ a) by (intros ->; rewrite Hmx in Hm; by destruct Hm).
  rewrite incrementIP_small by lia. apply IH; lia.
Qed.

Lemma subnetMapped_false (mapped : gmap string MappedIP.t) (ipNet : IPNet)
    (fuel : nat) (x : N) :
  canonical ipNet → (1 ≤ Ones ipNet)%N →
  (∀ y, (y < 2 ^ 32)%N → Contains ipNet y = true → mapped !! IP_String y = None) →
  (IP ipNet ≤ x ≤ IP ipNet + 2 ^ (32 - Ones ipNet))%N →
  (N.to_nat (IP ipNet + 2 ^ (32 - Ones ipNet) - x) < fuel)%nat →
  subnetMapped fuel mapped ipNet (u32 x) = Some false.
Proof.
  intros Hc Hones Hfree. destruct (canonical_bounds ipNet Hc) as [_ Hend].
  revert x. induction fuel as [| fuel IH]; intros x Hx Hfuel; [lia |].
  cbn [subnetMapped].
  destruct (N.eq_dec x (IP ipNet + 2 ^ (32 - Ones ipNet))) as [-> | Hne].
  { by rewrite Contains_past_end. }
  assert (Hx32 : (x < 2 ^ 32)%N) by lia.
  assert (Hu : u32 x = x) by (unfold u32; by apply N.mod_small).
  rewrite Hu.
  assert (Hcx : Contains ipNet x = true) by (apply Contains_range; [done | lia | lia]).
  rewrite Hcx, (Hfree x Hx32 Hcx). unfold incrementIP. apply IH; lia.
Qed.

Lemma subnetWithID_find (p : Pool.t) (subnetID : string) (sub : ExternalSubnet.t) :
  subnetWithID p subnetID sub →
  ∃ i, list_find (λ sub, ExternalSubnet.ID sub = subnetID) (Pool.Subnets p) = Some (i, sub).
Proof.
  intros (Hin & Hid & Huniq).
  destruct (list_find_elem_of (λ sub, ExternalSubnet.ID sub = subnetID)
              (Pool.Subnets p) sub Hin Hid) as [[i x] Hfind].
  exists i. rewrite Hfind. f_equal. f_equal.
  apply list_find_Some in Hfind as (Hl & Hx & _).
  apply Huniq; [by eapply list_elem_of_lookup_2 | done].
Qed.

Lemma ParseCIDR_IP (s : string) (ip : N) (n : IPNet) :
  ParseCIDR s = Some (ip, n) → MaskIP ip (Mask n) = IP n.
Proof.
  unfold ParseCIDR. destruct (split_slash s) as [[addr mask] |]; [| done].
  destruct (ParseIP addr); [| done].
  destruct (dtoi mask) as [[[k ?] [|]] |]; try done.
  destruct (N.ltb_spec 32 k); [done |]. by intros [= <- <-].
Qed.

(** A subnet with a mapped address is not taken out of its pool. *)
Lemma DeleteSubnet_refuses (db : persistentStore) (poolID subnetID : string)
    (ds : Datastore) (p : Pool.t) (sub : ExternalSubnet.t) (ip0 : N) (ipNet : IPNet)
    (a : N) :
  pools ds !! poolID = Some p →
  (∃ i, list_find (λ sub, ExternalSubnet.ID sub = subnetID) (Pool.Subnets p)
          = Some (i, sub)) →
  ParseCIDR (ExternalSubnet.CIDR sub) = Some (ip0, ipNet) →
  (a < 2 ^ 32)%N → Contains ipNet a = true →
  is_Some (mappedIPs ds !! IP_String a) →
  run (DeleteSubnet db poolID subnetID) ds
    = Some (Some ErrPoolNotEmpty, {| cache := ds; log := [] |}).
Proof.
  intros Hp [i Hfind] Hparse Ha Hin Hm.
  pose proof (ParseCIDR_canonical _ _ _ Hparse) as Hc.
  unfold DeleteSubnet. run_unfold. rewrite Hp, Hfind, Hparse.
  rewrite (ParseCIDR_IP _ _ _ Hparse).
  rewrite (subnetMapped_true _ _ a); [done | done | done | done | done | | ].
  - apply Contains_range in Hin; [lia | done | done].
  - apply Contains_range in Hin; [lia | done | done].
Qed.

(** X7.  [DeleteSubnet] refuses a subnet that has a mapped address: when
    an address of the subnet is a key of [mappedIPs], the call returns
    [ErrPoolNotEmpty], asks the store nothing and leaves the cache as it
    is. *)
Theorem DeleteSubnet_mapped_refused (db : persistentStore) (poolID subnetID : string)
    (ds : Datastore) (p : Pool.t) (sub : ExternalSubnet.t) (ip0 : N) (ipNet : IPNet)
    (a : N) :
  pools ds !! poolID = Some p →
  subnetWithID p subnetID sub →
  ParseCIDR (ExternalSubnet.CIDR sub) = Some (ip0, ipNet) →
  (a < 2 ^ 32)%N → Contains ipNet a = true →
  is_Some (mappedIPs ds !! IP_String a) →
  run (DeleteSubnet db poolID subnetID) ds
    = Some (Some ErrPoolNotEmpty, {| cache := ds; log := [] |}).
Proof.
  intros Hp Hsub%subnetWithID_find. by apply (DeleteSubnet_refuses _ _ _ _ p).
Qed.

Lemma DeleteSubnet_mapped_refused_witness :
  run (DeleteSubnet okStore "p" "s") (cache mappedOk_world)
    = Some (Some ErrPoolNotEmpty, {| cache := cache mappedOk_world; log := [] |}).
Proof.
  apply (DeleteSubnet_mapped_refused okStore "p" "s" (cache mappedOk_world)
           (with_Free 1 poolP)
           {| ExternalSubnet.ID := "s"; ExternalSubnet.CIDR := "10.0.0.0/30" |}
           167772160%N {| IP := 167772160; Ones := 30 |} 167772161%N).
  - reflexivity.
  - split; [apply list_elem_of_here |]. split; [reflexivity |].
    intros sub' Hin _. by apply list_elem_of_singleton in Hin.
  - vm_compute. reflexivity.
  - reflexivity.
  - vm_compute. reflexivity.
  - eexists. vm_compute. reflexivity.
Defined.

Lemma removeAt_app_last {A} (l : list A) (x : A) : removeAt (List.length l) (l ++ [x]) = l.
Proof.
  unfold removeAt. rewrite take_app_length.
  rewrite drop_ge by (rewrite length_app; simpl; lia). by rewrite app_nil_r.
Qed.

(** X8.  [DeleteSubnet] undoes [AddExternalSubnet].  A subnet of prefix
    length 1 or more with no mapped address is added to a pool under an id
    that no subnet of the pool carries; its CIDR was not listed before and is
    listed after.  Deleting the subnet by this id then succeeds when the
    store takes the update: the pool is what it was before, counters
    included, and so is the rest of the cache, the CIDR being listed no
    more. *)
Theorem subnet_added_then_deleted (db db' : persistentStore) (uuid poolID subnet : string)
    (ds : Datastore) (p : Pool.t) (ip0 : N) (ipNet : IPNet) (w1 : world) :
  pools ds !! poolID = Some p →
  is_int (Pool.Free p) → is_int (Pool.TotalIPs p) →
  (∀ sub, sub ∈ Pool.Subnets p → ExternalSubnet.ID sub ≠ uuid) →
  ParseCIDR subnet = Some (ip0, ipNet) → (1 ≤ Ones ipNet)%N →
  (∀ y, (y < 2 ^ 32)%N → Contains ipNet y = true → mappedIPs ds !! IP_String y = None) →
  run (AddExternalSubnet db uuid poolID subnet) ds = Some (None, w1) →
  (∀ q, exec db' (updatePool q) = None) →
  externalSubnets ds !! subnet ≠ Some true ∧
  externalSubnets (cache w1) !! subnet = Some true ∧
  ∃ w2,
    run (DeleteSubnet db' poolID uuid) (cache w1) = Some (None, w2) ∧
    cache w2 = set_externalSubnets (delete subnet) ds.
Proof.
  intros Hp Hfree Htotal Hfresh Hparse Hones Hunmapped Hadd Hupd.
  pose proof (ParseCIDR_canonical _ _ _ Hparse) as Hc.
  unfold AddExternalSubnet in Hadd. rewrite Hparse in Hadd.
  run_unfold. rewrite Hp in Hadd.
  destruct (isDuplicateSubnet ds ipNet) eqn:Hdup; [done |].
  destruct (_ <=? 0)%Z eqn:Hsmall; [done |]. cbn [cache log] in Hadd.
  destruct (exec db _); [done |]. injection Hadd as <-.
  split.
  { intros Hlisted. apply not_true_iff_false in Hdup. apply Hdup.
    apply isDuplicateSubnet_true. exists subnet, ip0, ipNet.
    split; [done |]. split; [done |].
    unfold Contains. by rewrite N.eqb_refl. }
  cbn [cache externalSubnets set_externalSubnets set_pools].
  split; [by rewrite lookup_insert_eq |].
  unfold DeleteSubnet. run_unfold.
  cbn [pools set_pools set_externalSubnets mappedIPs cache log].
  rewrite lookup_insert_eq. cbn [Pool.Subnets].
  assert (Hfind : list_find (λ sub, ExternalSubnet.ID sub = uuid)
                    (Pool.Subnets p ++
                       [{| ExternalSubnet.ID := uuid; ExternalSubnet.CIDR := subnet |}])
                  = Some (List.length (Pool.Subnets p),
                          {| ExternalSubnet.ID := uuid; ExternalSubnet.CIDR := subnet |})).
  { apply list_find_app_Some. right. split; [lia |]. split.
    - apply list_find_None, Forall_forall. intros sub Hin. by apply Hfresh.
    - rewrite Nat.sub_diag. simpl. by rewrite decide_True. }
  rewrite Hfind. cbn [ExternalSubnet.CIDR]. rewrite Hparse.
  rewrite (ParseCIDR_IP _ _ _ Hparse).
  assert (Hk : (0 < 2 ^ (32 - Ones ipNet))%N) by (apply N.neq_0_lt_0, N.pow_nonzero; lia).
  destruct (canonical_bounds ipNet Hc) as [_ Hend].
  pose proof (subnetMapped_false (mappedIPs ds) ipNet
                (S (N.to_nat (2 ^ (32 - Ones ipNet)))) (IP ipNet) Hc Hones Hunmapped
                ltac:(lia) ltac:(lia)) as Hloop.
  unfold u32 in Hloop. rewrite N.mod_small in Hloop by lia. rewrite Hloop.
  cbn [cache log pools set_pools]. rewrite Hupd. cbn [cache log].
  eexists. split; [done |]. cbn [cache].
  unfold set_pools, set_externalSubnets. cbn.
  rewrite !insert_insert_eq, removeAt_app_last, delete_insert_eq.
  rewrite !int_add_sub by done.
  assert (Hrec : {| Pool.ID := Pool.ID p; Pool.Name := Pool.Name p;
                    Pool.Free := Pool.Free p; Pool.TotalIPs := Pool.TotalIPs p;
                    Pool.Subnets := Pool.Subnets p; Pool.IPs := Pool.IPs p |} = p)
    by by destruct p.
  by rewrite Hrec, insert_id.
Qed.

Lemma subnet_added_then_deleted_witness :
  externalSubnets dsPool !! "10.0.1.0/24" ≠ Some true ∧
  externalSubnets (cache subnetAdded_world) !! "10.0.1.0/24" = Some true ∧
  ∃ w2,
    run (DeleteSubnet okStore "p" "s2") (cache subnetAdded_world) = Some (None, w2) ∧
    cache w2 = set_externalSubnets (delete "10.0.1.0/24") dsPool.
Proof.
  apply (subnet_added_then_deleted okStore okStore "s2" "p" "10.0.1.0/24" dsPool poolP
           167772416%N {| IP := 167772416; Ones := 24 |} subnetAdded_world).
  - reflexivity.
  - reflexivity.
  - reflexivity.
  - intros sub Hin. apply list_elem_of_singleton in Hin. by rewrite Hin.
  - vm_compute. reflexivity.
  - vm_compute. discriminate.
  - intros y _ _. apply lookup_empty.
  - vm_compute. reflexivity.
  - reflexivity.
Defined.

Lemma elem_of_shiftedAt {A} (l : list A) (i : nat) (x : A) :
  (S i < List.length l)%nat → x ∈ shiftedAt i l → ∃ j, j ≠ i ∧ l !! j = Some x.
Proof.
  intros Hi. unfold shiftedAt. rewrite !elem_of_app.
  intros [H | [H | H]]; apply list_elem_of_lookup in H as [j Hj].
  - apply lookup_take_Some in Hj as [Hj ?]. exists j. split; [lia | done].
  - rewrite lookup_drop in Hj. exists (S i + j)%nat. split; [lia | done].
  - rewrite lookup_drop in Hj. exists (List.length l - 1 + j)%nat. split; [lia | done].
Qed.

Lemma list_find_NoDup {A} (f : A → string) (l : list A) (i : nat) (x : A) :
  NoDup (f <$> l) → l !! i = Some x →
  list_find (λ y, f y = f x) l = Some (i, x).
Proof.
  intros Hnd Hi. apply list_find_Some. split; [done |]. split; [done |].
  intros j y Hj Hlt Heq.
  assert (i = j); [| lia].
  eapply (NoDup_lookup _ _ _ (f x) Hnd); rewrite list_lookup_fmap.
  - by rewrite Hi.
  - by rewrite Hj, <- Heq.
Qed.

(** X9.  [DeleteSubnet] with a store that refuses the update of the pool,
    for a subnet that is not the last of its pool: the call returns the
    wrapped error of the store, the counters of the cached pool and the table
    of subnets in use are unchanged, but the cached pool no longer lists the
    subnet (its slice has the old length and shares the array that the
    [append] has shifted).  A second [DeleteSubnet] of the same subnet
    returns [ErrInvalidPoolAddress] without asking the store. *)
Theorem DeleteSubnet_store_failure (db : persistentStore) (poolID : string)
    (ds : Datastore) (p : Pool.t) (i : nat) (sub : ExternalSubnet.t)
    (ip0 : N) (ipNet : IPNet) (e : error) :
  pools ds !! poolID = Some p →
  NoDup (ExternalSubnet.ID <$> Pool.Subnets p) →
  Pool.Subnets p !! i = Some sub → (S i < List.length (Pool.Subnets p))%nat →
  ParseCIDR (ExternalSubnet.CIDR sub) = Some (ip0, ipNet) → (1 ≤ Ones ipNet)%N →
  (∀ y, (y < 2 ^ 32)%N → Contains ipNet y = true → mappedIPs ds !! IP_String y = None) →
  (∀ q, exec db (updatePool q) = Some e) →
  ∃ w p',
    run (DeleteSubnet db poolID (ExternalSubnet.ID sub)) ds
      = Some (Some (Wrapped "error updating pool in database" e), w) ∧
    externalSubnets (cache w) = externalSubnets ds ∧
    pools (cache w) !! poolID = Some p' ∧
    Pool.Free p' = Pool.Free p ∧ Pool.TotalIPs p' = Pool.TotalIPs p ∧
    List.length (Pool.Subnets p') = List.length (Pool.Subnets p) ∧
    (sub ∉ Pool.Subnets p') ∧
    ∀ db', run (DeleteSubnet db' poolID (ExternalSubnet.ID sub)) (cache w)
             = Some (Some ErrInvalidPoolAddress, {| cache := cache w; log := [] |}).
Proof.
  intros Hp Hnd Hi Hlast Hparse Hones Hunmapped Hfail.
  pose proof (ParseCIDR_canonical _ _ _ Hparse) as Hc.
  pose proof (list_find_NoDup ExternalSubnet.ID _ _ _ Hnd Hi) as Hfind.
  assert (Hk : (0 < 2 ^ (32 - Ones ipNet))%N) by (apply N.neq_0_lt_0, N.pow_nonzero; lia).
  destruct (canonical_bounds ipNet Hc) as [_ Hend].
  pose proof (subnetMapped_false (mappedIPs ds) ipNet
                (S (N.to_nat (2 ^ (32 - Ones ipNet)))) (IP ipNet) Hc Hones Hunmapped
                ltac:(lia) ltac:(lia)) as Hloop.
  unfold u32 in Hloop. rewrite N.mod_small in Hloop by lia.
  assert (Hgone : ∀ x, x ∈ shiftedAt i (Pool.Subnets p) →
            ExternalSubnet.ID x ≠ ExternalSubnet.ID sub).
  { intros x (j & Hne & Hj)%elem_of_shiftedAt Heq; [| done]. apply Hne.
    eapply (NoDup_lookup _ _ _ (ExternalSubnet.ID sub) Hnd); rewrite list_lookup_fmap.
    - by rewrite Hj, <- Heq.
    - by rewrite Hi. }
  unfold DeleteSubnet. run_unfold. rewrite Hp, Hfind, Hparse.
  rewrite (ParseCIDR_IP _ _ _ Hparse), Hloop. cbn [cache log]. rewrite Hfail.
  eexists _, _. split; [done |]. cbn [cache set_pools externalSubnets pools].
  rewrite lookup_insert_eq. split; [done |]. split; [done |].
  cbn [Pool.Free Pool.TotalIPs Pool.Subnets]. split; [done |]. split; [done |].
  split.
  { unfold shiftedAt. rewrite !length_app, length_take, !length_drop. lia. }
  split.
  { intros Hin. by apply (Hgone sub). }
  intros db'. cbn [cache set_pools pools log Pool.Subnets].
  assert (Hnone : list_find (λ x, ExternalSubnet.ID x = ExternalSubnet.ID sub)
                    (shiftedAt i (Pool.Subnets p)) = None).
  { apply list_find_None, Forall_forall. intros x Hx. by apply Hgone. }
  by rewrite Hnone.
Qed.

Lemma DeleteSubnet_store_failure_witness :
  ∃ w p',
    run (DeleteSubnet noUpdatePoolStore "p" "s") (cache subnetAdded_world)
      = Some (Some (Wrapped "error updating pool in database" (ErrStore "updatePool")), w) ∧
    externalSubnets (cache w) = externalSubnets (cache subnetAdded_world) ∧
    pools (cache w) !! "p" = Some p' ∧
    Pool.Free p' = 256%Z ∧ Pool.TotalIPs p' = 256%Z ∧
    List.length (Pool.Subnets p') = 2%nat ∧
    ({| ExternalSubnet.ID := "s"; ExternalSubnet.CIDR := "10.0.0.0/30" |}
       ∉ Pool.Subnets p') ∧
    ∀ db', run (DeleteSubnet db' "p" "s") (cache w)
             = Some (Some ErrInvalidPoolAddress, {| cache := cache w; log := [] |}).
Proof.
  apply (DeleteSubnet_store_failure noUpdatePoolStore "p" (cache subnetAdded_world) poolP2
           0 {| ExternalSubnet.ID := "s"; ExternalSubnet.CIDR := "10.0.0.0/30" |}
           167772160%N {| IP := 167772160; Ones := 30 |} (ErrStore "updatePool")).
  - reflexivity.
  - cbn. apply NoDup_cons. split; [by intros ?%list_elem_of_singleton | apply NoDup_singleton].
  - reflexivity.
  - simpl. lia.
  - vm_compute. reflexivity.
  - vm_compute. discriminate.
  - intros y _ _. reflexivity.
  - reflexivity.
Defined.

(** ** Subnets that are accepted *)

Lemma Contains_IP (n : IPNet) : Contains n (IP n) = true.
Proof. unfold Contains. apply N.eqb_refl. Qed.

(** The check of [isDuplicateSubnet] is the overlap with a listed subnet. *)
Lemma isDuplicateSubnet_overlaps (ds : Datastore) (new : IPNet) :
  (Ones new ≤ 32)%N →
  isDuplicateSubnet ds new = true ↔
  ∃ cidr ip0 old, externalSubnets ds !! cidr = Some true ∧
                  ParseCIDR cidr = Some (ip0, old) ∧ overlaps old new.
Proof.
  intros Hones. rewrite isDuplicateSubnet_true. unfold listedSubnet. split.
  - intros (k & ip0 & old & Hk & Hp & [Hc | Hc]%orb_true_iff);
      exists k, ip0, old; (split; [done |]); (split; [done |]).
    + exists (IP new). split; [done | apply Contains_IP].
    + exists (IP old). split; [apply Contains_IP | done].
  - intros (k & ip0 & old & Hk & Hp & Hov). exists k, ip0, old.
    split; [done |]. split; [done |].
    apply overlaps_Contains; [by eapply ParseCIDR_Ones | done | done].
Qed.

(** X10.  [AddExternalSubnet] accepts a subnet of 4 addresses or more that
    overlaps no subnet listed in [externalSubnets], when the pool is in the
    cache and the store takes the update: the pool gains the subnet, [Free]
    and [TotalIPs] grow by the size of the subnet minus two, and the CIDR is
    listed.  From then on every [AddExternalSubnet] of a subnet that
    overlaps it, on any pool of the cache, returns [ErrDuplicateSubnet] and
    changes nothing. *)
Theorem AddExternalSubnet_accepts (db : persistentStore) (uuid poolID subnet : string)
    (ds : Datastore) (p : Pool.t) (ip0 : N) (new : IPNet) :
  pools ds !! poolID = Some p →
  ParseCIDR subnet = Some (ip0, new) → (Ones new ≤ 30)%N →
  (∀ cidr ip1 old, externalSubnets ds !! cidr = Some true →
     ParseCIDR cidr = Some (ip1, old) → ¬ overlaps old new) →
  (∀ q, exec db (updatePool q) = None) →
  ∃ w,
    run (AddExternalSubnet db uuid poolID subnet) ds = Some (None, w) ∧
    pools (cache w) !! poolID =
      Some {| Pool.ID := Pool.ID p; Pool.Name := Pool.Name p;
              Pool.Free := int (Pool.Free p + (2 ^ (32 - Z.of_N (Ones new)) - 2));
              Pool.TotalIPs := int (Pool.TotalIPs p + (2 ^ (32 - Z.of_N (Ones new)) - 2));
              Pool.Subnets := Pool.Subnets p ++
                [{| ExternalSubnet.ID := uuid; ExternalSubnet.CIDR := subnet |}];
              Pool.IPs := Pool.IPs p |} ∧
    externalSubnets (cache w) = <[subnet := true]> (externalSubnets ds) ∧
    ∀ db' uuid' poolID' subnet' ip' new',
      is_Some (pools (cache w) !! poolID') →
      ParseCIDR subnet' = Some (ip', new') → overlaps new new' →
      run (AddExternalSubnet db' uuid' poolID' subnet') (cache w)
        = Some (Some ErrDuplicateSubnet, {| cache := cache w; log := [] |}).
Proof.
  intros Hp Hparse Hones Hdisjoint Hupd.
  assert (Hdup : isDuplicateSubnet ds new = false).
  { apply not_true_iff_false. intros (cidr & ip1 & old & Hk & Hpo & Hov)%isDuplicateSubnet_overlaps;
      [| lia]. by eapply Hdisjoint. }
  assert (Hsize : (2 ^ (32 - Z.of_N (Ones new)) - 2 <=? 0)%Z = false).
  { apply Z.leb_gt. assert (2 ^ 2 ≤ 2 ^ (32 - Z.of_N (Ones new)))%Z
      by (apply Z.pow_le_mono_r; lia). lia. }
  unfold AddExternalSubnet at 1. rewrite Hparse. run_unfold. rewrite Hp, Hdup.
  cbn zeta. rewrite Hsize. cbn [cache log]. rewrite Hupd. cbn [cache log].
  eexists. split; [done |]. cbn [cache pools set_pools set_externalSubnets externalSubnets].
  rewrite lookup_insert_eq. split; [done |]. split; [done |].
  intros db' uuid' poolID' subnet' ip' new' [p' Hp'] Hparse' Hov.
  cbn [pools set_pools set_externalSubnets] in Hp'.
  unfold AddExternalSubnet. rewrite Hparse'. run_unfold.
  cbn [pools set_pools set_externalSubnets cache]. rewrite Hp'.
  assert (Hdup' : isDuplicateSubnet
                    (set_externalSubnets <[subnet:=true]>
                       (set_pools
                          <[poolID:={| Pool.ID := Pool.ID p; Pool.Name := Pool.Name p;
                                       Pool.Free := int (Pool.Free p + (2 ^ (32 - Z.of_N (Ones new)) - 2));
                                       Pool.TotalIPs := int (Pool.TotalIPs p + (2 ^ (32 - Z.of_N (Ones new)) - 2));
                                       Pool.Subnets := Pool.Subnets p ++
                                         [{| ExternalSubnet.ID := uuid; ExternalSubnet.CIDR := subnet |}];
                                       Pool.IPs := Pool.IPs p |}]> ds)) new' = true).
  { apply isDuplicateSubnet_overlaps; [by eapply ParseCIDR_Ones |].
    exists subnet, ip0, new. split; [| done].
    cbn [externalSubnets set_externalSubnets]. apply lookup_insert_eq. }
  by rewrite Hdup'.
Qed.

Lemma AddExternalSubnet_accepts_witness :
  ∃ w,
    run (AddExternalSubnet okStore "s1" "A" "10.0.1.0/24") dsA = Some (None, w) ∧
    pools (cache w) !! "A" =
      Some {| Pool.ID := "A"; Pool.Name := "A"; Pool.Free := 508; Pool.TotalIPs := 508;
              Pool.Subnets := [subnetA;
                               {| ExternalSubnet.ID := "s1";
                                  ExternalSubnet.CIDR := "10.0.1.0/24" |}];
              Pool.IPs := [] |} ∧
    externalSubnets (cache w) = <["10.0.1.0/24" := true]> (externalSubnets dsA) ∧
    ∀ db' uuid' poolID' subnet' ip' new',
      is_Some (pools (cache w) !! poolID') →
      ParseCIDR subnet' = Some (ip', new') →
      overlaps {| IP := 167772416; Ones := 24 |} new' →
      run (AddExternalSubnet db' uuid' poolID' subnet') (cache w)
        = Some (Some ErrDuplicateSubnet, {| cache := cache w; log := [] |}).
Proof.
  apply (AddExternalSubnet_accepts okStore "s1" "A" "10.0.1.0/24" dsA poolA
           167772416%N {| IP := 167772416; Ones := 24 |}).
  - reflexivity.
  - vm_compute. reflexivity.
  - vm_compute. discriminate.
  - intros cidr ip1 old Hk Hp (ip & C1 & C2).
    cbn [externalSubnets dsA] in Hk. apply lookup_singleton_Some in Hk as [<- _].
    vm_compute in Hp. injection Hp as _ <-.
    unfold Contains in C1, C2. apply N.eqb_eq in C1, C2.
    change (Mask {| IP := 167772416; Ones := 24 |}) with (Mask {| IP := 167772160; Ones := 24 |}) in C2.
    rewrite <- C1 in C2. vm_compute in C2. discriminate C2.
  - reflexivity.
Defined.

(** ** [AddPool] and [DeletePool] *)

Lemma lookup_foldl_insert {A} (key : A → string) (l : list A) (m : gmap string bool)
    (k : string) :
  foldl (λ m x, <[key x := true]> m) m l !! k =
  if decide (k ∈ key <$> l) then Some true else m !! k.
Proof.
  revert m. induction l as [| x l IH]; intros m; cbn [foldl].
  - case_decide as H; [by apply elem_of_nil in H | done].
  - rewrite IH, fmap_cons. destruct (decide (k ∈ key <$> l)) as [Hin | Hnin].
    + rewrite decide_True; [done | by apply list_elem_of_further].
    + destruct (decide (k = key x)) as [-> | Hne].
      * rewrite lookup_insert_eq. rewrite decide_True; [done | apply list_elem_of_here].
      * rewrite lookup_insert_ne by done. rewrite decide_False; [done |].
        intros [? | ?]%elem_of_cons; done.
Qed.

Lemma lookup_foldl_delete {A} (key : A → string) (l : list A) (m : gmap string bool)
    (k : string) :
  foldl (λ m x, delete (key x) m) m l !! k =
  if decide (k ∈ key <$> l) then None else m !! k.
Proof.
  revert m. induction l as [| x l IH]; intros m; cbn [foldl].
  - case_decide as H; [by apply elem_of_nil in H | done].
  - rewrite IH, fmap_cons. destruct (decide (k ∈ key <$> l)) as [Hin | Hnin].
    + rewrite decide_True; [done | by apply list_elem_of_further].
    + destruct (decide (k = key x)) as [-> | Hne].
      * rewrite lookup_delete_eq. rewrite decide_True; [done | apply list_elem_of_here].
      * rewrite lookup_delete_ne by done. rewrite decide_False; [done |].
        intros [? | ?]%elem_of_cons; done.
Qed.

(** What [DeletePool] removes from a table is what [AddPool] has entered,
    when the table had none of the keys. *)
Lemma foldl_delete_insert {A} (key : A → string) (l : list A) (m : gmap string bool) :
  (∀ x, x ∈ l → m !! key x = None) →
  foldl (λ m x, delete (key x) m) (foldl (λ m x, <[key x := true]> m) m l) l = m.
Proof.
  intros Hnew. apply map_eq. intros k.
  rewrite lookup_foldl_delete, lookup_foldl_insert.
  destruct (decide (k ∈ key <$> l)) as [Hin | Hnin]; [| done].
  apply list_elem_of_fmap in Hin as (x & -> & Hx). symmetry. by apply Hnew.
Qed.

(** A run of the loop of [AddPool] over the subnets that refuses none of
    them: every subnet is entered, and none of them was listed. *)
Lemma addPoolSubnets_done (subs : list ExternalSubnet.t) (ds : Datastore)
    (l : list event) (w : world) :
  addPoolSubnets subs {| cache := ds; log := l |} = Some (None, w) →
  w = {| cache := set_externalSubnets
                    (λ m, foldl (λ m sub, <[ExternalSubnet.CIDR sub := true]> m) m subs) ds;
         log := l |} ∧
  ∀ sub, sub ∈ subs → externalSubnets ds !! ExternalSubnet.CIDR sub ≠ Some true.
Proof.
  revert ds. induction subs as [| sub subs IH]; intros ds; cbn [addPoolSubnets].
  - run_unfold. intros [= <-]. split; [by destruct ds |]. by intros ? ?%elem_of_nil.
  - destruct (ParseCIDR (ExternalSubnet.CIDR sub)) as [[ip new] |] eqn:Hp;
      run_unfold; [| done].
    destruct (isDuplicateSubnet ds new) eqn:Hdup; [done |].
    intros [-> Hfresh]%IH. split; [done |].
    assert (Hsub : externalSubnets ds !! ExternalSubnet.CIDR sub ≠ Some true).
    { intros Hk. apply not_true_iff_false in Hdup. apply Hdup.
      apply isDuplicateSubnet_true. exists (ExternalSubnet.CIDR sub), ip, new.
      split; [done |]. split; [done |]. by rewrite Contains_IP. }
    intros sub' [-> | Hin]%elem_of_cons; [done |].
    specialize (Hfresh sub' Hin). cbn [externalSubnets set_externalSubnets] in Hfresh.
    intros Hk. apply Hfresh.
    destruct (decide (ExternalSubnet.CIDR sub = ExternalSubnet.CIDR sub')) as [-> | Hne];
      [by rewrite lookup_insert_eq | by rewrite lookup_insert_ne].
Qed.

(** X11.  [DeletePool] undoes [AddPool].  A pool with subnets and no
    individual addresses, all of its addresses free, is added under an id
    that is not in the cache: the pool is in the cache afterwards and each of
    its subnets, not listed before, is listed.  [DeletePool] of this id then
    puts the cache back to what it was before [AddPool], whatever the store
    answers, and returns the answer of the store, wrapped when it is an
    error. *)
Theorem pool_added_then_deleted (db db' : persistentStore) (pool : Pool.t)
    (ds : Datastore) (w1 : world) :
  pools ds !! Pool.ID pool = None →
  Pool.Subnets pool ≠ [] → Pool.IPs pool = [] →
  Pool.Free pool = Pool.TotalIPs pool →
  (∀ k b, externalSubnets ds !! k = Some b → b = true) →
  run (AddPool db pool) ds = Some (None, w1) →
  pools (cache w1) !! Pool.ID pool = Some pool ∧
  (∀ sub, sub ∈ Pool.Subnets pool →
     externalSubnets ds !! ExternalSubnet.CIDR sub = None ∧
     externalSubnets (cache w1) !! ExternalSubnet.CIDR sub = Some true) ∧
  ∃ w2,
    run (DeletePool db' (Pool.ID pool)) (cache w1)
      = Some (Wrap (exec db' (deletePool (Pool.ID pool)))
                "error deleting pool from database", w2) ∧
    cache w2 = ds.
Proof.
  intros Hnew Hsubs Hips Hfree Htrue Hadd.
  unfold run, AddPool, checkPool in Hadd.
  destruct (Pool.Subnets pool) as [| sub0 subs0] eqn:Hs; [done |]. rewrite <- Hs in *.
  unfold bind at 1 in Hadd.
  destruct (addPoolSubnets _ _) as [[[e |] w0] |] eqn:Hloop; [by run_unfold | | done].
  apply addPoolSubnets_done in Hloop as [-> Hfresh].
  run_unfold. destruct (exec db (addPool pool)) as [e |] eqn:Hex.
  { unfold DeletePool in Hadd. run_unfold. run_cases. }
  injection Hadd as <-.
  assert (Habsent : ∀ sub, sub ∈ Pool.Subnets pool →
            externalSubnets ds !! ExternalSubnet.CIDR sub = None).
  { intros sub Hin. specialize (Hfresh sub Hin).
    destruct (externalSubnets ds !! _) as [b |] eqn:Hk; [| done].
    by rewrite (Htrue _ _ Hk) in Hfresh. }
  cbn [cache pools set_pools set_externalSubnets externalSubnets].
  split; [apply lookup_insert_eq |]. split.
  { intros sub Hin. split; [by apply Habsent |].
    rewrite lookup_foldl_insert. rewrite decide_True; [done |].
    apply list_elem_of_fmap. by exists sub. }
  unfold DeletePool. run_unfold.
  cbn [cache pools set_pools set_externalSubnets log]. rewrite lookup_insert_eq.
  rewrite decide_False by (intros H; by apply H).
  cbn [cache log]. eexists. split; [done |]. cbn [cache].
  unfold set_pools, set_externalSubnets, set_externalIPs. cbn.
  rewrite Hips. cbn [foldl].
  rewrite foldl_delete_insert by done.
  rewrite delete_insert_id by done. by destruct ds.
Qed.

Lemma pool_added_then_deleted_witness :
  pools dsA !! "A" = Some poolA ∧
  (∀ sub, sub ∈ [subnetA] →
     externalSubnets emptyDatastore !! ExternalSubnet.CIDR sub = None ∧
     externalSubnets dsA !! ExternalSubnet.CIDR sub = Some true) ∧
  ∃ w2,
    run (DeletePool okStore "A") dsA = Some (None, w2) ∧
    cache w2 = emptyDatastore.
Proof.
  apply (pool_added_then_deleted okStore okStore poolA emptyDatastore
           {| cache := dsA; log := [Persist (addPool poolA) dsA] |}).
  - reflexivity.
  - discriminate.
  - reflexivity.
  - reflexivity.
  - intros k b H. cbn [externalSubnets emptyDatastore] in H. by rewrite lookup_empty in H.
  - vm_compute. reflexivity.
Defined.

(** ** A mapped address keeps its pool *)

Lemma is_int_range (x : Z) : is_int x ↔ (- 2 ^ 63 ≤ x < 2 ^ 63)%Z.
Proof.
  unfold is_int, int. split.
  - intros <-. pose proof (Z.mod_pos_bound (x + 2 ^ 63) (2 ^ 64)). lia.
  - intros H. rewrite Z.mod_small by lia. lia.
Qed.

(** X12.  A mapped address keeps its pool.  After [MapExternalIP] has
    handed out an address of a pool whose [Free] was between 1 and
    [TotalIPs] and whose subnets and addresses carry distinct ids,
    [DeletePool] of the pool returns [ErrPoolNotEmpty]; and so does
    [DeleteSubnet] of a subnet of the pool, or [DeleteExternalIP] of the
    individual address that was handed out.  None of them asks the store or
    changes the cache. *)
Theorem mapped_address_keeps_pool (db : persistentStore) (uuid poolID instanceID : string)
    (ds : Datastore) (pool : Pool.t) (m : MappedIP.t) (w : world) :
  pools ds !! poolID = Some pool →
  (0 < Pool.Free pool ≤ Pool.TotalIPs pool)%Z → is_int (Pool.TotalIPs pool) →
  NoDup (ExternalSubnet.ID <$> Pool.Subnets pool) →
  NoDup (ExternalIP.ID <$> Pool.IPs pool) →
  run (MapExternalIP db uuid poolID instanceID) ds = Some ((m, None), w) →
  (∀ db', run (DeletePool db' poolID) (cache w)
            = Some (Some ErrPoolNotEmpty, {| cache := cache w; log := [] |})) ∧
  ((∃ sub, sub ∈ Pool.Subnets pool ∧
           ∀ db', run (DeleteSubnet db' poolID (ExternalSubnet.ID sub)) (cache w)
                    = Some (Some ErrPoolNotEmpty, {| cache := cache w; log := [] |})) ∨
   (∃ extIP, extIP ∈ Pool.IPs pool ∧
             ExternalIP.Address extIP = MappedIP.ExternalIP m ∧
             ∀ db', run (DeleteExternalIP db' poolID (ExternalIP.ID extIP)) (cache w)
                      = Some (Some ErrPoolNotEmpty, {| cache := cache w; log := [] |}))).
Proof.
  intros Hp Hfree Htotal Hsubs Hips
    (instance & pool' & Hi & Hp' & _ & Hm & Hnew & Hoff & Hc & Hl)%MapExternalIP_done.
  rewrite Hp in Hp'. injection Hp' as <-.
  apply is_int_range in Htotal.
  assert (Hint : int (Pool.Free pool - 1) = (Pool.Free pool - 1)%Z)
    by (apply is_int_range; lia).
  assert (Hpw : pools (cache w) !! poolID = Some (with_Free (int (Pool.Free pool - 1)) pool)).
  { rewrite Hc. cbn [pools set_pools]. apply lookup_insert_eq. }
  assert (Hmw : mappedIPs (cache w) !! MappedIP.ExternalIP m = Some m).
  { rewrite Hc. cbn [mappedIPs set_pools set_mappedIPs]. apply lookup_insert_eq. }
  split.
  { intros db'. unfold DeletePool. run_unfold. rewrite Hpw.
    cbn [Pool.Free Pool.TotalIPs with_Free]. rewrite Hint.
    by rewrite decide_True by lia. }
  destruct Hoff as [(sub & ip0 & ipNet & a & Hin & Hparse & Hca & Ha & _ & Haddr)
                   | (extIP & Hin & Haddr)].
  - left. exists sub. split; [done |]. intros db'.
    apply (DeleteSubnet_refuses db' poolID (ExternalSubnet.ID sub) (cache w)
             (with_Free (int (Pool.Free pool - 1)) pool) sub ip0 ipNet a);
      [done | | done | done | done | rewrite <- Haddr; by eexists].
    apply list_elem_of_lookup in Hin as [i Hi'].
    exists i. by apply (list_find_NoDup ExternalSubnet.ID).
  - right. exists extIP. split; [done |]. split; [done |]. intros db'.
    apply list_elem_of_lookup in Hin as [i Hi'].
    pose proof (list_find_NoDup ExternalIP.ID _ _ _ Hips Hi') as Hfind.
    unfold DeleteExternalIP. run_unfold. rewrite Hpw. cbn [Pool.IPs with_Free].
    by rewrite Hfind, Haddr, Hmw.
Qed.

Lemma mapped_address_keeps_pool_witness :
  (∀ db', run (DeletePool db' "p") (cache mappedOk_world)
            = Some (Some ErrPoolNotEmpty, {| cache := cache mappedOk_world; log := [] |})) ∧
  ((∃ sub, sub ∈ Pool.Subnets poolP ∧
           ∀ db', run (DeleteSubnet db' "p" (ExternalSubnet.ID sub)) (cache mappedOk_world)
                    = Some (Some ErrPoolNotEmpty,
                            {| cache := cache mappedOk_world; log := [] |})) ∨
   (∃ extIP, extIP ∈ Pool.IPs poolP ∧
             ExternalIP.Address extIP = "10.0.0.1" ∧
             ∀ db', run (DeleteExternalIP db' "p" (ExternalIP.ID extIP)) (cache mappedOk_world)
                      = Some (Some ErrPoolNotEmpty,
                              {| cache := cache mappedOk_world; log := [] |}))).
Proof.
  apply (mapped_address_keeps_pool okStore "m" "p" "i" dsPool poolP mapping_10_0_0_1
           mappedOk_world).
  - reflexivity.
  - simpl. lia.
  - reflexivity.
  - cbn. apply NoDup_singleton.
  - cbn. apply NoDup_nil_2.
  - apply mappedOk_world_run.
Defined.

(** ** [GetTenantUsage] *)

Lemma nondecreasing_cons (x : CiaoUsage.t) (l : list CiaoUsage.t) :
  nondecreasing (x :: l) →
  nondecreasing l ∧ Forall (λ y, (CiaoUsage.Timestamp x ≤ CiaoUsage.Timestamp y)%Z) l.
Proof.
  intros H. split.
  - intros i j a b Hij Hi Hj. apply (H (S i) (S j)); [lia | done | done].
  - apply Forall_lookup. intros i y Hy. apply (H 0%nat (S i)); [lia | done | done].
Qed.

Lemma filter_none {A} (P : A → Prop) `{!∀ x, Decision (P x)} (l : list A) :
  Forall (λ x, ¬ P x) l → filter P l = [].
Proof.
  induction 1 as [| x l Hx _ IH]; [done |]. by rewrite filter_cons_False.
Qed.

Lemma filter_all {A} (P : A → Prop) `{!∀ x, Decision (P x)} (l : list A) :
  Forall P l → filter P l = l.
Proof.
  induction 1 as [| x l Hx _ IH]; [done |]. rewrite filter_cons_True by done.
  by rewrite IH.
Qed.

(** In a history in the order of time the entries stamped before [c] are a
    prefix. *)
Lemma nondecreasing_prefix (c : Z) (l : list CiaoUsage.t) :
  nondecreasing l →
  let n := List.length (filter (λ u, (CiaoUsage.Timestamp u < c)%Z) l) in
  take n l = filter (λ u, (CiaoUsage.Timestamp u < c)%Z) l ∧
  drop n l = filter (λ u, ¬ (CiaoUsage.Timestamp u < c)%Z) l.
Proof.
  induction l as [| x l IH]; intros Hs; [done |].
  apply nondecreasing_cons in Hs as [Hs Hx]. specialize (IH Hs). cbn zeta in *.
  destruct (decide (CiaoUsage.Timestamp x < c)%Z) as [Hlt | Hge].
  - rewrite filter_cons_True by done. rewrite filter_cons_False by tauto.
    cbn [List.length take drop]. by destruct IH as [-> ->].
  - assert (Hall : Forall (λ y, ¬ (CiaoUsage.Timestamp y < c)%Z) l).
    { eapply Forall_impl; [exact Hx |]. simpl. lia. }
    rewrite filter_cons_False by done. rewrite filter_cons_True by done.
    rewrite (filter_none _ l Hall), (filter_all _ l Hall). done.
Qed.

Lemma nondecreasing_filter (P : CiaoUsage.t → Prop) `{!∀ x, Decision (P x)}
    (l : list CiaoUsage.t) :
  nondecreasing l → nondecreasing (filter P l).
Proof.
  induction l as [| x l IH]; intros Hs; [done |].
  apply nondecreasing_cons in Hs as [Hs Hx]. specialize (IH Hs).
  destruct (decide (P x)); [| by rewrite filter_cons_False].
  rewrite filter_cons_True by done.
  intros [| i] [| j] a b Hij Hi Hj; simplify_eq/=; try lia.
  - rewrite Forall_forall in Hx. apply Hx.
    apply list_elem_of_lookup_2 in Hj. by apply list_elem_of_filter in Hj as [_ ?].
  - apply (IH i j); [lia | done | done].
Qed.

(** The entries of a history in the order of time that lie in a window. *)
Lemma nondecreasing_window (start end_ : Z) (l : list CiaoUsage.t) :
  nondecreasing l → (start ≤ end_)%Z →
  let first := List.length (filter (λ u, (CiaoUsage.Timestamp u < start)%Z) l) in
  let last := List.length (filter (λ u, (CiaoUsage.Timestamp u < end_)%Z) l) in
  (first ≤ last)%nat ∧
  take (last - first) (drop first l) =
    filter (λ u, (start ≤ CiaoUsage.Timestamp u < end_)%Z) l.
Proof.
  intros Hs Hse first last.
  destruct (nondecreasing_prefix end_ l Hs) as [Hend _]. fold last in Hend.
  pose proof (nondecreasing_filter (λ u, (CiaoUsage.Timestamp u < end_)%Z) l Hs) as Hs'.
  destruct (nondecreasing_prefix start _ Hs') as [_ Hstart].
  rewrite list_filter_filter in Hstart.
  assert (Hfirst : filter (λ u, (CiaoUsage.Timestamp u < start)%Z ∧
                              (CiaoUsage.Timestamp u < end_)%Z) l
                   = filter (λ u, (CiaoUsage.Timestamp u < start)%Z) l).
  { apply list_filter_iff. intros u. lia. }
  rewrite Hfirst in Hstart. fold first in Hstart.
  rewrite list_filter_filter in Hstart.
  assert (Hle : (first ≤ last)%nat).
  { unfold first, last. rewrite <- Hfirst, <- list_filter_filter. apply length_filter. }
  split; [done |].
  rewrite take_drop_commute. replace (first + (last - first))%nat with last by lia.
  rewrite Hend, Hstart. apply list_filter_iff. intros u. lia.
Qed.

Lemma nondecreasing_last (l : list CiaoUsage.t) (ul : CiaoUsage.t) :
  nondecreasing l → last l = Some ul →
  Forall (λ u, (CiaoUsage.Timestamp u ≤ CiaoUsage.Timestamp ul)%Z) l.
Proof.
  intros Hs Hl. rewrite last_lookup in Hl. apply Forall_lookup. intros i u Hi.
  apply (Hs i (pred (List.length l))); [| done | done].
  apply lookup_lt_Some in Hi. lia.
Qed.

(** X13.  [GetTenantUsage] on a history in the order of time, as
    [updateTenantUsage] builds it, with [start] not after [end]: the call
    returns, with a nil error and without touching the cache, exactly the
    entries stamped at [start] or later and before [end], in their order.  A
    tenant without history gets the empty list. *)
Theorem GetTenantUsage_window (tenantID : string) (start end_ : Z) (ds : Datastore) :
  nondecreasing (usageHistory ds tenantID) → (start ≤ end_)%Z →
  run (GetTenantUsage tenantID start end_) ds
    = Some ((filter (λ u, (start ≤ CiaoUsage.Timestamp u < end_)%Z)
               (usageHistory ds tenantID), None),
            {| cache := ds; log := [] |}).
Proof.
  unfold usageHistory, GetTenantUsage. run_unfold.
  generalize (default [] (tenantUsage ds !! tenantID)). intros l Hs Hse.
  destruct l as [| u0 l']; [done |]. set (l := u0 :: l') in *.
  destruct (last l) as [ul |] eqn:Hl;
    [| by assert (is_Some (last l)) as [? ?] by (by apply last_is_Some); simplify_eq].
  pose proof (nondecreasing_last l ul Hs Hl) as Hul.
  apply nondecreasing_cons in Hs as Hs0. destruct Hs0 as [_ Hu0].
  destruct (bool_decide_reflect (end_ < CiaoUsage.Timestamp u0)%Z) as [H1 | H1].
  { cbn [orb]. rewrite filter_none; [done |].
    apply Forall_cons. split; [lia |]. eapply Forall_impl; [exact Hu0 |]. simpl. lia. }
  destruct (bool_decide_reflect (CiaoUsage.Timestamp ul < start)%Z) as [H2 | H2].
  { cbn [orb]. rewrite filter_none; [done |].
    eapply Forall_impl; [exact Hul |]. simpl. lia. }
  cbn [orb].
  destruct (nondecreasing_window start end_ l Hs Hse) as [Hle Hwin].
  rewrite decide_True by done. by rewrite Hwin.
Qed.

Lemma GetTenantUsage_window_witness :
  run (GetTenantUsage "tenant" 0 sixMinutes)
      (updateTenantUsage sixMinutes sixMinutes (usageAt 5 0) "tenant" dsUsage)
    = Some (([usageAt 10 0], None),
            {| cache := updateTenantUsage sixMinutes sixMinutes (usageAt 5 0) "tenant" dsUsage;
               log := [] |}).
Proof.
  apply (GetTenantUsage_window "tenant" 0 sixMinutes
           (updateTenantUsage sixMinutes sixMinutes (usageAt 5 0) "tenant" dsUsage)).
  - intros i j a b Hij Hi Hj.
    destruct i as [| [| i]], j as [| [| j]]; vm_compute in Hi, Hj; simplify_eq; try lia;
      vm_compute; discriminate.
  - vm_compute. discriminate.
Defined.

Lemma length_filter_lt {A} (P : A → Prop) `{!∀ x, Decision (P x)} (l : list A) (x : A) :
  x ∈ l → ¬ P x → (List.length (filter P l) < List.length l)%nat.
Proof.
  induction l as [| y l IH]; intros Hin Hx; [by apply elem_of_nil in Hin |].
  pose proof (length_filter P l) as Hle.
  apply elem_of_cons in Hin as [<- | Hin].
  - rewrite filter_cons_False by done. simpl. lia.
  - specialize (IH Hin Hx). destruct (decide (P y)).
    + rewrite filter_cons_True by done. simpl. lia.
    + rewrite filter_cons_False by done. simpl. lia.
Qed.

(** X14.  [GetTenantUsage] with a window that ends before it starts: when
    the history begins at [end] or earlier, ends at [start] or later, and
    has an entry stamped at [end] or later and before [start], the count of
    entries before [start] is above the count before [end] and the call
    does not return (the slice expression is out of range). *)
Theorem GetTenantUsage_reversed (tenantID : string) (start end_ : Z) (ds : Datastore)
    (u0 ul u : CiaoUsage.t) :
  head (usageHistory ds tenantID) = Some u0 →
  last (usageHistory ds tenantID) = Some ul →
  (CiaoUsage.Timestamp u0 ≤ end_)%Z → (start ≤ CiaoUsage.Timestamp ul)%Z →
  u ∈ usageHistory ds tenantID →
  (end_ ≤ CiaoUsage.Timestamp u < start)%Z →
  run (GetTenantUsage tenantID start end_) ds = None.
Proof.
  unfold usageHistory, GetTenantUsage. run_unfold.
  generalize (default [] (tenantUsage ds !! tenantID)). intros l Hh Hl H0 H1 Hin Hu.
  destruct l as [| x l']; [done |]. injection Hh as ->. set (l := u0 :: l') in *.
  rewrite Hl.
  assert (Hx0 : ¬ (end_ < CiaoUsage.Timestamp u0)%Z) by lia.
  assert (Hx1 : ¬ (CiaoUsage.Timestamp ul < start)%Z) by lia.
  rewrite (bool_decide_eq_false_2 _ Hx0), (bool_decide_eq_false_2 _ Hx1).
  cbn [orb]. rewrite decide_False; [done |].
  assert (Hsub : filter (λ u, (CiaoUsage.Timestamp u < end_)%Z) l
                 = filter (λ u, (CiaoUsage.Timestamp u < end_)%Z)
                     (filter (λ u, (CiaoUsage.Timestamp u < start)%Z) l)).
  { rewrite list_filter_filter. apply list_filter_iff. intros y. lia. }
  rewrite Hsub.
  assert (Hin' : u ∈ filter (λ u, (CiaoUsage.Timestamp u < start)%Z) l).
  { apply list_elem_of_filter. split; [lia | done]. }
  assert (Hnot : ¬ (CiaoUsage.Timestamp u < end_)%Z) by lia.
  pose proof (length_filter_lt (λ u, (CiaoUsage.Timestamp u < end_)%Z) _ u Hin' Hnot) as Hlt.
  lia.
Qed.

Lemma GetTenantUsage_reversed_witness :
  run (GetTenantUsage "tenant" sixMinutes oneMinute)
      (updateTenantUsage sixMinutes sixMinutes (usageAt 5 0) "tenant"
         (updateTenantUsage oneMinute oneMinute (usageAt 5 0) "tenant"
            (set_tenantUsage (λ _, ∅) emptyDatastore)))
    = None.
Proof.
  apply (GetTenantUsage_reversed "tenant" sixMinutes oneMinute _
           (usageAt 5 oneMinute) (usageAt 10 sixMinutes) (usageAt 5 oneMinute)).
  - reflexivity.
  - reflexivity.
  - vm_compute. discriminate.
  - vm_compute. discriminate.
  - vm_compute. apply list_elem_of_here.
  - vm_compute. split; [discriminate | reflexivity].
Defined.

(** ** Volumes *)

(** X15.  [DeleteBlockDevice] undoes [AddBlockDevice].  A volume that is
    new to the cache and to the device map of its tenant is added;
    [GetBlockDevice] then returns it.  When the store takes the deletion,
    [DeleteBlockDevice] succeeds and the cache is what it was before the
    volume was added. *)
Theorem volume_added_then_deleted (db db' : persistentStore) (device : Volume.t)
    (ds : Datastore) (t : tenant.t) (w1 : world) :
  blockDevices ds !! Volume.ID device = None →
  tenants ds !! Volume.TenantID device = Some t →
  tenant.devices t !! Volume.ID device = None →
  run (AddBlockDevice db device) ds = Some (None, w1) →
  exec db' (deleteBlockData (Volume.ID device)) = None →
  run (GetBlockDevice (Volume.ID device)) (cache w1)
    = Some ((Some device, None), {| cache := cache w1; log := [] |}) ∧
  log w1 = [Persist (addBlockData device) ds] ∧
  ∃ w2,
    run (DeleteBlockDevice db' (Volume.ID device)) (cache w1) = Some (None, w2) ∧
    cache w2 = ds.
Proof.
  intros Hnew Ht Hdev Hadd Hdel.
  unfold AddBlockDevice in Hadd. run_unfold. rewrite Hnew in Hadd.
  cbn [cache log] in Hadd. destruct (exec db _); [done |].
  cbn [Wrap cache log tenants set_blockDevices] in Hadd. rewrite Ht in Hadd.
  injection Hadd as <-. cbn [cache log].
  unfold GetBlockDevice, DeleteBlockDevice. run_unfold.
  cbn [blockDevices set_tenants set_blockDevices tenants cache log].
  rewrite lookup_insert_eq. split; [done |]. split; [done |].
  cbn [cache log]. rewrite Hdel. cbn [Wrap cache log tenants set_blockDevices set_tenants].
  rewrite lookup_alter_eq, Ht. cbn [fmap option_fmap option_map].
  eexists. split; [done |]. cbn [cache].
  unfold set_tenants, set_blockDevices. cbn.
  rewrite delete_insert_id by done.
  assert (Halter : alter (tenant.with_devices (delete (Volume.ID device)))
                     (Volume.TenantID device)
                     (alter (tenant.with_devices (<[Volume.ID device := device]>))
                        (Volume.TenantID device) (tenants ds)) = tenants ds).
  { apply map_eq. intros k. destruct (decide (k = Volume.TenantID device)) as [-> | Hne].
    - rewrite !lookup_alter_eq, Ht. cbn. f_equal.
      unfold tenant.with_devices. cbn. rewrite delete_insert_id by done. by destruct t.
    - by rewrite !lookup_alter_ne. }
  rewrite Halter. by destruct ds.
Qed.

Lemma volume_added_then_deleted_witness :
  run (GetBlockDevice "v") (cache volumeAdded_world)
    = Some ((Some volumeV, None), {| cache := cache volumeAdded_world; log := [] |}) ∧
  log volumeAdded_world = [Persist (addBlockData volumeV) (oneTenant "tenant" 24 None)] ∧
  ∃ w2,
    run (DeleteBlockDevice okStore "v") (cache volumeAdded_world) = Some (None, w2) ∧
    cache w2 = oneTenant "tenant" 24 None.
Proof.
  apply (volume_added_then_deleted okStore okStore volumeV (oneTenant "tenant" 24 None)
           (newTenant "tenant" 24 None) volumeAdded_world).
  - reflexivity.
  - reflexivity.
  - reflexivity.
  - vm_compute. reflexivity.
  - reflexivity.
Defined.

Lemma devices_agree_put (device : Volume.t) (ds : Datastore) :
  devices_agree ds →
  is_Some (tenants ds !! Volume.TenantID device) →
  (∀ old, blockDevices ds !! Volume.ID device = Some old →
     Volume.TenantID old = Volume.TenantID device) →
  devices_agree (putDevice device ds).
Proof.
  intros [Ha Hb] [t Ht] Hsame. unfold putDevice. split.
  - intros id v. cbn [blockDevices tenants set_tenants set_blockDevices].
    destruct (decide (id = Volume.ID device)) as [-> | Hne].
    + rewrite lookup_insert_eq. intros [= <-]. split; [done |].
      rewrite lookup_alter_eq, Ht. cbn. eexists. split; [done |].
      cbn. apply lookup_insert_eq.
    + rewrite lookup_insert_ne by done. intros Hv.
      destruct (Ha id v Hv) as (Hid & t0 & Ht0 & Hd0). split; [done |].
      destruct (decide (Volume.TenantID v = Volume.TenantID device)) as [Heq | Hnt].
      * rewrite Heq, lookup_alter_eq, Ht. rewrite Heq, Ht in Ht0. injection Ht0 as <-.
        cbn. eexists. split; [done |]. cbn. by rewrite lookup_insert_ne.
      * rewrite lookup_alter_ne by done. by exists t0.
  - intros tid t' id v. cbn [blockDevices tenants set_tenants set_blockDevices].
    destruct (decide (tid = Volume.TenantID device)) as [-> | Hnt].
    + rewrite lookup_alter_eq, Ht. cbn. intros [= <-]. cbn.
      destruct (decide (id = Volume.ID device)) as [-> | Hne].
      * rewrite !lookup_insert_eq. by intros [= <-].
      * rewrite !lookup_insert_ne by done. by apply Hb.
    + rewrite lookup_alter_ne by done. intros Ht' Hd'.
      destruct (Hb tid t' id v Ht' Hd') as [Hv Htid]. split; [| done].
      destruct (decide (id = Volume.ID device)) as [-> | Hne];
        [| by rewrite lookup_insert_ne].
      specialize (Hsame v Hv). congruence.
Qed.

Lemma devices_agree_remove (dev : Volume.t) (ID : string) (ds : Datastore) :
  devices_agree ds → blockDevices ds !! ID = Some dev →
  devices_agree (removeDevice dev ID ds).
Proof.
  intros [Ha Hb] Hdev. unfold removeDevice. split.
  - intros id v. cbn [blockDevices tenants set_tenants set_blockDevices].
    intros [Hne Hv]%lookup_delete_Some.
    destruct (Ha id v Hv) as (Hid & t0 & Ht0 & Hd0). split; [done |].
    destruct (decide (Volume.TenantID v = Volume.TenantID dev)) as [Heq | Hnt].
    + rewrite Heq, lookup_alter_eq. rewrite Heq in Ht0. rewrite Ht0. cbn.
      eexists. split; [done |]. cbn. by rewrite lookup_delete_ne.
    + rewrite lookup_alter_ne by done. by exists t0.
  - intros tid t' id v. cbn [blockDevices tenants set_tenants set_blockDevices].
    destruct (decide (tid = Volume.TenantID dev)) as [-> | Hnt].
    + rewrite lookup_alter_eq.
      destruct (tenants ds !! Volume.TenantID dev) as [t0 |] eqn:Ht0; [| done].
      cbn. intros [= <-]. cbn. intros [Hne Hd]%lookup_delete_Some.
      destruct (Hb _ _ _ _ Ht0 Hd) as [Hv Htid]. split; [| done].
      by rewrite lookup_delete_ne.
    + rewrite lookup_alter_ne by done. intros Ht' Hd'.
      destruct (Hb tid t' id v Ht' Hd') as [Hv Htid]. split; [| done].
      destruct (decide (ID = id)) as [-> | Hne]; [| by rewrite lookup_delete_ne].
      rewrite Hdev in Hv. injection Hv as ->. done.
Qed.

Lemma devices_agree_ext (ds ds' : Datastore) :
  blockDevices ds' = blockDevices ds → tenants ds' = tenants ds →
  devices_agree ds → devices_agree ds'.
Proof. unfold devices_agree. intros -> ->. done. Qed.

Lemma AddBlockDevice_run (db : persistentStore) (device : Volume.t) (ds : Datastore)
    (l : list event) :
  is_Some (tenants ds !! Volume.TenantID device) →
  ∃ r l',
    AddBlockDevice db device {| cache := ds; log := l |}
      = Some (r, {| cache := if r is None then putDevice device ds else ds; log := l' |}).
Proof.
  intros [t Ht]. unfold AddBlockDevice. run_unfold.
  destruct (blockDevices ds !! Volume.ID device); cbn [cache log];
    (destruct (exec db _); cbn [Wrap cache log tenants set_blockDevices];
     [eexists (Some _), _; reflexivity | rewrite Ht; exists None; eexists; reflexivity]).
Qed.

Lemma UpdateBlockDevice_run (db : persistentStore) (data : Volume.t) (ds : Datastore)
    (l : list event) :
  (is_Some (blockDevices ds !! Volume.ID data) →
   is_Some (tenants ds !! Volume.TenantID data)) →
  ∃ r l',
    UpdateBlockDevice db data {| cache := ds; log := l |}
      = Some (r, {| cache := if r is None then putDevice data ds else ds; log := l' |}).
Proof.
  intros Ht. unfold UpdateBlockDevice. unfold get at 1, bind at 1. cbn [cache].
  destruct (blockDevices ds !! Volume.ID data) as [old |] eqn:Hold.
  - destruct (AddBlockDevice_run db data ds l) as (r & l' & Hrun); [by apply Ht |].
    unfold bind. rewrite Hrun.
    destruct r; [eexists (Some _), _; reflexivity | exists None; eexists; reflexivity].
  - eexists (Some _), _. reflexivity.
Qed.

(** X16.  The device maps of the tenants mirror [blockDevices], and the
    operations on volumes keep it so and always return: [AddBlockDevice] of a
    volume that is new, for a tenant of the cache; [UpdateBlockDevice] of a
    volume that stays with its tenant; [DeleteBlockDevice]; and
    [CreateStorageAttachment], which marks the volume in use. *)
Theorem devices_agree_kept (db : persistentStore) (ds : Datastore) :
  devices_agree ds →
  (∀ device,
     blockDevices ds !! Volume.ID device = None →
     is_Some (tenants ds !! Volume.TenantID device) →
     ∃ r w, run (AddBlockDevice db device) ds = Some (r, w) ∧ devices_agree (cache w)) ∧
  (∀ data,
     (∀ old, blockDevices ds !! Volume.ID data = Some old →
        Volume.TenantID old = Volume.TenantID data) →
     ∃ r w, run (UpdateBlockDevice db data) ds = Some (r, w) ∧ devices_agree (cache w)) ∧
  (∀ ID,
     ∃ r w, run (DeleteBlockDevice db ID) ds = Some (r, w) ∧ devices_agree (cache w)) ∧
  (∀ uuid instanceID volume,
     ∃ r w, run (CreateStorageAttachment db uuid instanceID volume) ds = Some (r, w) ∧
            devices_agree (cache w)).
Proof.
  intros Hagree. pose proof Hagree as [Ha Hb].
  assert (Hupdate : ∀ data l,
            (∀ old, blockDevices ds !! Volume.ID data = Some old →
               Volume.TenantID old = Volume.TenantID data) →
            ∃ r w, UpdateBlockDevice db data {| cache := ds; log := l |} = Some (r, w) ∧
                   cache w = (if r is None then putDevice data ds else ds) ∧
                   devices_agree (cache w)).
  { intros data l Hsame.
    assert (Ht : is_Some (blockDevices ds !! Volume.ID data) →
                 is_Some (tenants ds !! Volume.TenantID data)).
    { intros [old Hold]. destruct (Ha _ _ Hold) as (_ & t & Ht & _).
      rewrite <- (Hsame old Hold). by eexists. }
    destruct (UpdateBlockDevice_run db data ds l Ht) as (r & l' & Hrun).
    eexists _, _. split; [exact Hrun |]. cbn [cache]. split; [done |].
    destruct r as [e |]; [done |].
    unfold UpdateBlockDevice in Hrun. unfold get at 1, bind at 1 in Hrun. cbn [cache] in Hrun.
    destruct (blockDevices ds !! Volume.ID data) as [old |] eqn:Hold; [| by run_unfold].
    apply devices_agree_put; [done | apply Ht; by eexists |].
    intros o Ho. rewrite Hold in Ho. by apply Hsame. }
  repeat apply conj.
  - intros device Hnew Ht.
    destruct (AddBlockDevice_run db device ds [] Ht) as (r & l' & Hrun).
    eexists _, _. split; [exact Hrun |]. cbn [cache].
    destruct r; [done |]. apply devices_agree_put; [done | done |].
    intros old Hold. by rewrite Hnew in Hold.
  - intros data Hsame. destruct (Hupdate data [] Hsame) as (r & w & Hrun & _ & Hw).
    by eexists _, _.
  - intros ID. unfold DeleteBlockDevice. run_unfold.
    destruct (blockDevices ds !! ID) as [dev |] eqn:Hdev; [| by eexists _, _].
    cbn [cache log]. destruct (exec db _); cbn [Wrap cache log]; [by eexists _, _ |].
    cbn [tenants set_blockDevices].
    destruct (Ha _ _ Hdev) as (_ & t & Ht & _). rewrite Ht.
    eexists _, _. split; [done |]. cbn [cache].
    by apply (devices_agree_remove dev ID ds).
  - intros uuid instanceID volume. unfold CreateStorageAttachment.
    unfold persist at 1. unfold run, bind at 1, get at 1, bind at 1, tell at 1, bind at 1.
    unfold ret at 1. cbn [cache log].
    destruct (exec db (addStorageAttachment _)); [by eexists _, _ |].
    unfold GetBlockDevice. unfold bind at 1, get at 1, bind at 1. cbn [cache log].
    destruct (blockDevices ds !! StorageResource.ID volume) as [bd |] eqn:Hbd.
    + unfold ret at 1. unfold bind at 1.
      destruct (Hupdate (Volume.with_State InUse bd)
                  ([] ++ [Persist (addStorageAttachment
                                     {| StorageAttachment.ID := uuid;
                                        StorageAttachment.InstanceID := instanceID;
                                        StorageAttachment.BlockID := StorageResource.ID volume;
                                        StorageAttachment.Ephemeral := StorageResource.Ephemeral volume;
                                        StorageAttachment.Boot := StorageResource.Bootable volume |})
                            ds])) as (r & w & Hrun & Hc & Hw).
      { destruct (Ha _ _ Hbd) as [Hid _]. cbn [Volume.ID Volume.with_State Volume.TenantID].
        rewrite Hid, Hbd. by intros old [= <-]. }
      rewrite Hrun. destruct r as [e |]; run_unfold.
      * eexists _, _. split; [done |]. by cbn [cache].
      * eexists _, _. split; [done |]. cbn [cache].
        eapply devices_agree_ext; [| | exact Hw]; done.
    + run_unfold. by eexists _, _.
Qed.

Lemma devices_agree_dsVolume : devices_agree dsVolume.
Proof.
  split.
  - intros id v Hv. cbn [blockDevices dsVolume] in Hv.
    apply lookup_singleton_Some in Hv as [<- <-]. split; [done |].
    eexists. split; [reflexivity | reflexivity].
  - intros tid t id v Ht Hd. cbn [tenants dsVolume] in Ht.
    apply lookup_singleton_Some in Ht as [<- <-].
    cbn [tenant.devices tenant.with_devices] in Hd.
    apply lookup_singleton_Some in Hd as [<- <-]. done.
Qed.

Lemma devices_agree_kept_witness :
  (∀ device,
     blockDevices dsVolume !! Volume.ID device = None →
     is_Some (tenants dsVolume !! Volume.TenantID device) →
     ∃ r w, run (AddBlockDevice okStore device) dsVolume = Some (r, w) ∧
            devices_agree (cache w)) ∧
  (∀ data,
     (∀ old, blockDevices dsVolume !! Volume.ID data = Some old →
        Volume.TenantID old = Volume.TenantID data) →
     ∃ r w, run (UpdateBlockDevice okStore data) dsVolume = Some (r, w) ∧
            devices_agree (cache w)) ∧
  (∀ ID,
     ∃ r w, run (DeleteBlockDevice okStore ID) dsVolume = Some (r, w) ∧
            devices_agree (cache w)) ∧
  (∀ uuid instanceID volume,
     ∃ r w, run (CreateStorageAttachment okStore uuid instanceID volume) dsVolume
              = Some (r, w) ∧
            devices_agree (cache w)).
Proof.
  apply (devices_agree_kept okStore dsVolume). apply devices_agree_dsVolume.
Defined.

(** ** Images *)

Lemma imageNameID_insert (imgs : gmap string Image.t) (i : Image.t) (id : string) :
  imageNameID (<[Image.ID i := i]> imgs) id =
  if decide (id = Image.ID i) then (Image.Name i, Image.ID i) else imageNameID imgs id.
Proof.
  unfold imageNameID. destruct (decide (id = Image.ID i)) as [-> | Hne].
  - by rewrite lookup_insert_eq.
  - by rewrite lookup_insert_ne.
Qed.

(** With the image entered, a list in which nothing was called [name] has
    the image as its first match, when it holds it. *)
Lemma findImage_insert (imgs : gmap string Image.t) (i : Image.t) (name : string)
    (ids : list string) :
  imageCalled i name →
  findImage imgs name ids = None →
  findImage (<[Image.ID i := i]> imgs) name ids =
  if decide (Image.ID i ∈ ids) then Some (Image.ID i) else None.
Proof.
  intros Hcalled. induction ids as [| id ids IH]; cbn [findImage].
  - intros _. by rewrite decide_False by apply not_elem_of_nil.
  - destruct (decide (_ ∨ _)) as [| Hno]; [done |]. intros Hrest.
    rewrite imageNameID_insert. destruct (decide (id = Image.ID i)) as [-> | Hne].
    + cbn [fst snd]. rewrite (decide_True (P := imageCalled i name)) by done.
      by rewrite decide_True by apply list_elem_of_here.
    + rewrite decide_False by done. rewrite IH by done.
      destruct (decide (Image.ID i ∈ ids)) as [Hin | Hnin].
      * by rewrite decide_True by by apply list_elem_of_further.
      * rewrite decide_False; [done |]. by intros [? | ?]%elem_of_cons.
Qed.

Lemma findImage_app (imgs : gmap string Image.t) (name : string) (l1 l2 : list string) :
  findImage imgs name (l1 ++ l2) =
  match findImage imgs name l1 with
  | Some id => Some id
  | None => findImage imgs name l2
  end.
Proof.
  induction l1 as [| id l1 IH]; cbn [findImage app]; [done |].
  by destruct (decide (_ ∨ _)).
Qed.

Lemma findImage_insert_app (imgs : gmap string Image.t) (i : Image.t) (name : string)
    (ids : list string) :
  imageCalled i name →
  findImage imgs name ids = None →
  findImage (<[Image.ID i := i]> imgs) name (ids ++ [Image.ID i]) = Some (Image.ID i).
Proof.
  intros Hcalled Hnone. rewrite findImage_app, findImage_insert by done.
  destruct (decide (Image.ID i ∈ ids)); [done |].
  cbn [findImage]. rewrite imageNameID_insert.
  destruct (decide (Image.ID i = Image.ID i)); [| done]. cbn [fst snd].
  by rewrite decide_True.
Qed.

(** A run of [AddImage] that returns no error. *)
Lemma AddImage_done (db : persistentStore) (i : Image.t) (ds : Datastore) (w : world) :
  run (AddImage db i) ds = Some (None, w) →
  images ds !! Image.ID i = None ∧
  resolveImage ds (Image.TenantID i) (Image.Name i) = ("", Some ErrNoImage) ∧
  resolveImage ds (Image.TenantID i) (Image.ID i) = ("", Some ErrNoImage) ∧
  (Image.TenantID i = "" ∨ is_Some (tenants ds !! Image.TenantID i)) ∧
  w = {| cache := addedImage i ds; log := [Persist (updateImage i) ds] |}.
Proof.
  assert (Hid : ∀ tenantID name id,
            resolveImage ds tenantID name = (id, Some ErrNoImage) → id = "").
  { intros tenantID name id. unfold resolveImage.
    repeat case_match; by intros [= <-]. }
  unfold AddImage, nameTaken, ResolveImage, addedImage. run_unfold. intros Hrun.
  destruct (images ds !! Image.ID i) eqn:Hnew; rewrite ?Hnew in Hrun;
    [discriminate Hrun |].
  destruct (resolveImage ds _ (Image.Name i)) as [id1 e1] eqn:H1.
  destruct (resolveImage ds _ (Image.ID i)) as [id2 e2] eqn:H2.
  cbn [snd cache log] in Hrun. rewrite H1 in Hrun. cbn [snd cache log] in Hrun.
  destruct e1 as [e1 |]; [| discriminate Hrun].
  destruct e1; try discriminate Hrun. cbn [snd cache log] in Hrun.
  rewrite H2 in Hrun. cbn [snd cache log] in Hrun.
  destruct e2 as [e2 |]; [| discriminate Hrun].
  destruct e2; try discriminate Hrun. cbn [snd cache log] in Hrun.
  destruct (exec db (updateImage i)) eqn:Hex; rewrite ?Hex in Hrun;
    [discriminate Hrun |].
  rewrite (Hid _ _ _ H1), (Hid _ _ _ H2).
  split; [done |]. split; [done |]. split; [done |].
  destruct (decide (Image.TenantID i = "")) as [Ht | Ht]; cbn [cache log] in Hrun.
  - split; [by left |].
    repeat case_decide; cbn [cache log] in Hrun; by injection Hrun as <-.
  - destruct (tenants ds !! Image.TenantID i) eqn:Htn; cbn [cache log] in Hrun;
      [| discriminate Hrun].
    split; [right; by eexists |].
    repeat case_decide; cbn [cache log] in Hrun; by injection Hrun as <-.
Qed.

Lemma findImage_insert_other (imgs : gmap string Image.t) (i : Image.t) (name : string)
    (ids : list string) :
  Image.ID i ∉ ids →
  findImage (<[Image.ID i := i]> imgs) name ids = findImage imgs name ids.
Proof.
  induction ids as [| id ids IH]; cbn [findImage]; [done |].
  intros [Hne Hnin]%not_elem_of_cons.
  rewrite imageNameID_insert.
  destruct (decide (id = Image.ID i)) as [-> | _]; [done |]. by rewrite IH.
Qed.

Lemma addedImage_images (i : Image.t) (ds : Datastore) :
  images (addedImage i ds) = <[Image.ID i := i]> (images ds).
Proof. unfold addedImage. cbv zeta. repeat case_decide; reflexivity. Qed.

Lemma addedImage_publicImages (i : Image.t) (ds : Datastore) :
  publicImages (addedImage i ds) =
  if decide (Image.visibility i = Public) then publicImages ds ++ [Image.ID i]
  else publicImages ds.
Proof. unfold addedImage. cbv zeta. repeat case_decide; reflexivity. Qed.

Lemma addedImage_internalImages (i : Image.t) (ds : Datastore) :
  internalImages (addedImage i ds) =
  if decide (Image.visibility i = Internal) then internalImages ds ++ [Image.ID i]
  else internalImages ds.
Proof. unfold addedImage. cbv zeta. repeat case_decide; reflexivity. Qed.

Lemma addedImage_tenants (i : Image.t) (ds : Datastore) :
  tenants (addedImage i ds) =
  if decide (Image.TenantID i = "") then tenants ds
  else alter (tenant.with_images (λ l, l ++ [Image.ID i])) (Image.TenantID i) (tenants ds).
Proof. unfold addedImage. cbv zeta. repeat case_decide; reflexivity. Qed.

(** What an answer [ErrNoImage] of [ResolveImage] says of the three lists. *)
Lemma resolveImage_none (ds : Datastore) (tenantID name : string) :
  resolveImage ds tenantID name = ("", Some ErrNoImage) →
  findImage (images ds) name (publicImages ds) = None ∧
  findImage (images ds) name (internalImages ds) = None ∧
  (tenantID ≠ "" ∧ tenantID ≠ "admin" →
   ∃ t, tenants ds !! tenantID = Some t ∧
        findImage (images ds) name (tenant.images t) = None).
Proof.
  unfold resolveImage. intros H.
  destruct (findImage (images ds) name (publicImages ds)) eqn:Hpub.
  { exfalso. repeat case_match; simplify_eq. }
  destruct (findImage (images ds) name (internalImages ds)) eqn:Hint.
  { exfalso. repeat case_match; simplify_eq. }
  split; [done |]. split; [done |]. intros Hreg.
  rewrite decide_True in H by done.
  destruct (tenants ds !! tenantID) as [t |]; [| simplify_eq].
  exists t. split; [done |]. by destruct (findImage _ _ (tenant.images t)).
Qed.

(** With the tenant cached, [ResolveImage] finds an image or answers
    [ErrNoImage]. *)
Lemma resolveImage_error (ds : Datastore) (tenantID name : string) :
  (tenantID = "" ∨ is_Some (tenants ds !! tenantID)) →
  (resolveImage ds tenantID name).2 = None ∨
  resolveImage ds tenantID name = ("", Some ErrNoImage).
Proof.
  intros Htn. unfold resolveImage.
  destruct (decide (_ ∧ _)) as [[Hne _] |].
  - destruct Htn as [| [t Ht]]; [done |]. rewrite Ht.
    repeat case_match; auto.
  - repeat case_match; auto.
Qed.

(** After [AddImage], the name and the id of a listed image resolve to it. *)
Lemma resolveImage_added (i : Image.t) (ds : Datastore) (name : string) :
  imageListed i →
  imageCalled i name →
  (Image.TenantID i = "" ∨ is_Some (tenants ds !! Image.TenantID i)) →
  resolveImage ds (Image.TenantID i) name = ("", Some ErrNoImage) →
  resolveImage (addedImage i ds) (Image.TenantID i) name = (Image.ID i, None).
Proof.
  intros Hlisted Hcalled Htn (Hpub & Hint & Hten)%resolveImage_none.
  unfold resolveImage.
  rewrite addedImage_images, addedImage_publicImages, addedImage_internalImages,
    addedImage_tenants.
  destruct (decide (Image.TenantID i ≠ "" ∧ Image.TenantID i ≠ "admin")) as [Hreg | Hshared].
  - destruct (Hten Hreg) as (t & Ht & Hnone).
    rewrite decide_False by apply Hreg.
    rewrite lookup_alter_eq, Ht. cbn [fmap option_fmap option_map tenant.with_images tenant.images].
    by rewrite findImage_insert_app.
  - destruct Hlisted as [Hreg | [Hvis | Hvis]]; [done | |].
    + rewrite (decide_True (P := Image.visibility i = Public)) by done.
      by rewrite findImage_insert_app.
    + rewrite (decide_False (P := Image.visibility i = Public)) by (rewrite Hvis; done).
      rewrite (decide_True (P := Image.visibility i = Internal)) by done.
      rewrite findImage_insert by done.
      destruct (decide (Image.ID i ∈ publicImages ds)); [done |].
      by rewrite findImage_insert_app.
Qed.

(** The three ways in which [AddImage] answers [ErrAlreadyExists]; the store
    is not asked. *)
Lemma AddImage_taken (db : persistentStore) (j : Image.t) (ds : Datastore) :
  is_Some (images ds !! Image.ID j) ∨
  (resolveImage ds (Image.TenantID j) (Image.Name j)).2 = None ∨
  (resolveImage ds (Image.TenantID j) (Image.Name j) = ("", Some ErrNoImage) ∧
   (resolveImage ds (Image.TenantID j) (Image.ID j)).2 = None) →
  run (AddImage db j) ds = Some (Some ErrAlreadyExists, {| cache := ds; log := [] |}).
Proof.
  intros H. unfold AddImage, nameTaken, ResolveImage. run_unfold.
  destruct (images ds !! Image.ID j) eqn:Hnew; [done |].
  destruct H as [[? [=]] | [H1 | [H1 H2]]]; cbn [snd cache log].
  - by rewrite H1.
  - rewrite H1. cbn [snd cache log]. by rewrite H2.
Qed.

(** X17. An image that [AddImage] accepts, and that is in a list searched
    for its tenant (the tenant is not "admin", or the image is public or
    internal), did not resolve by its name or id before; afterwards
    [ResolveImage] gives its id for its name and for its id, and [GetImage]
    gives the image. *)
Theorem image_added_resolves (db : persistentStore) (i : Image.t) (ds : Datastore)
    (w : world) (name : string) :
  imageListed i →
  imageCalled i name →
  run (AddImage db i) ds = Some (None, w) →
  run (ResolveImage (Image.TenantID i) name) ds =
    Some (("", Some ErrNoImage), {| cache := ds; log := [] |}) ∧
  run (ResolveImage (Image.TenantID i) name) (cache w) =
    Some ((Image.ID i, None), {| cache := cache w; log := [] |}) ∧
  run (GetImage (Image.ID i)) (cache w) =
    Some ((Some i, None), {| cache := cache w; log := [] |}).
Proof.
  intros Hlisted Hcalled (Hnew & Hname & Hid & Htn & ->)%AddImage_done.
  assert (Hbefore : resolveImage ds (Image.TenantID i) name = ("", Some ErrNoImage))
    by (by destruct Hcalled as [<- | <-]).
  unfold ResolveImage, GetImage. run_unfold.
  split; [by rewrite Hbefore |].
  split; [by rewrite resolveImage_added |].
  by rewrite addedImage_images, lookup_insert_eq.
Qed.

Lemma image_added_resolves_witness :
  run (ResolveImage "tenant" "ubuntu") (oneTenant "tenant" 24 None) =
    Some (("", Some ErrNoImage), {| cache := oneTenant "tenant" 24 None; log := [] |}) ∧
  run (ResolveImage "tenant" "ubuntu") (cache imageAdded_world) =
    Some (("i1", None), {| cache := cache imageAdded_world; log := [] |}) ∧
  run (GetImage "i1") (cache imageAdded_world) =
    Some ((Some imageI, None), {| cache := cache imageAdded_world; log := [] |}).
Proof.
  apply (image_added_resolves okStore imageI (oneTenant "tenant" 24 None)
           imageAdded_world "ubuntu").
  - left. split; discriminate.
  - by left.
  - vm_compute. reflexivity.
Defined.

(** X18. Once [AddImage] has accepted a listed image, it refuses with
    [ErrAlreadyExists] every image of the same tenant whose id or name is
    the id or the name of the first one, whatever the store would answer:
    the store is not asked and the cache stays as it is. *)
Theorem image_name_taken (db db' : persistentStore) (i j : Image.t) (ds : Datastore)
    (w : world) :
  imageListed i →
  run (AddImage db i) ds = Some (None, w) →
  Image.TenantID j = Image.TenantID i →
  imageCalled i (Image.Name j) ∨ imageCalled i (Image.ID j) →
  run (AddImage db' j) (cache w) =
    Some (Some ErrAlreadyExists, {| cache := cache w; log := [] |}).
Proof.
  intros Hlisted (Hnew & Hname & Hid & Htn & ->)%AddImage_done Hsame Hcoll.
  cbn [cache]. apply AddImage_taken. rewrite Hsame.
  assert (Hres : ∀ name, imageCalled i name →
            resolveImage (addedImage i ds) (Image.TenantID i) name = (Image.ID i, None)).
  { intros name Hcalled. apply resolveImage_added; [done .. |].
    by destruct Hcalled as [<- | <-]. }
  assert (Htn' : Image.TenantID i = "" ∨
                 is_Some (tenants (addedImage i ds) !! Image.TenantID i)).
  { destruct Htn as [| [t Ht]]; [by left | right].
    rewrite addedImage_tenants. case_decide; [by eexists |].
    rewrite lookup_alter_eq, Ht. by eexists. }
  destruct Hcoll as [Hcoll | Hcoll].
  - right; left. by rewrite Hres.
  - destruct (resolveImage_error (addedImage i ds) (Image.TenantID i) (Image.Name j) Htn')
      as [Hnone | Hno].
    + by right; left.
    + right; right. split; [done |]. by rewrite Hres.
Qed.

Lemma image_name_taken_witness :
  run (AddImage noClaimStore imageJ) (cache imageAdded_world) =
    Some (Some ErrAlreadyExists, {| cache := cache imageAdded_world; log := [] |}).
Proof.
  apply (image_name_taken okStore noClaimStore imageI imageJ (oneTenant "tenant" 24 None)
           imageAdded_world).
  - left. split; discriminate.
  - vm_compute. reflexivity.
  - reflexivity.
  - left. by right.
Defined.

(** X19. [AddImage] accepts a private image of no tenant, or of the tenant
    "admin", and [GetImage] then gives it, but no list that [ResolveImage]
    searches holds it: for "admin" and for no tenant every name resolves as
    before, and the image's own name and id still give [ErrNoImage], so that
    its name stays free. *)
Theorem unlisted_image_unresolvable (db : persistentStore) (i : Image.t) (ds : Datastore)
    (w : world) :
  ¬ imageListed i →
  Image.ID i ∉ publicImages ds →
  Image.ID i ∉ internalImages ds →
  run (AddImage db i) ds = Some (None, w) →
  run (GetImage (Image.ID i)) (cache w) =
    Some ((Some i, None), {| cache := cache w; log := [] |}) ∧
  (∀ tenantID name, tenantID = "" ∨ tenantID = "admin" →
     resolveImage (cache w) tenantID name = resolveImage ds tenantID name) ∧
  (∀ name, imageCalled i name →
     run (ResolveImage (Image.TenantID i) name) (cache w) =
       Some (("", Some ErrNoImage), {| cache := cache w; log := [] |})).
Proof.
  intros Hunlisted Hpub Hint (Hnew & Hname & Hid & Htn & ->)%AddImage_done.
  assert (Hvis : Image.visibility i ≠ Public ∧ Image.visibility i ≠ Internal).
  { split; intros Hv; apply Hunlisted; unfold imageListed; auto. }
  assert (Hshared : Image.TenantID i = "" ∨ Image.TenantID i = "admin").
  { destruct (decide (Image.TenantID i = "")); [by left |].
    destruct (decide (Image.TenantID i = "admin")); [by right |].
    exfalso. apply Hunlisted. by left. }
  assert (Hall : ∀ tenantID name, tenantID = "" ∨ tenantID = "admin" →
            resolveImage (addedImage i ds) tenantID name = resolveImage ds tenantID name).
  { intros tenantID name Hten. unfold resolveImage.
    destruct (decide (tenantID ≠ "" ∧ tenantID ≠ "admin")) as [[? ?] | _];
      [by destruct Hten |].
    rewrite addedImage_images, addedImage_publicImages, addedImage_internalImages.
    rewrite !decide_False by apply Hvis.
    by rewrite !findImage_insert_other. }
  cbn [cache]. unfold ResolveImage, GetImage. run_unfold.
  split; [by rewrite addedImage_images, lookup_insert_eq |].
  split; [done |].
  intros name Hcalled. rewrite Hall by done.
  by destruct Hcalled as [<- | <-]; rewrite ?Hname, ?Hid.
Qed.

Lemma unlisted_image_unresolvable_witness :
  run (GetImage "i3") (cache hiddenAdded_world) =
    Some ((Some imageHidden, None), {| cache := cache hiddenAdded_world; log := [] |}) ∧
  (∀ tenantID name, tenantID = "" ∨ tenantID = "admin" →
     resolveImage (cache hiddenAdded_world) tenantID name =
     resolveImage emptyDatastore tenantID name) ∧
  (∀ name, imageCalled imageHidden name →
     run (ResolveImage "" name) (cache hiddenAdded_world) =
       Some (("", Some ErrNoImage), {| cache := cache hiddenAdded_world; log := [] |})).
Proof.
  apply (unlisted_image_unresolvable okStore imageHidden emptyDatastore hiddenAdded_world).
  - intros [[? _] | [? | ?]]; done.
  - apply not_elem_of_nil.
  - apply not_elem_of_nil.
  - vm_compute. reflexivity.
Defined.

Lemma removeFirst_app_last (id : string) (l : list string) :
  id ∉ l → removeFirst id (l ++ [id]) = l.
Proof.
  induction l as [| x l IH]; cbn [removeFirst app].
  - intros _. by rewrite decide_True.
  - intros [Hne Hnin]%not_elem_of_cons.
    rewrite decide_False by done. by rewrite IH.
Qed.

(** X20. [DeleteImage] undoes [AddImage], in the cache only. When no list
    of the cache held the id of the image, deleting an image that
    [AddImage] has just accepted gives back the cache as it was; the store,
    which [AddImage] asked to keep the image, is not told of the deletion. *)
Theorem image_added_then_deleted (db : persistentStore) (i : Image.t) (ds : Datastore)
    (w : world) :
  imageNew ds i →
  run (AddImage db i) ds = Some (None, w) →
  log w = [Persist (updateImage i) ds] ∧
  run (DeleteImage (Image.ID i)) (cache w) = Some (None, {| cache := ds; log := [] |}).
Proof.
  intros (Hpub & Hint & Hten) (Hnew & _ & _ & Htn & ->)%AddImage_done.
  split; [done |]. cbn [cache].
  unfold DeleteImage. run_unfold.
  rewrite addedImage_images, lookup_insert_eq. cbn [cache log].
  assert (Hds : ∀ ds1 : Datastore,
            tenants ds1 = tenants ds → images ds1 = images ds →
            publicImages ds1 = publicImages ds → internalImages ds1 = internalImages ds →
            instances ds1 = instances ds → tenantUsage ds1 = tenantUsage ds →
            blockDevices ds1 = blockDevices ds → attachments ds1 = attachments ds →
            instanceVolumes ds1 = instanceVolumes ds → pools ds1 = pools ds →
            externalSubnets ds1 = externalSubnets ds → externalIPs ds1 = externalIPs ds →
            mappedIPs ds1 = mappedIPs ds → workloads ds1 = workloads ds →
            publicWorkloads ds1 = publicWorkloads ds → ds1 = ds).
  { intros ds1. destruct ds1, ds. cbn. by intros -> -> -> -> -> -> -> -> -> -> -> -> -> -> ->. }
  assert (Htenants : Image.TenantID i ≠ "" →
            alter (tenant.with_images (removeFirst (Image.ID i))) (Image.TenantID i)
              (tenants (addedImage i ds)) = tenants ds).
  { intros Hne. rewrite addedImage_tenants, decide_False by done.
    destruct Htn as [| [t Ht]]; [done |].
    apply map_eq. intros tid. destruct (decide (tid = Image.TenantID i)) as [-> | Hother].
    - rewrite !lookup_alter_eq, Ht. cbn. f_equal. destruct t.
      unfold tenant.with_images. cbn. f_equal. apply removeFirst_app_last.
      by apply (Hten _ Ht).
    - by rewrite !lookup_alter_ne. }
  assert (Himages : delete (Image.ID i) (images (addedImage i ds)) = images ds).
  { by rewrite addedImage_images, delete_insert_id. }
  assert (Hpublic : (if decide (Image.visibility i = Public)
                     then removeFirst (Image.ID i) (publicImages (addedImage i ds))
                     else publicImages (addedImage i ds)) = publicImages ds).
  { rewrite addedImage_publicImages.
    destruct (decide (Image.visibility i = Public)); [by apply removeFirst_app_last | done]. }
  assert (Hinternal : (if decide (Image.visibility i = Internal)
                       then removeFirst (Image.ID i) (internalImages (addedImage i ds))
                       else internalImages (addedImage i ds)) = internalImages ds).
  { rewrite addedImage_internalImages.
    destruct (decide (Image.visibility i = Internal)); [by apply removeFirst_app_last | done]. }
  assert (Hrest : instances (addedImage i ds) = instances ds ∧
                  tenantUsage (addedImage i ds) = tenantUsage ds ∧
                  blockDevices (addedImage i ds) = blockDevices ds ∧
                  attachments (addedImage i ds) = attachments ds ∧
                  instanceVolumes (addedImage i ds) = instanceVolumes ds ∧
                  pools (addedImage i ds) = pools ds ∧
                  externalSubnets (addedImage i ds) = externalSubnets ds ∧
                  externalIPs (addedImage i ds) = externalIPs ds ∧
                  mappedIPs (addedImage i ds) = mappedIPs ds ∧
                  workloads (addedImage i ds) = workloads ds ∧
                  publicWorkloads (addedImage i ds) = publicWorkloads ds).
  { unfold addedImage. cbv zeta. by repeat case_decide. }
  destruct Hrest as (? & ? & ? & ? & ? & ? & ? & ? & ? & ? & ?).
  assert (Hdone : ∀ tns : gmap string tenant.t, tns = tenants ds →
    match
      (if decide (Image.visibility i = Internal)
       then modify (set_internalImages (removeFirst (Image.ID i))) else ret tt)
        {| cache := set_tenants (λ _, tns) (addedImage i ds); log := [] |}
    with
    | Some (_, w') =>
      match
        (if decide (Image.visibility i = Public)
         then modify (set_publicImages (removeFirst (Image.ID i))) else ret tt) w'
      with
      | Some (_, w'0) =>
        Some (@None error,
              {| cache := set_images (delete (Image.ID i)) (cache w'0); log := log w'0 |})
      | None => None
      end
    | None => None
    end = Some (None, {| cache := ds; log := [] |})).
  { intros tns ->. unfold modify, ret.
    destruct (decide (Image.visibility i = Internal)),
             (decide (Image.visibility i = Public));
      cbn [cache log]; do 3 f_equal; apply Hds;
      cbn [tenants images publicImages internalImages instances tenantUsage blockDevices
           attachments instanceVolumes pools externalSubnets externalIPs mappedIPs
           workloads publicWorkloads set_images set_publicImages set_internalImages
           set_tenants]; done. }
  destruct (decide (Image.TenantID i = "")) as [Hnone | Hsome]; cbn [cache log].
  - rewrite <- (Hdone (tenants (addedImage i ds)));
      [| by rewrite addedImage_tenants, decide_True].
    unfold modify, ret. by destruct (addedImage i ds).
  - assert (Hcached : is_Some (tenants (addedImage i ds) !! Image.TenantID i)).
    { destruct Htn as [| [t Ht]]; [done |].
      rewrite addedImage_tenants, decide_False, lookup_alter_eq, Ht by done. by eexists. }
    destruct Hcached as [t' Ht']. rewrite Ht'. cbn [cache log].
    rewrite <- (Hdone _ (Htenants Hsome)). unfold modify, ret.
    unfold set_tenants at 1 2. cbn [tenants].
    reflexivity.
Qed.

Lemma imageNew_oneTenant : imageNew (oneTenant "tenant" 24 None) imageI.
Proof.
  split; [apply not_elem_of_nil |]. split; [apply not_elem_of_nil |].
  intros t Ht. unfold oneTenant in Ht. cbn [tenants set_tenants] in Ht.
  apply lookup_singleton_Some in Ht as [_ <-]. apply not_elem_of_nil.
Qed.

Lemma image_added_then_deleted_witness :
  log imageAdded_world = [Persist (updateImage imageI) (oneTenant "tenant" 24 None)] ∧
  run (DeleteImage "i1") (cache imageAdded_world) =
    Some (None, {| cache := oneTenant "tenant" 24 None; log := [] |}).
Proof.
  apply (image_added_then_deleted okStore imageI (oneTenant "tenant" 24 None)
           imageAdded_world).
  - apply imageNew_oneTenant.
  - vm_compute. reflexivity.
Defined.

(** X21. [UpdateImage] renames an image in place. An update that is
    accepted is for a cached image of the same tenant and visibility;
    [GetImage] then gives the new image. When the name changes, it did not
    resolve for the tenant before, and afterwards it resolves to the image,
    provided one of the lists searched for the tenant holds the image's
    id. *)
Theorem image_renamed (db : persistentStore) (i : Image.t) (ds : Datastore) (w : world) :
  run (UpdateImage db i) ds = Some (None, w) →
  ∃ old, images ds !! Image.ID i = Some old ∧
    Image.TenantID old = Image.TenantID i ∧ Image.visibility old = Image.visibility i ∧
    run (GetImage (Image.ID i)) (cache w) =
      Some ((Some i, None), {| cache := cache w; log := [] |}) ∧
    (Image.Name old ≠ Image.Name i →
     run (ResolveImage (Image.TenantID i) (Image.Name i)) ds =
       Some (("", Some ErrNoImage), {| cache := ds; log := [] |}) ∧
     (imageSearched ds i →
      run (ResolveImage (Image.TenantID i) (Image.Name i)) (cache w) =
        Some ((Image.ID i, None), {| cache := cache w; log := [] |}))).
Proof.
  assert (Hid : ∀ tenantID name id,
            resolveImage ds tenantID name = (id, Some ErrNoImage) → id = "").
  { intros tenantID name id. unfold resolveImage.
    repeat case_match; by intros [= <-]. }
  unfold UpdateImage, nameTaken, ResolveImage, GetImage. run_unfold. intros Hrun.
  destruct (images ds !! Image.ID i) as [old |] eqn:Hold; [| discriminate Hrun].
  exists old. split; [done |].
  destruct (decide (_ ∨ _)) as [| Hsame]; [discriminate Hrun |].
  assert (Hten : Image.TenantID old = Image.TenantID i).
  { destruct (decide (Image.TenantID old = Image.TenantID i)); [done |].
    exfalso. apply Hsame. by left. }
  assert (Hvis : Image.visibility old = Image.visibility i).
  { destruct (decide (Image.visibility old = Image.visibility i)); [done |].
    exfalso. apply Hsame. by right. }
  split; [done |]. split; [done |].
  destruct (resolveImage ds (Image.TenantID i) (Image.Name i)) as [id1 e1] eqn:H1.
  assert (Hw : cache w = set_images (<[Image.ID i := i]>) ds ∧
               (Image.Name old ≠ Image.Name i → (id1, e1) = ("", Some ErrNoImage))).
  { destruct (decide (Image.Name old ≠ Image.Name i)) as [Hname | Hname];
      cbn [cache log snd] in Hrun; rewrite ?H1 in Hrun; cbn [cache log snd] in Hrun.
    - destruct e1 as [e1 |]; [| discriminate Hrun].
      destruct e1; try discriminate Hrun. cbn [cache log] in Hrun.
      destruct (exec db _); [discriminate Hrun |]. injection Hrun as <-.
      split; [done |]. intros _. by rewrite (Hid _ _ _ H1).
    - destruct (exec db _); [discriminate Hrun |]. injection Hrun as <-.
      split; [done |]. by intros ?. }
  destruct Hw as [-> Hres]. cbn [images set_images].
  split; [by rewrite lookup_insert_eq |].
  intros Hname. specialize (Hres Hname). split; [by rewrite Hres |]. intros Hsearched.
  rewrite <- H1 in Hres.
  destruct (resolveImage_none _ _ _ Hres) as (Hpub & Hint & Htn).
  do 2 f_equal. unfold resolveImage.
  cbn [images publicImages internalImages tenants set_images].
  assert (Hcalled : imageCalled i (Image.Name i)) by (by left).
  rewrite !(findImage_insert _ _ _ _ Hcalled) by done.
  assert (Hshared :
    match (if decide (Image.ID i ∈ publicImages ds) then Some (Image.ID i) else None) with
    | Some id => (id, @None error)
    | None =>
      match (if decide (Image.ID i ∈ internalImages ds) then Some (Image.ID i) else None) with
      | Some id => (id, None)
      | None => ("", Some ErrNoImage)
      end
    end = (Image.ID i, None) ∨
    ((Image.ID i ∉ publicImages ds) ∧ (Image.ID i ∉ internalImages ds))).
  { destruct (decide (Image.ID i ∈ publicImages ds)); [by left |].
    destruct (decide (Image.ID i ∈ internalImages ds)); [by left | by right]. }
  destruct (decide (Image.TenantID i ≠ "" ∧ Image.TenantID i ≠ "admin")) as [Hreg | Hnot].
  - destruct (Htn Hreg) as (t & Ht & Hnone). rewrite Ht.
    rewrite (findImage_insert _ _ _ _ Hcalled) by done.
    destruct (decide (Image.ID i ∈ tenant.images t)) as [| Hnin]; [done |].
    destruct Hshared as [-> | [Hnp Hni]]; [done |].
    exfalso. destruct Hsearched as [(_ & _ & t' & Ht' & Hin) | [? | ?]]; try done.
    rewrite Ht in Ht'. by injection Ht' as <-.
  - destruct Hshared as [-> | [Hnp Hni]]; [done |].
    exfalso. destruct Hsearched as [(? & ? & _) | [? | ?]]; try done.
    by apply Hnot.
Qed.

Lemma image_renamed_witness :
  ∃ old, images (cache imageAdded_world) !! "i1" = Some old ∧
    Image.TenantID old = "tenant" ∧ Image.visibility old = Private ∧
    run (GetImage "i1") (cache imageRenamed_world) =
      Some ((Some imageRenamed, None), {| cache := cache imageRenamed_world; log := [] |}) ∧
    (Image.Name old ≠ "debian" →
     run (ResolveImage "tenant" "debian") (cache imageAdded_world) =
       Some (("", Some ErrNoImage), {| cache := cache imageAdded_world; log := [] |}) ∧
     (imageSearched (cache imageAdded_world) imageRenamed →
      run (ResolveImage "tenant" "debian") (cache imageRenamed_world) =
        Some (("i1", None), {| cache := cache imageRenamed_world; log := [] |}))).
Proof.
  apply (image_renamed okStore imageRenamed (cache imageAdded_world) imageRenamed_world).
  vm_compute. reflexivity.
Defined.

(** ** Tenants *)

(** The runs of [AddTenant]. *)
Lemma AddTenant_run (db : persistentStore) (id : string) (config : TenantConfig.t)
    (ds : Datastore) :
  run (AddTenant db id config) ds =
  match tenants ds !! id with
  | Some _ => Some ((None, Some (ErrNew "Duplicate Tenant ID")), {| cache := ds; log := [] |})
  | None =>
    let asked := [Persist (addTenant id config) ds] in
    match exec db (addTenant id config) with
    | Some e => Some ((None, Some (Wrapped "error adding tenant to database" e)),
                      {| cache := ds; log := asked |})
    | None =>
      match db_getTenant db id with
      | (_, Some e) => Some ((None, Some e), {| cache := ds; log := asked |})
      | (None, None) => Some ((None, None), {| cache := ds; log := asked |})
      | (Some t, None) =>
        Some ((Some t, None), {| cache := set_tenants (<[id := t]>) ds; log := asked |})
      end
    end
  end.
Proof.
  unfold AddTenant. run_unfold.
  destruct (tenants ds !! id); [done |]. cbn [cache log].
  destruct (exec db _); [done |].
  by destruct (db_getTenant db id) as [[t |] [e |]].
Qed.

Lemma defaultBits_range (config : TenantConfig.t) :
  ¬ (TenantConfig.SubnetBits config ≠ 0 ∧
     (TenantConfig.SubnetBits config < 4 ∨ TenantConfig.SubnetBits config > 30))%Z →
  (4 ≤ TenantConfig.SubnetBits (defaultBits config) ≤ 30)%Z.
Proof.
  unfold defaultBits. intros H. case_decide; cbn [TenantConfig.SubnetBits]; lia.
Qed.

Lemma set_tenants_delete_insert (id : string) (t : tenant.t) (ds : Datastore) :
  tenants ds !! id = None →
  set_tenants (delete id) (set_tenants (<[id := t]>) ds) = ds.
Proof.
  intros Hnone. destruct ds. unfold set_tenants. cbn in *.
  by rewrite delete_insert_id.
Qed.

(** A run of [CreateTenant] that returns no error. *)
Lemma CreateTenant_done (db : persistentStore)
    (uuidParse : string → string * option error) (apiURL tenantID : string)
    (config : TenantConfig.t) (ds : Datastore) (ts : TenantSummary) (w : world) :
  run (CreateTenant db uuidParse apiURL tenantID config) ds = Some ((ts, None), w) →
  ∃ id t, uuidParse tenantID = (id, None) ∧ tenants ds !! id = None ∧
    db_getTenant db id = (Some t, None) ∧
    w = {| cache := set_tenants (<[id := t]>) ds;
           log := [Persist (addTenant id (defaultBits config)) ds] |}.
Proof.
  unfold CreateTenant.
  destruct (uuidParse tenantID) as [id [e |]] eqn:Hparse; [by run_unfold |].
  case_decide as Hbits; [by run_unfold |].
  unfold run at 1, bind at 1. fold (run (AddTenant db id (defaultBits config)) ds).
  rewrite AddTenant_run.
  destruct (tenants ds !! id) eqn:Hnone; [by run_unfold |].
  cbv zeta. destruct (exec db _) as [e |]; [by run_unfold |].
  destruct (db_getTenant db id) as [[t |] [e |]] eqn:Hget; run_unfold; try done.
  intros [= <- <-]. by exists id, t.
Qed.

(** X22. Whatever [CreateTenant] returns, a configuration reaches the store
    only for the parsed id, only when no tenant of that id is cached, and
    only with 4 to 30 subnet bits: 24 when the caller leaves them at 0, else
    the caller's. An error leaves the cache as it was; without an error the
    store was asked once and the cached tenant is the one that the store
    gives back, whose id the summary carries. *)
Theorem CreateTenant_subnet_bits (db : persistentStore)
    (uuidParse : string → string * option error) (apiURL tenantID : string)
    (config : TenantConfig.t) (ds : Datastore) (r : TenantSummary * option error)
    (w : world) :
  run (CreateTenant db uuidParse apiURL tenantID config) ds = Some (r, w) →
  (∀ id c seen, Persist (addTenant id c) seen ∈ log w →
     uuidParse tenantID = (id, None) ∧ seen = ds ∧ tenants ds !! id = None ∧
     (4 ≤ TenantConfig.SubnetBits c ≤ 30)%Z ∧
     TenantConfig.Name c = TenantConfig.Name config ∧
     (TenantConfig.SubnetBits config = 0%Z → TenantConfig.SubnetBits c = 24%Z) ∧
     (TenantConfig.SubnetBits config ≠ 0%Z → c = config)) ∧
  (r.2 ≠ None → cache w = ds) ∧
  (r.2 = None →
     ∃ id c t, log w = [Persist (addTenant id c) ds] ∧
       db_getTenant db id = (Some t, None) ∧
       cache w = set_tenants (<[id := t]>) ds ∧
       Summary_ID r.1 = tenant.ID t).
Proof.
  unfold CreateTenant.
  destruct (uuidParse tenantID) as [id [e |]] eqn:Hparse.
  { run_unfold. intros [= <- <-]. cbn [log cache snd].
    split; [by intros ? ? ? ?%elem_of_nil |]. by split. }
  case_decide as Hbits.
  { run_unfold. intros [= <- <-]. cbn [log cache snd].
    split; [by intros ? ? ? ?%elem_of_nil |]. by split. }
  pose proof (defaultBits_range config Hbits) as Hrange.
  assert (Hcfg : TenantConfig.Name (defaultBits config) = TenantConfig.Name config ∧
            (TenantConfig.SubnetBits config = 0%Z →
             TenantConfig.SubnetBits (defaultBits config) = 24%Z) ∧
            (TenantConfig.SubnetBits config ≠ 0%Z → defaultBits config = config)).
  { unfold defaultBits. by case_decide. }
  unfold run, bind at 1. fold (run (AddTenant db id (defaultBits config)) ds).
  rewrite AddTenant_run.
  assert (Hlog : ∀ id' c seen,
            Persist (addTenant id' c) seen ∈ [Persist (addTenant id (defaultBits config)) ds] →
            tenants ds !! id = None →
            (id, @None error) = (id', None) ∧ seen = ds ∧ tenants ds !! id' = None ∧
            (4 ≤ TenantConfig.SubnetBits c ≤ 30)%Z ∧
            TenantConfig.Name c = TenantConfig.Name config ∧
            (TenantConfig.SubnetBits config = 0%Z → TenantConfig.SubnetBits c = 24%Z) ∧
            (TenantConfig.SubnetBits config ≠ 0%Z → c = config)).
  { intros id' c seen [= -> -> ->]%list_elem_of_singleton Hnone.
    destruct Hcfg as (? & ? & ?). repeat split; (done || lia). }
  destruct (tenants ds !! id) eqn:Hnone.
  { run_unfold. intros [= <- <-]. cbn [log cache snd].
    split; [by intros ? ? ? ?%elem_of_nil |]. by split. }
  cbv zeta. destruct (exec db _) as [e |].
  { run_unfold. intros [= <- <-]. cbn [log cache snd].
    split; [intros; by apply Hlog |]. by split. }
  destruct (db_getTenant db id) as [[t |] [e |]] eqn:Hget;
    run_unfold; intros [= <- <-]; cbn [log cache fst snd].
  - split; [intros; by apply Hlog |]. by split.
  - split; [intros; by apply Hlog |]. split; [done |].
    intros _. by exists id, (defaultBits config), t.
  - split; [intros; by apply Hlog |]. by split.
Qed.

Lemma CreateTenant_subnet_bits_witness :
  ∃ r w, run (CreateTenant tenantStore anyUUID "http://c" "tenant" openConfig) emptyDatastore
           = Some (r, w) ∧
    r.2 = None ∧ Summary_ID r.1 = "tenant" ∧
    ∃ id c t, log w = [Persist (addTenant id c) emptyDatastore] ∧
      db_getTenant tenantStore id = (Some t, None) ∧
      cache w = set_tenants (<[id := t]>) emptyDatastore ∧
      Summary_ID r.1 = tenant.ID t.
Proof.
  eexists _, _. split; [vm_compute; reflexivity |]. split; [reflexivity |].
  split; [reflexivity |].
  eapply (CreateTenant_subnet_bits tenantStore anyUUID "http://c" "tenant" openConfig
            emptyDatastore); [vm_compute; reflexivity | reflexivity].
Defined.

(** X23. [CreateTenant] returns, except in one case: the id parses, the
    subnet bits are accepted, no tenant of the id is cached, the store takes
    the tenant and then gives back neither a tenant nor an error for the id.
    [AddTenant] then returns no tenant and no error, and the controller
    reads the id of the missing tenant. *)
Theorem CreateTenant_panics_iff (db : persistentStore)
    (uuidParse : string → string * option error) (apiURL tenantID : string)
    (config : TenantConfig.t) (ds : Datastore) :
  run (CreateTenant db uuidParse apiURL tenantID config) ds = None ↔
  ∃ id, uuidParse tenantID = (id, None) ∧
    (TenantConfig.SubnetBits config = 0 ∨ 4 ≤ TenantConfig.SubnetBits config ≤ 30)%Z ∧
    tenants ds !! id = None ∧
    exec db (addTenant id (defaultBits config)) = None ∧
    db_getTenant db id = (None, None) ∧
    run (AddTenant db id (defaultBits config)) ds =
      Some ((None, None),
            {| cache := ds; log := [Persist (addTenant id (defaultBits config)) ds] |}).
Proof.
  unfold CreateTenant.
  destruct (uuidParse tenantID) as [id [e |]] eqn:Hparse.
  { run_unfold. split; [done |]. by intros (? & [=] & _). }
  case_decide as Hbits.
  { run_unfold. split; [done |]. intros (? & _ & ? & _). exfalso. lia. }
  unfold run at 1, bind at 1. fold (run (AddTenant db id (defaultBits config)) ds).
  rewrite AddTenant_run.
  destruct (tenants ds !! id) eqn:Hnone.
  { run_unfold. split; [done |]. by intros (? & [= <-] & _ & ? & _); simplify_eq. }
  cbv zeta. destruct (exec db _) as [e |] eqn:Hex.
  { run_unfold. split; [done |]. intros (? & [= <-] & _ & _ & ? & _). congruence. }
  destruct (db_getTenant db id) as [[t |] [e |]] eqn:Hget; run_unfold.
  - split; [done |]. intros (? & [= <-] & _ & _ & _ & ? & _). congruence.
  - split; [done |]. intros (? & [= <-] & _ & _ & _ & ? & _). congruence.
  - split; [done |]. intros (? & [= <-] & _ & _ & _ & ? & _). congruence.
  - split; [| done]. intros _. exists id. split; [done |]. split.
    { destruct (decide (TenantConfig.SubnetBits config = 0%Z)); [by left | right; lia]. }
    repeat (split; [done |]).
    change (run (AddTenant db id (defaultBits config)) ds = Some
              ((None, None),
               {| cache := ds; log := [Persist (addTenant id (defaultBits config)) ds] |})).
    rewrite AddTenant_run, Hnone. cbv zeta. by rewrite Hex, Hget.
Qed.

(** X24. [ShowTenant] returns, except when the tenant is not cached and the
    store gives back neither a tenant nor an error for the id: the
    controller then reads the name of the missing tenant. *)
Theorem ShowTenant_panics_iff (db : persistentStore) (tenantID : string) (ds : Datastore) :
  run (ShowTenant db tenantID) ds = None ↔
  tenants ds !! tenantID = None ∧ db_getTenant db tenantID = (None, None).
Proof.
  unfold ShowTenant, GetTenant, getTenant. run_unfold.
  destruct (tenants ds !! tenantID) as [t |]; cbn [cache log fst snd].
  { split; [done |]. by intros [[=] _]. }
  destruct (db_getTenant db tenantID) as [[t |] [e |]]; cbn [cache log fst snd Wrap];
    (split; [done |]); by intros [_ [=]].
Qed.

(** X25. A tenant that [CreateTenant] has stored is cached under the parsed
    id: [ShowTenant] gives the configuration that the store gave back,
    without asking the store; [AddTenant] for the id is refused before the
    store is asked; and [DeleteTenant], with the store's consent, leaves the
    cache as it was before the tenant was created. *)
Theorem tenant_created_then_deleted (db db' : persistentStore)
    (uuidParse : string → string * option error) (apiURL tenantID : string)
    (config config' : TenantConfig.t) (ds : Datastore) (ts : TenantSummary) (w : world) :
  run (CreateTenant db uuidParse apiURL tenantID config) ds = Some ((ts, None), w) →
  exec db' (deleteTenant (uuidParse tenantID).1) = None →
  ∃ t, db_getTenant db (uuidParse tenantID).1 = (Some t, None) ∧
    run (ShowTenant db' (uuidParse tenantID).1) (cache w) =
      Some (({| TenantConfig.Name := TenantConfig.Name (tenant.Config t);
                TenantConfig.SubnetBits := tenant.SubnetBits t |}, None),
            {| cache := cache w; log := [] |}) ∧
    run (AddTenant db' (uuidParse tenantID).1 config') (cache w) =
      Some ((None, Some (ErrNew "Duplicate Tenant ID")), {| cache := cache w; log := [] |}) ∧
    run (DeleteTenant db' (uuidParse tenantID).1) (cache w) =
      Some (None, {| cache := ds;
                     log := [Persist (deleteTenant (uuidParse tenantID).1) ds] |}).
Proof.
  intros (id & t & Hparse & Hnone & Hget & ->)%CreateTenant_done.
  rewrite Hparse. cbn [cache fst]. intros Hdel. exists t. split; [done |].
  rewrite AddTenant_run.
  unfold ShowTenant, GetTenant, getTenant, DeleteTenant. run_unfold.
  cbn [tenants set_tenants]. rewrite !lookup_insert_eq. cbn [cache log fst snd].
  split; [done |]. split; [done |].
  rewrite Hdel. by rewrite set_tenants_delete_insert.
Qed.

Lemma tenant_created_then_deleted_witness :
  ∃ t, db_getTenant tenantStore "tenant" = (Some t, None) ∧
    run (ShowTenant okStore "tenant") (oneTenant "tenant" 24 None) =
      Some (({| TenantConfig.Name := TenantConfig.Name (tenant.Config t);
                TenantConfig.SubnetBits := tenant.SubnetBits t |}, None),
            {| cache := oneTenant "tenant" 24 None; log := [] |}) ∧
    run (AddTenant okStore "tenant" openConfig) (oneTenant "tenant" 24 None) =
      Some ((None, Some (ErrNew "Duplicate Tenant ID")),
            {| cache := oneTenant "tenant" 24 None; log := [] |}) ∧
    run (DeleteTenant okStore "tenant") (oneTenant "tenant" 24 None) =
      Some (None, {| cache := emptyDatastore;
                     log := [Persist (deleteTenant "tenant") emptyDatastore] |}).
Proof.
  apply (tenant_created_then_deleted tenantStore okStore anyUUID "http://c" "tenant"
           openConfig openConfig emptyDatastore
           {| Summary_ID := "tenant"; Summary_Name := "";
              Summary_Links := [ {| Rel := "self"; Href := "http://c/tenants/tenant" |} ] |}
           {| cache := oneTenant "tenant" 24 None;
              log := [Persist (addTenant "tenant"
                        {| TenantConfig.Name := "T"; TenantConfig.SubnetBits := 24 |})
                        emptyDatastore] |}).
  - vm_compute. reflexivity.
  - reflexivity.
Defined.

(** ** The attachments of an instance *)

Lemma UpdateBlockDevice_existing (db : persistentStore) (data old : Volume.t)
    (ds : Datastore) (l : list event) :
  blockDevices ds !! Volume.ID data = Some old →
  is_Some (tenants ds !! Volume.TenantID data) →
  ∃ r l',
    UpdateBlockDevice db data {| cache := ds; log := l |}
      = Some (r, {| cache := if exec db (updateBlockData data) is None
                             then putDevice data ds else ds;
                    log := l' |}).
Proof.
  intros Hold [t Ht]. unfold UpdateBlockDevice, AddBlockDevice. run_unfold.
  rewrite Hold. cbn [cache log]. rewrite Hold. cbn [cache log].
  destruct (exec db _); cbn [Wrap cache log tenants set_blockDevices].
  - eexists _, _. reflexivity.
  - rewrite Ht. eexists _, _. reflexivity.
Qed.

Lemma detached_blockDevices (db : persistentStore) (id : string) (a : StorageAttachment.t)
    (bd : Volume.t) (ds : Datastore) :
  blockDevices ds !! Volume.ID bd = Some bd →
  blockDevices (detached db id a bd ds) = <[Volume.ID bd := freed db bd]> (blockDevices ds).
Proof.
  intros Hbd. unfold detached, freed, putDevice.
  destruct (exec db _); cbn [blockDevices set_instanceVolumes set_attachments set_tenants
                              set_blockDevices Volume.with_State Volume.ID].
  - by rewrite insert_id.
  - done.
Qed.

Lemma detached_devices_agree (db : persistentStore) (id : string) (a : StorageAttachment.t)
    (bd : Volume.t) (ds : Datastore) :
  devices_agree ds →
  blockDevices ds !! Volume.ID bd = Some bd →
  devices_agree (detached db id a bd ds).
Proof.
  intros Hagree Hbd.
  apply (devices_agree_ext
           (if exec db (updateBlockData (Volume.with_State Available bd)) is None
            then putDevice (Volume.with_State Available bd) ds else ds));
    [by unfold detached; destruct (exec db _) .. |].
  destruct (exec db _); [done |].
  apply devices_agree_put; [done | |].
  - destruct (proj1 Hagree _ _ Hbd) as (_ & t & Ht & _). by exists t.
  - cbn [Volume.with_State Volume.ID Volume.TenantID]. intros old Hold. congruence.
Qed.

Lemma detachAll_run (db : persistentStore) (instanceID : string)
    (entries : list (string * string * string)) (ds : Datastore) (l : list event) :
  attachments_linked ds → devices_agree ds → volumes_cached ds →
  (∀ k id id', (k, id) ∈ entries → instanceVolumes ds !! k = Some id' → id' = id) →
  ∃ w, detachAll db instanceID entries {| cache := ds; log := l |} = Some (tt, w) ∧
    attachments_linked (cache w) ∧ devices_agree (cache w) ∧ volumes_cached (cache w) ∧
    (∀ k id, instanceVolumes (cache w) !! k = Some id ↔
       instanceVolumes ds !! k = Some id ∧ ¬ (k.1 = instanceID ∧ (k, id) ∈ entries)) ∧
    (∀ id a, attachments (cache w) !! id = Some a ↔
       attachments ds !! id = Some a ∧
       ¬ (StorageAttachment.InstanceID a = instanceID ∧ (attachmentKey a, id) ∈ entries)) ∧
    (∀ v id bd, ((instanceID, v), id) ∈ entries →
       instanceVolumes ds !! (instanceID, v) = Some id →
       blockDevices ds !! v = Some bd →
       blockDevices (cache w) !! v = Some (freed db bd)) ∧
    (∀ v, (∀ id, ((instanceID, v), id) ∈ entries →
             instanceVolumes ds !! (instanceID, v) ≠ Some id) →
       blockDevices (cache w) !! v = blockDevices ds !! v).
Proof.
  revert ds l.
  induction entries as [| [k id] rest IH]; intros ds l Hlinked Hagree Hcached Hsnap.
  { exists {| cache := ds; log := l |}. cbn [detachAll cache]. unfold ret.
    split; [done |]. split; [done |]. split; [done |]. split; [done |].
    split; [intros k id; split; [intros ?; split; [done | by intros [_ ?%elem_of_nil]]
                                | by intros [? _]] |].
    split; [intros id a; split; [intros ?; split; [done | by intros [_ ?%elem_of_nil]]
                                | by intros [? _]] |].
    split; [by intros ? ? ? ?%elem_of_nil | done]. }
  assert (Hsnap' : ∀ k id id', (k, id) ∈ rest →
            instanceVolumes ds !! k = Some id' → id' = id).
  { intros k' id1 id2 Hin. apply Hsnap. by right. }
  assert (Hskip : ¬ (instanceVolumes ds !! k = Some id ∧ k.1 = instanceID) →
    ∃ w, detachAll db instanceID rest {| cache := ds; log := l |} = Some (tt, w) ∧
      attachments_linked (cache w) ∧ devices_agree (cache w) ∧ volumes_cached (cache w) ∧
      (∀ k' id', instanceVolumes (cache w) !! k' = Some id' ↔
         instanceVolumes ds !! k' = Some id' ∧
         ¬ (k'.1 = instanceID ∧ (k', id') ∈ (k, id) :: rest)) ∧
      (∀ id' a, attachments (cache w) !! id' = Some a ↔
         attachments ds !! id' = Some a ∧
         ¬ (StorageAttachment.InstanceID a = instanceID ∧
            (attachmentKey a, id') ∈ (k, id) :: rest)) ∧
      (∀ v id' bd, ((instanceID, v), id') ∈ (k, id) :: rest →
         instanceVolumes ds !! (instanceID, v) = Some id' →
         blockDevices ds !! v = Some bd →
         blockDevices (cache w) !! v = Some (freed db bd)) ∧
      (∀ v, (∀ id', ((instanceID, v), id') ∈ (k, id) :: rest →
               instanceVolumes ds !! (instanceID, v) ≠ Some id') →
         blockDevices (cache w) !! v = blockDevices ds !! v)).
  { intros Hno.
    destruct (IH ds l Hlinked Hagree Hcached Hsnap')
      as (w & Hrun & H1 & H2 & H3 & P1 & P2 & P3 & P4).
    exists w. split; [done |]. split; [done |]. split; [done |]. split; [done |].
    split; [| split; [| split]].
    - intros k' id'. rewrite P1. split; intros [Hk' Hnot]; (split; [done |]).
      + intros [Hi [[= -> ->] | Hin]%elem_of_cons]; [by apply Hno | by apply Hnot].
      + intros [Hi Hin]. apply Hnot. split; [done | by right].
    - intros id' a. rewrite P2. split; intros [Ha Hnot]; (split; [done |]).
      + intros [Hi [[= Hkey ->] | Hin]%elem_of_cons]; [| by apply Hnot].
        apply Hno. split.
        * apply Hlinked. by exists a.
        * by rewrite <- Hkey.
      + intros [Hi Hin]. apply Hnot. split; [done | by right].
    - intros v id' bd [[= <- <-] | Hin]%elem_of_cons Hv Hbd.
      + exfalso. by apply Hno.
      + by eapply P3.
    - intros v Hv. apply P4. intros id' Hin. apply Hv. by right. }
  cbn [detachAll]. unfold get at 1, bind at 1. cbn [cache].
  destruct (instanceVolumes ds !! k) as [id0 |] eqn:Hk; [| by apply Hskip; intros [[=] _]].
  assert (id0 = id) as -> by (eapply Hsnap; [by left | done]).
  destruct (proj1 (Hlinked k id) Hk) as (a & Ha & Hkey).
  rewrite Ha. cbn [default from_option Datatypes.id].
  destruct (decide (StorageAttachment.InstanceID a = instanceID)) as [Hinst | Hinst].
  2: { apply Hskip. intros [_ Hk1]. apply Hinst. by rewrite <- Hk1, <- Hkey. }
  destruct (Hcached id a Ha) as [bd Hbd].
  destruct (proj1 Hagree _ _ Hbd) as (Hid & t & Ht & _).
  unfold GetBlockDevice. run_unfold. rewrite Hbd. cbn [cache log].
  destruct (UpdateBlockDevice_existing db (Volume.with_State Available bd) bd ds l)
    as (r & l' & Hupd).
  { cbn [Volume.with_State Volume.ID]. by rewrite Hid. }
  { cbn [Volume.with_State Volume.TenantID]. by exists t. }
  rewrite Hupd. cbn [cache log].
  fold (attachmentKey a).
  change (set_instanceVolumes (delete (attachmentKey a)) _) with (detached db id a bd ds).
  assert (Hbd' : blockDevices ds !! Volume.ID bd = Some bd) by (by rewrite Hid).
  assert (Hatt : attachments (detached db id a bd ds) = delete id (attachments ds)).
  { unfold detached. by destruct (exec db _). }
  assert (Hiv : instanceVolumes (detached db id a bd ds) = delete k (instanceVolumes ds)).
  { unfold detached. rewrite Hkey. by destruct (exec db _). }
  pose proof (detached_blockDevices db id a bd ds Hbd') as Hbds.
  edestruct (IH (detached db id a bd ds)) as (w & Hrun & H1 & H2 & H3 & P1 & P2 & P3 & P4);
    [| by apply detached_devices_agree | | | exists w; split; [exact Hrun |]].
  - intros k' id'. rewrite Hiv, Hatt. rewrite lookup_delete_Some, (Hlinked k' id'). split.
    + intros [Hne (a' & Ha' & Hkey')]. exists a'. split; [| done].
      apply lookup_delete_Some. split; [| done]. intros <-. congruence.
    + intros (a' & [Hne Ha']%lookup_delete_Some & Hkey'). split; [| by exists a'].
      intros <-. apply Hne.
      assert (Hk' : instanceVolumes ds !! k = Some id') by (apply Hlinked; by exists a').
      congruence.
  - intros id' a'. rewrite Hatt, Hbds. intros [_ Ha']%lookup_delete_Some.
    destruct (Hcached id' a' Ha') as [bd' Hbd''].
    destruct (decide (Volume.ID bd = StorageAttachment.BlockID a')) as [<- | Hne].
    + rewrite lookup_insert_eq. by eexists.
    + rewrite lookup_insert_ne by done. by eexists.
  - intros k' id1 id2 Hin. rewrite Hiv. intros [_ Hk']%lookup_delete_Some.
    by eapply Hsnap'.
  - assert (Hk1 : k.1 = instanceID) by (by rewrite <- Hkey).
    split; [done |]. split; [done |]. split; [done |].
    split; [| split; [| split]].
    + intros k' id'. rewrite P1, Hiv, lookup_delete_Some. split.
      * intros [[Hne Hk'] Hnot]. split; [done |].
        intros [Hi [[= -> ->] | Hin]%elem_of_cons]; [done | by apply Hnot].
      * intros [Hk' Hnot]. split; [split; [| done] |].
        -- intros <-. apply Hnot. split; [done |]. apply elem_of_cons. left.
           f_equal; congruence.
        -- intros [Hi Hin]. apply Hnot. split; [done | by right].
    + intros id' a'. rewrite P2, Hatt, lookup_delete_Some. split.
      * intros [[Hne Ha'] Hnot]. split; [done |].
        intros [Hi [[= _ ->] | Hin]%elem_of_cons]; [done | by apply Hnot].
      * intros [Ha' Hnot]. split; [split; [| done] |].
        -- intros <-. apply Hnot. split; [congruence |]. apply elem_of_cons. left.
           f_equal; congruence.
        -- intros [Hi Hin]. apply Hnot. split; [done | by right].
    + intros v id' bd0 Hin Hv Hbd0.
      assert (Hkv : k = (instanceID, Volume.ID bd)).
      { rewrite <- Hkey. unfold attachmentKey. by rewrite Hinst, Hid. }
      destruct (decide (v = Volume.ID bd)) as [-> | Hne].
      * rewrite P4.
        -- rewrite Hbds, lookup_insert_eq. congruence.
        -- intros id1 _. by rewrite Hiv, Hkv, lookup_delete_eq.
      * apply elem_of_cons in Hin as [Heq | Hin].
        { exfalso. apply Hne. congruence. }
        eapply P3; [exact Hin | | by rewrite Hbds, lookup_insert_ne].
        rewrite Hiv. apply lookup_delete_Some. split; [| done].
        intros Heq. apply Hne. congruence.
    + intros v Hv.
      assert (Hkv : k = (instanceID, Volume.ID bd)).
      { rewrite <- Hkey. unfold attachmentKey. by rewrite Hinst, Hid. }
      assert (Hne : Volume.ID bd ≠ v).
      { intros <-. apply (Hv id).
        - apply elem_of_cons. left. by rewrite Hkv.
        - by rewrite <- Hkv. }
      rewrite P4.
      * by rewrite Hbds, lookup_insert_ne.
      * intros id' Hin. rewrite Hiv. intros [_ Hv']%lookup_delete_Some.
        by apply (Hv id'); [right |].
Qed.

(** X26. [updateStorageAttachments] detaches every volume of the instance.
    On a cache in which [instanceVolumes] indexes [attachments], the device
    maps of the tenants mirror [blockDevices] and every attached volume is
    cached, it returns for every store and every order of the range, and
    keeps these three properties. Afterwards exactly the attachments of
    other instances are left, in both maps, so that [getStorageAttachment]
    finds none for the instance. A volume that was attached to the instance
    is available when the store took its update and is as before when the
    store refused it, the attachment being removed all the same; the other
    volumes are as before. *)
Theorem updateStorageAttachments_detaches (db : persistentStore)
    (rangeOrder : gmap (string * string) string → list (string * string * string))
    (instanceID : string) (ds : Datastore) :
  visits_entries rangeOrder →
  attachments_linked ds → devices_agree ds → volumes_cached ds →
  ∃ w, run (updateStorageAttachments db rangeOrder instanceID) ds = Some (tt, w) ∧
    attachments_linked (cache w) ∧ devices_agree (cache w) ∧ volumes_cached (cache w) ∧
    (∀ k id, instanceVolumes (cache w) !! k = Some id ↔
       instanceVolumes ds !! k = Some id ∧ k.1 ≠ instanceID) ∧
    (∀ id a, attachments (cache w) !! id = Some a ↔
       attachments ds !! id = Some a ∧ StorageAttachment.InstanceID a ≠ instanceID) ∧
    (∀ v, run (getStorageAttachment instanceID v) (cache w) =
       Some ((zeroAttachment, Some ErrNoStorageAttachment),
             {| cache := cache w; log := [] |})) ∧
    (∀ v, blockDevices (cache w) !! v =
       match instanceVolumes ds !! (instanceID, v) with
       | Some _ => freed db <$> blockDevices ds !! v
       | None => blockDevices ds !! v
       end).
Proof.
  intros Hvisits Hlinked Hagree Hcached.
  unfold updateStorageAttachments, run. unfold get at 1, bind at 1. cbn [cache].
  destruct (detachAll_run db instanceID (rangeOrder (instanceVolumes ds)) ds []
              Hlinked Hagree Hcached)
    as (w & Hrun & H1 & H2 & H3 & P1 & P2 & P3 & P4).
  { intros k id id' Hin%Hvisits Hk. congruence. }
  exists w. split; [done |]. split; [done |]. split; [done |]. split; [done |].
  assert (Q1 : ∀ k id, instanceVolumes (cache w) !! k = Some id ↔
                 instanceVolumes ds !! k = Some id ∧ k.1 ≠ instanceID).
  { intros k id. rewrite P1. split; intros [Hk Hnot]; (split; [done |]).
    - intros Hi. apply Hnot. split; [done |]. by apply Hvisits.
    - by intros [Hi _]. }
  split; [done |]. split; [| split].
  - intros id a. rewrite P2. split; intros [Ha Hnot]; (split; [done |]).
    + intros Hi. apply Hnot. split; [done |]. apply Hvisits, Hlinked. by exists a.
    + by intros [Hi _].
  - intros v. unfold getStorageAttachment. run_unfold.
    destruct (instanceVolumes (cache w) !! (instanceID, v)) as [id |] eqn:Hv; [| done].
    apply Q1 in Hv as [_ Hne]. done.
  - intros v. destruct (instanceVolumes ds !! (instanceID, v)) as [id |] eqn:Hv.
    + assert (Hin : ((instanceID, v), id) ∈ rangeOrder (instanceVolumes ds))
        by (by apply Hvisits).
      destruct (proj1 (Hlinked _ _) Hv) as (a & Ha & Hkey).
      destruct (Hcached id a Ha) as [bd Hbd].
      assert (StorageAttachment.BlockID a = v) as <-
        by (unfold attachmentKey in Hkey; congruence).
      rewrite Hbd. cbn [fmap option_fmap option_map]. by eapply P3.
    + apply P4. intros id Hin%Hvisits. congruence.
Qed.

(** The cache of the scenario in which instance "i" has volume "v"
    attached. *)
Lemma attached_world_cache :
  cache attached_world =
  {| tenants := {[ "tenant" := tenant.with_devices
                                 (λ _, {[ "v" := Volume.with_State InUse volumeV ]})
                                 (newTenant "tenant" 24 None) ]};
     instances := ∅; tenantUsage := ∅;
     blockDevices := {[ "v" := Volume.with_State InUse volumeV ]};
     attachments := {[ "a" := attachmentA ]};
     instanceVolumes := {[ ("i", "v") := "a" ]};
     pools := ∅; externalSubnets := ∅; externalIPs := ∅; mappedIPs := ∅; images := ∅;
     publicImages := []; internalImages := []; workloads := ∅; publicWorkloads := [] |}.
Proof. vm_compute. reflexivity. Qed.

Lemma attached_world_linked : attachments_linked (cache attached_world).
Proof.
  rewrite attached_world_cache. intros k id. cbn [instanceVolumes attachments]. split.
  - intros [<- <-]%lookup_singleton_Some. exists attachmentA. split; [| done].
    apply lookup_singleton_eq.
  - intros (a & [<- <-]%lookup_singleton_Some & <-). apply lookup_singleton_eq.
Qed.

Lemma attached_world_agree : devices_agree (cache attached_world).
Proof.
  rewrite attached_world_cache. split.
  - intros id v Hv. cbn [blockDevices] in Hv.
    apply lookup_singleton_Some in Hv as [<- <-]. split; [done |].
    eexists. split; [reflexivity | reflexivity].
  - intros tid t id v Ht Hd. cbn [tenants] in Ht.
    apply lookup_singleton_Some in Ht as [<- <-].
    cbn [tenant.devices tenant.with_devices] in Hd.
    apply lookup_singleton_Some in Hd as [<- <-]. done.
Qed.

Lemma attached_world_cached : volumes_cached (cache attached_world).
Proof.
  rewrite attached_world_cache. intros id a Ha. cbn [attachments] in Ha.
  apply lookup_singleton_Some in Ha as [<- <-]. by eexists.
Qed.

Lemma visits_entries_map_to_list : visits_entries map_to_list.
Proof. intros m k id. apply elem_of_map_to_list. Qed.

Lemma updateStorageAttachments_detaches_witness :
  ∃ w, run (updateStorageAttachments okStore map_to_list "i") (cache attached_world)
         = Some (tt, w) ∧
    attachments_linked (cache w) ∧ devices_agree (cache w) ∧ volumes_cached (cache w) ∧
    (∀ k id, instanceVolumes (cache w) !! k = Some id ↔
       instanceVolumes (cache attached_world) !! k = Some id ∧ k.1 ≠ "i") ∧
    (∀ id a, attachments (cache w) !! id = Some a ↔
       attachments (cache attached_world) !! id = Some a ∧
       StorageAttachment.InstanceID a ≠ "i") ∧
    (∀ v, run (getStorageAttachment "i" v) (cache w) =
       Some ((zeroAttachment, Some ErrNoStorageAttachment),
             {| cache := cache w; log := [] |})) ∧
    (∀ v, blockDevices (cache w) !! v =
       match instanceVolumes (cache attached_world) !! ("i", v) with
       | Some _ => freed okStore <$> blockDevices (cache attached_world) !! v
       | None => blockDevices (cache attached_world) !! v
       end).
Proof.
  apply (updateStorageAttachments_detaches okStore map_to_list "i" (cache attached_world)).
  - apply visits_entries_map_to_list.
  - apply attached_world_linked.
  - apply attached_world_agree.
  - apply attached_world_cached.
Defined.

(** ** A pool update that fails *)

(** X27. When the store deletes the mapping and then refuses the update of
    the pool, [UnMapExternalIP] returns the wrapped error with the mapping
    gone from the cache and the pool as it was: its [Free] is not raised.
    No later call makes up for it; [UnMapExternalIP] for the address then
    answers [ErrAddressNotFound] without asking the store. *)
Theorem UnMapExternalIP_store_failure (db db' : persistentStore) (address : string)
    (ds : Datastore) (m : MappedIP.t) (pool : Pool.t) (e : error) :
  mappedIPs ds !! address = Some m →
  pools ds !! MappedIP.PoolID m = Some pool →
  exec db (deleteMappedIP (MappedIP.ID m)) = None →
  (∀ p, exec db (updatePool p) = Some e) →
  ∃ w, run (UnMapExternalIP db address) ds
         = Some (Some (Wrapped "error updating pool in database" e), w) ∧
    cache w = set_mappedIPs (delete address) ds ∧
    pools (cache w) !! MappedIP.PoolID m = Some pool ∧
    run (UnMapExternalIP db' address) (cache w)
      = Some (Some ErrAddressNotFound, {| cache := cache w; log := [] |}).
Proof.
  intros Hm Hp Hdel Hupd. unfold UnMapExternalIP. run_unfold.
  rewrite Hm, Hp. cbn [cache log]. rewrite Hdel. cbn [cache log]. rewrite Hupd.
  cbn [cache log]. eexists. split; [reflexivity |]. cbn [cache].
  split; [done |]. split; [done |].
  cbn [mappedIPs set_mappedIPs]. by rewrite lookup_delete_eq.
Qed.

Lemma UnMapExternalIP_store_failure_witness :
  ∃ w, run (UnMapExternalIP noUpdatePoolStore "10.0.0.1") (cache mappedOk_world)
         = Some (Some (Wrapped "error updating pool in database" (ErrStore "updatePool")), w) ∧
    cache w = set_mappedIPs (delete "10.0.0.1") (cache mappedOk_world) ∧
    pools (cache w) !! MappedIP.PoolID mapping_10_0_0_1
      = Some {| Pool.ID := "p"; Pool.Name := "pool"; Pool.Free := 1; Pool.TotalIPs := 2;
                Pool.Subnets := Pool.Subnets poolP; Pool.IPs := [] |} ∧
    run (UnMapExternalIP okStore "10.0.0.1") (cache w)
      = Some (Some ErrAddressNotFound, {| cache := cache w; log := [] |}).
Proof.
  apply (UnMapExternalIP_store_failure noUpdatePoolStore okStore "10.0.0.1"
           (cache mappedOk_world) mapping_10_0_0_1).
  - vm_compute. reflexivity.
  - vm_compute. reflexivity.
  - reflexivity.
  - reflexivity.
Defined.
